(** * A shallow embedding of the SystemVerilog lexer of slang

    The development follows [source/Lexer.cpp]: the cursor over a
    null-terminated buffer, the trivia scanner, the token dispatch, the
    string-literal, numeric and identifier scanners, and the lexing mode.
    Every C++ [while (true)] loop is the iteration of its body, bounded by a
    fuel argument; running out of fuel is reported as [None] and never as a
    result. The one place where the program can leave its own data, the
    table walk of [composeDouble], yields [None] as well: a call that does
    not come back with a result has none in the model. *)

From Stdlib Require Import ZArith List String Ascii Bool Lia PeanoNat.
From Stdlib Require Import PrimFloat Uint63.
Import ListNotations.

Set Warnings "-inexact-float".
Set Implicit Arguments.

Local Open Scope char_scope.
Local Open Scope Z_scope.

(** ** Bytes *)

(** A [char] is a byte; [code] is its value as an unsigned number. *)
Definition code (c : ascii) : Z := Z.of_N (N_of_ascii c).

(** The conversion [(char)v] of an unsigned value keeps the low eight bits. *)
Definition chr (v : Z) : ascii := ascii_of_N (Z.to_N (v mod 256)).

Definition NUL : ascii := "000".

(** ** Character classification (CharInfo.h) *)

Module CharInfo.

(** Modelled from the spec: CharInfo.h is not among the sources; the
    predicates cover ASCII, decimal/octal/hex/binary digits, logic digits
    (x, X, z, Z, ?), alphanumerics, horizontal whitespace, newlines and
    printable bytes, and the digit value extractors map characters to 0-15. *)
Definition inRange (lo hi : Z) (c : ascii) : bool :=
  (lo <=? code c) && (code c <=? hi).

Definition isASCII (c : ascii) : bool := code c <? 128.
Definition isPrintable (c : ascii) : bool := inRange 33 126 c.
Definition isDecimalDigit (c : ascii) : bool := inRange 48 57 c.
Definition isOctalDigit (c : ascii) : bool := inRange 48 55 c.
Definition isBinaryDigit (c : ascii) : bool := inRange 48 49 c.
Definition isHexDigit (c : ascii) : bool :=
  isDecimalDigit c || inRange 97 102 c || inRange 65 70 c.
Definition isAlpha (c : ascii) : bool := inRange 97 122 c || inRange 65 90 c.
Definition isAlphaNumeric (c : ascii) : bool := isAlpha c || isDecimalDigit c.

Definition isLogicDigit (c : ascii) : bool :=
  match c with
  | "x" | "X" | "z" | "Z" | "?" => true
  | _ => false
  end.

Definition isHorizontalWhitespace (c : ascii) : bool :=
  match c with
  | " " | "009" | "011" | "012" => true
  | _ => false
  end.

Definition isNewline (c : ascii) : bool :=
  match c with
  | "013" | "010" => true
  | _ => false
  end.

Definition isWhitespace (c : ascii) : bool :=
  isHorizontalWhitespace c || isNewline c.

(** [c - '0'] in unsigned 32-bit arithmetic. *)
Definition getDigitValue (c : ascii) : Z := (code c - 48) mod 2 ^ 32.

Definition getHexDigitValue (c : ascii) : Z :=
  if isDecimalDigit c then code c - 48
  else if inRange 97 102 c then 10 + (code c - 97)
  else (10 + (code c - 65)) mod 2 ^ 32.

End CharInfo.
Import CharInfo.

(** ** Tokens, trivia, diagnostics (Token.h, Diagnostics.h) *)

Module TokenKind.
Inductive t : Set :=
| Unknown | EndOfFile | EndOfDirective
| Identifier | SystemIdentifier | StringLiteral | IntegerLiteral
| RealLiteral | Directive | MacroUsage
| ApostropheOpenBrace | OpenBrace | CloseBrace | OpenBracket | CloseBracket
| OpenParenthesis | OpenParenthesisStar | CloseParenthesis
| StarCloseParenthesis | Semicolon | Colon | ColonEquals | ColonSlash
| DoubleColon | StarDoubleColonStar | Comma | DotStar | Dot | Slash | Star
| DoubleStar | StarArrow | Plus | DoublePlus | PlusColon | Minus
| DoubleMinus | MinusColon | MinusArrow | MinusDoubleArrow | Tilde
| TildeAnd | TildeOr | TildeXor | Dollar | Question | Hash | DoubleHash
| HashMinusHash | HashEqualsHash | Xor | XorTilde | Equals | DoubleEquals
| DoubleEqualsQuestion | TripleEquals | EqualsArrow | PlusEqual
| MinusEqual | SlashEqual | StarEqual | AndEqual | OrEqual | PercentEqual
| XorEqual | LeftShiftEqual | TripleLeftShiftEqual | RightShiftEqual
| TripleRightShiftEqual | LeftShift | RightShift | TripleLeftShift
| TripleRightShift | Exclamation | ExclamationEquals
| ExclamationEqualsQuestion | ExclamationDoubleEquals | Percent | LessThan
| LessThanEquals | LessThanMinusArrow | GreaterThan | GreaterThanEquals
| Or | DoubleOr | OrMinusArrow | OrEqualsArrow | At | DoubleAt | And
| DoubleAnd | TripleAnd | MacroQuote | MacroEscapedQuote | MacroPaste.

Definition eq_dec (a b : t) : {a = b} + {a <> b}.
Proof. decide equality. Defined.
End TokenKind.

Module TriviaKind.
(** Modelled from the spec: Token.h is not among the sources; a directive
    resolves to IncludeDirective, MacroUsage or another directive kind. *)
Inductive t : Set :=
| Whitespace | EndOfLine | LineComment | BlockComment
| MacroUsage | IncludeDirective | OtherDirective.
End TriviaKind.

Module DiagCode.
Inductive t : Set :=
| UnicodeBOM | UTF8Char | NonPrintableChar | EmbeddedNull
| UnterminatedStringLiteral | NewlineInStringLiteral
| OctalEscapeCodeTooBig | InvalidHexEscapeCode | UnknownEscapeCode
| EscapedWhitespace | MisplacedDirectiveChar | MissingFractionalDigits
| MissingExponentDigits | RealExponentTooLarge | SignedLiteralTooLarge
| IntegerSizeZero | IntegerSizeTooLarge | MissingVectorBase
| MissingVectorDigits | InvalidUnsizedLiteral | UnterminatedBlockComment
| NestedBlockComment | SplitBlockCommentInDirective.

Definition eq_dec (a b : t) : {a = b} + {a <> b}.
Proof. decide equality. Defined.
End DiagCode.

Module LexingMode.
Inductive t : Set := Normal | Directive | Include.

Definition isNormal (m : t) : bool :=
  match m with Normal => true | _ => false end.
End LexingMode.

Module IdentifierType.
Inductive t : Set := Unknown | Normal | Escaped | System.
End IdentifierType.

(** Four-valued logic digits and the vector under construction. *)
Inductive logic_t : Set :=
| logic_val (v : Z)
| logic_x
| logic_z.

(** Modelled from the spec: VectorBuilder.h is not among the sources; a logic
    vector is a size, a signedness and a per-digit four-valued array, filled by
    [start]/[startUnsized], [addDigit] and read by [toVector]. *)
Record LogicVector : Set := {
  lv_sized : bool;
  lv_size : Z;
  lv_signed : bool;
  lv_digits : list logic_t
}.

Definition vb_empty : LogicVector :=
  {| lv_sized := false; lv_size := 0; lv_signed := false; lv_digits := [] |}.

Definition vb_start (size32 : Z) (isSigned : bool) : LogicVector :=
  {| lv_sized := true; lv_size := size32; lv_signed := isSigned; lv_digits := [] |}.

Definition vb_startUnsized : LogicVector := vb_empty.

Definition vb_addDigit (d : logic_t) (v : LogicVector) : LogicVector :=
  {| lv_sized := lv_sized v; lv_size := lv_size v; lv_signed := lv_signed v;
     lv_digits := lv_digits v ++ [d] |}.

Record Trivia : Set := {
  trivia_kind : TriviaKind.t;
  trivia_text : string
}.

(** The kind-specific payload behind a token's data pointer. *)
Inductive TokenData : Set :=
| IdentifierInfo (rawText : string) (type : IdentifierType.t)
| DirectiveInfo (rawText : string) (kind : TriviaKind.t)
| StringLiteralInfo (rawText : string) (niceText : list ascii)
| NumericInt (rawText : string) (value : Z)
| NumericReal (rawText : string) (value : float)
| NumericVector (rawText : string) (value : LogicVector)
| NumericBit (rawText : string) (value : logic_t).

Record Token : Set := {
  kind : TokenKind.t;
  data : option TokenData;
  trivia : list Trivia
}.

(** ** The lexer state *)

Record Lexer : Set := {
  source : string;          (* the bytes from the start of the buffer on *)
  sourceEnd : nat;          (* offset of the end pointer *)
  sourceBuffer : nat;       (* offset of the cursor *)
  marker : nat;             (* offset of the start of the current lexeme *)
  mode : LexingMode.t;
  diagnostics : list DiagCode.t;
  triviaBuffer : list Trivia;
  stringBuffer : list ascii;
  vectorBuilder : LogicVector
}.

Definition set_sourceBuffer (p : nat) (st : Lexer) : Lexer :=
  {| source := source st; sourceEnd := sourceEnd st; sourceBuffer := p;
     marker := marker st; mode := mode st; diagnostics := diagnostics st;
     triviaBuffer := triviaBuffer st; stringBuffer := stringBuffer st;
     vectorBuilder := vectorBuilder st |}.

Definition set_marker (p : nat) (st : Lexer) : Lexer :=
  {| source := source st; sourceEnd := sourceEnd st;
     sourceBuffer := sourceBuffer st; marker := p; mode := mode st;
     diagnostics := diagnostics st; triviaBuffer := triviaBuffer st;
     stringBuffer := stringBuffer st; vectorBuilder := vectorBuilder st |}.

Definition set_mode (m : LexingMode.t) (st : Lexer) : Lexer :=
  {| source := source st; sourceEnd := sourceEnd st;
     sourceBuffer := sourceBuffer st; marker := marker st; mode := m;
     diagnostics := diagnostics st; triviaBuffer := triviaBuffer st;
     stringBuffer := stringBuffer st; vectorBuilder := vectorBuilder st |}.

Definition set_diagnostics (d : list DiagCode.t) (st : Lexer) : Lexer :=
  {| source := source st; sourceEnd := sourceEnd st;
     sourceBuffer := sourceBuffer st; marker := marker st; mode := mode st;
     diagnostics := d; triviaBuffer := triviaBuffer st;
     stringBuffer := stringBuffer st; vectorBuilder := vectorBuilder st |}.

Definition set_triviaBuffer (t : list Trivia) (st : Lexer) : Lexer :=
  {| source := source st; sourceEnd := sourceEnd st;
     sourceBuffer := sourceBuffer st; marker := marker st; mode := mode st;
     diagnostics := diagnostics st; triviaBuffer := t;
     stringBuffer := stringBuffer st; vectorBuilder := vectorBuilder st |}.

Definition set_stringBuffer (b : list ascii) (st : Lexer) : Lexer :=
  {| source := source st; sourceEnd := sourceEnd st;
     sourceBuffer := sourceBuffer st; marker := marker st; mode := mode st;
     diagnostics := diagnostics st; triviaBuffer := triviaBuffer st;
     stringBuffer := b; vectorBuilder := vectorBuilder st |}.

Definition set_vectorBuilder (v : LogicVector) (st : Lexer) : Lexer :=
  {| source := source st; sourceEnd := sourceEnd st;
     sourceBuffer := sourceBuffer st; marker := marker st; mode := mode st;
     diagnostics := diagnostics st; triviaBuffer := triviaBuffer st;
     stringBuffer := stringBuffer st; vectorBuilder := v |}.

(** ** The cursor (Lexer.h) *)

(** Modelled from the spec: Lexer.h is not among the sources; [peek k] is the
    byte at offset [k] or NUL beyond the end, [advance n] moves the cursor,
    [consume c] advances iff the next byte is [c], [mark] snapshots the start
    of the lexeme, [lexeme] is the slice from the mark to the cursor and
    [reallyAtEnd] is "position >= end". *)
Definition peek (k : nat) (st : Lexer) : ascii :=
  match String.get (sourceBuffer st + k) (source st) with
  | Some c => c
  | None => NUL
  end.

Definition advance (n : nat) (st : Lexer) : Lexer :=
  set_sourceBuffer (sourceBuffer st + n) st.

Definition consume (c : ascii) (st : Lexer) : bool * Lexer :=
  if Ascii.eqb (peek 0 st) c then (true, advance 1 st) else (false, st).

Definition mark (st : Lexer) : Lexer := set_marker (sourceBuffer st) st.

Definition reallyAtEnd (st : Lexer) : bool :=
  (sourceEnd st <=? sourceBuffer st)%nat.

Definition lexemeLength (st : Lexer) : nat := (sourceBuffer st - marker st)%nat.

Definition lexeme (st : Lexer) : string :=
  String.substring (marker st) (lexemeLength st) (source st).

Definition addTrivia (k : TriviaKind.t) (st : Lexer) : Lexer :=
  set_triviaBuffer
    (triviaBuffer st ++ [{| trivia_kind := k; trivia_text := lexeme st |}]) st.

Definition addError (d : DiagCode.t) (st : Lexer) : Lexer :=
  set_diagnostics (diagnostics st ++ [d]) st.

(** ** Loops *)

(** One pass through the body of a [while (true)] loop either goes round
    again or leaves the loop with a result. *)
Inductive Step (S R : Type) : Type :=
| Continue (s : S)
| Break (r : R).
Arguments Continue {S R} s.
Arguments Break {S R} r.

Fixpoint loop {S R : Type} (body : S -> Step S R) (fuel : nat) (s : S)
  : option R :=
  match fuel with
  | O => None
  | Datatypes.S f =>
      match body s with
      | Break r => Some r
      | Continue s' => loop body f s'
      end
  end.

(** The same for a body that itself runs bounded inner loops. *)
Fixpoint loopM {S R : Type} (body : S -> option (Step S R)) (fuel : nat)
  (s : S) : option R :=
  match fuel with
  | O => None
  | Datatypes.S f =>
      match body s with
      | None => None
      | Some (Break r) => Some r
      | Some (Continue s') => loopM body f s'
      end
  end.

Notation "x <- e ;; k" := (match e with Some x => k | None => None end)
  (at level 61, e at next level, right associativity).
Notation "' p <- e ;; k" :=
  (match e with Some p => k | None => None end)
  (at level 61, p pattern, e at next level, right associativity).

(** ** Constants of the numeric scanner *)

Definition MaxMantissaDigits : Z := 18.
Definition MaxExponent : Z := 511.
Definition INT32_MAX : Z := 2147483647.
Definition UINT32_MAX : Z := 4294967295.

Definition powersOf10 : list float :=
  [10.0; 100.0; 1.0e4; 1.0e8; 1.0e16; 1.0e32; 1.0e64; 1.0e128; 1.0e256]%float.

(** Conversion of a value to [int]: the low 32 bits, read as two's
    complement. *)
Definition toInt32 (v : Z) : Z := (v + 2 ^ 31) mod 2 ^ 32 - 2 ^ 31.

(** [double(value)] for an unsigned 64-bit value below 2^63, which every
    scanned mantissa is (at most eighteen digits are accumulated). *)
Definition toDouble (v : Z) : float := PrimFloat.of_uint63 (Uint63.of_Z v).

(** The [for] loop of [composeDouble]: [d] walks the table while [exp] is
    shifted right, until [exp] is 0. The loop has no other bound. After the
    clamp [exp] is at most 511 and the nine entries suffice, except when
    [exp] is negative, which the arithmetic shift never brings to 0: then [d]
    passes the last entry and the program reads beyond the table. That
    read has no defined result; it is [None]. *)
Fixpoint composeLoop (d : list float) (exp : Z) (dblExp : float)
  : option float :=
  if exp =? 0 then Some dblExp
  else
    match d with
    | [] => None
    | p :: d' =>
        composeLoop d' (Z.shiftr exp 1)
          (if Z.land exp 1 =? 0 then dblExp else PrimFloat.mul dblExp p)
    end.

(** [exp = -exp] is done in [int]: for the least [int] the result is the
    least [int] again, which is below 0 and is not clamped. *)
Definition composeDouble (fraction : float) (exp : Z)
  : option (bool * float) :=
  let neg := exp <? 0 in
  let exp := if neg then toInt32 (- exp) else exp in
  let exp := if exp >? MaxExponent then MaxExponent else exp in
  dblExp <- composeLoop powersOf10 exp 1.0%float ;;
  let result :=
    if neg then PrimFloat.div fraction dblExp
    else PrimFloat.mul fraction dblExp in
  Some (PrimFloat.is_finite result, result).

(** ** External collaborators *)

(** The directive table of SyntaxFacts.h and the UTF-8 length estimate of
    CharInfo.h are used by the lexer and defined elsewhere. *)
Class Externals : Type := {
  getDirectiveKind : string -> TriviaKind.t;
  utf8SeqBytes : ascii -> nat
}.

(** ** Identifiers *)

Definition scanIdentifier_body (st : Lexer) : Step Lexer Lexer :=
  let c := peek 0 st in
  if isAlphaNumeric c || Ascii.eqb c "_" || Ascii.eqb c "$"
  then Continue (advance 1 st)
  else Break st.

Definition scanIdentifier (fuel : nat) (st : Lexer) : option Lexer :=
  loop scanIdentifier_body fuel st.

(** ** String literals *)

Definition stringBuffer_append (c : ascii) (st : Lexer) : Lexer :=
  set_stringBuffer (stringBuffer st ++ [c]) st.

(** The octal branch of the escape switch; [c] is the first digit, already
    consumed. *)
Definition lexOctalEscape (c : ascii) (st : Lexer) : Lexer :=
  let charCode := getDigitValue c in
  let c1 := peek 0 st in
  if isOctalDigit c1 then
    let st := advance 1 st in
    let charCode := (charCode * 8 + getDigitValue c1) mod 2 ^ 32 in
    let c2 := peek 0 st in
    if isOctalDigit c2 then
      let st := advance 1 st in
      let charCode := (charCode * 8 + getDigitValue c2) mod 2 ^ 32 in
      if charCode >? 255 then addError DiagCode.OctalEscapeCodeTooBig st
      else stringBuffer_append (chr charCode) st
    else stringBuffer_append (chr charCode) st
  else stringBuffer_append (chr charCode) st.

(** The [x] branch of the escape switch. *)
Definition lexHexEscape (st : Lexer) : Lexer :=
  let c := peek 0 st in
  let st := advance 1 st in
  if negb (isHexDigit c) then
    stringBuffer_append c (addError DiagCode.InvalidHexEscapeCode st)
  else
    let charCode := getHexDigitValue c in
    let c1 := peek 0 st in
    if isHexDigit c1 then
      let st := advance 1 st in
      let charCode := (charCode * 16 + getHexDigitValue c1) mod 2 ^ 32 in
      stringBuffer_append (chr charCode) st
    else stringBuffer_append (chr charCode) st.

(** The switch on the escaped character [c]; backslash and [c] are already
    consumed. *)
Definition lexStringEscape (c : ascii) (st : Lexer) : Lexer :=
  match c with
  | "n" => stringBuffer_append "010" st
  | "t" => stringBuffer_append "009" st
  | "\" => stringBuffer_append "\" st
  | "034" => stringBuffer_append "034" st
  | "v" => stringBuffer_append "011" st
  | "f" => stringBuffer_append "012" st
  | "a" => stringBuffer_append "007" st
  | "010" => st
  | "013" => snd (consume "010" st)
  | "0" | "1" | "2" | "3" | "4" | "5" | "6" | "7" => lexOctalEscape c st
  | "x" => lexHexEscape st
  | _ => stringBuffer_append c (addError DiagCode.UnknownEscapeCode st)
  end.

Definition lexStringLiteral_body (st : Lexer) : Step Lexer Lexer :=
  let c := peek 0 st in
  if Ascii.eqb c "\" then
    let st := advance 1 st in
    let c := peek 0 st in
    let st := advance 1 st in
    Continue (lexStringEscape c st)
  else if Ascii.eqb c "034" then Break (advance 1 st)
  else if isNewline c then
    Break (addError DiagCode.NewlineInStringLiteral st)
  else if Ascii.eqb c NUL then
    if reallyAtEnd st then
      Break (addError DiagCode.UnterminatedStringLiteral st)
    else Continue (addError DiagCode.EmbeddedNull st)
  else Continue (stringBuffer_append c (advance 1 st)).

Definition lexStringLiteral (fuel : nat) (st : Lexer)
  : option (TokenData * Lexer) :=
  st <- loop lexStringLiteral_body fuel (set_stringBuffer [] st) ;;
  Some (StringLiteralInfo (lexeme st) (stringBuffer st), st).

(** ** Escaped identifiers, system identifiers, directives *)

Definition lexEscapeSequence_body (s : ascii * Lexer)
  : Step (ascii * Lexer) Lexer :=
  let '(c, st) := s in
  if isPrintable c then
    let st := advance 1 st in
    let c := peek 0 st in
    if isWhitespace c then Break st else Continue (c, st)
  else Break st.

Definition lexEscapeSequence (fuel : nat) (st : Lexer)
  : option (TokenKind.t * option TokenData * Lexer) :=
  let c := peek 0 st in
  if isWhitespace c || Ascii.eqb c NUL then
    let st := addError DiagCode.EscapedWhitespace st in
    Some (TokenKind.Unknown,
          Some (IdentifierInfo (lexeme st) IdentifierType.Unknown), st)
  else
    st <- loop lexEscapeSequence_body fuel (c, st) ;;
    Some (TokenKind.Identifier,
          Some (IdentifierInfo (lexeme st) IdentifierType.Escaped), st).

Definition lexDollarSign (fuel : nat) (st : Lexer)
  : option (TokenKind.t * option TokenData * Lexer) :=
  st <- scanIdentifier fuel st ;;
  if (lexemeLength st =? 1)%nat then Some (TokenKind.Dollar, None, st)
  else Some (TokenKind.SystemIdentifier,
             Some (IdentifierInfo (lexeme st) IdentifierType.System), st).

Definition lexDirective `{Externals} (fuel : nat) (st : Lexer)
  : option (TokenKind.t * option TokenData * Lexer) :=
  st <- scanIdentifier fuel st ;;
  if (lexemeLength st =? 1)%nat then
    let st := addError DiagCode.MisplacedDirectiveChar st in
    Some (TokenKind.Unknown,
          Some (IdentifierInfo (lexeme st) IdentifierType.Unknown), st)
  else
    let directive := lexeme st in
    let type := getDirectiveKind directive in
    let info := Some (DirectiveInfo directive type) in
    match type with
    | TriviaKind.MacroUsage => Some (TokenKind.MacroUsage, info, st)
    | TriviaKind.IncludeDirective =>
        Some (TokenKind.Directive, info, set_mode LexingMode.Include st)
    | _ => Some (TokenKind.Directive, info, set_mode LexingMode.Directive st)
    end.

(** ** Numeric literals *)

Definition findNextNonWhitespace_body (st : Lexer) (lookahead : nat)
  : Step nat nat :=
  if isHorizontalWhitespace (peek lookahead st)
  then Continue (Datatypes.S lookahead)
  else Break lookahead.

Definition findNextNonWhitespace (fuel : nat) (st : Lexer) : option nat :=
  loop (findNextNonWhitespace_body st) fuel 0%nat.

(** The loop state of [scanUnsignedNumber]: the current character, the two
    reference parameters and the lexer. *)
Record ScanNumber : Set := {
  sn_c : ascii;
  sn_unsignedVal : Z;     (* uint64_t *)
  sn_digits : Z;          (* int *)
  sn_lexer : Lexer
}.

Definition scanUnsignedNumber_body (s : ScanNumber)
  : Step ScanNumber ScanNumber :=
  let c := sn_c s in
  let st := sn_lexer s in
  if isDecimalDigit c then
    let unsignedVal :=
      if sn_digits s <? MaxMantissaDigits
      then (sn_unsignedVal s * 10 + getDigitValue c) mod 2 ^ 64
      else sn_unsignedVal s in
    let st := advance 1 st in
    Continue {| sn_c := peek 0 st; sn_unsignedVal := unsignedVal;
                sn_digits := sn_digits s + 1; sn_lexer := st |}
  else if negb (Ascii.eqb c "_") then Break s
  else
    let st := advance 1 st in
    Continue {| sn_c := peek 0 st; sn_unsignedVal := sn_unsignedVal s;
                sn_digits := sn_digits s; sn_lexer := st |}.

Definition scanUnsignedNumber (fuel : nat) (c : ascii) (unsignedVal digits : Z)
  (st : Lexer) : option ScanNumber :=
  loop scanUnsignedNumber_body fuel
    {| sn_c := c; sn_unsignedVal := unsignedVal; sn_digits := digits;
       sn_lexer := st |}.

(** [while ((c = peek()) == '0') advance();] *)
Definition skipZeros_body (st : Lexer) : Step Lexer Lexer :=
  if Ascii.eqb (peek 0 st) "0" then Continue (advance 1 st) else Break st.

Definition skipZeros (fuel : nat) (st : Lexer) : option Lexer :=
  loop skipZeros_body fuel st.

Definition lexRealLiteral (fuel : nat) (value decPoint digits : Z)
  (exponent : bool) (st : Lexer) : option (TokenData * Lexer) :=
  '(neg, expVal, st) <-
    (if exponent then
       let st := advance 1 st in
       st <- skipZeros fuel st ;;
       let c := peek 0 st in
       let '(neg, st) :=
         if Ascii.eqb c "+" then (false, advance 1 st)
         else if Ascii.eqb c "-" then (true, advance 1 st)
         else (false, st) in
       let c := peek 0 st in
       if negb (isDecimalDigit c) then
         Some (neg, 0, addError DiagCode.MissingExponentDigits st)
       else
         s <- scanUnsignedNumber fuel c 0 0 st ;;
         Some (neg, sn_unsignedVal s, sn_lexer s)
     else Some (false, 0, st)) ;;
  let fracExp := toInt32 (decPoint - Z.min digits MaxMantissaDigits) in
  let exp :=
    if (neg : bool) then toInt32 (fracExp - toInt32 expVal)
    else toInt32 (fracExp + toInt32 expVal) in
  '(finite, result) <- composeDouble (toDouble value) exp ;;
  let st := if (finite : bool) then st
            else addError DiagCode.RealExponentTooLarge st in
  Some (NumericReal (lexeme st) result, st).

(** The loop of [lexVectorDigits], shared by the four bases through the digit
    predicate and the digit value function. *)
Definition lexVectorDigits_body (IsDigitFunc : ascii -> bool)
  (ValueFunc : ascii -> Z) (st : Lexer) : Step Lexer (TokenData * Lexer) :=
  let c := peek 0 st in
  let add d := set_vectorBuilder (vb_addDigit d (vectorBuilder st)) st in
  match c with
  | "_" => Continue (advance 1 st)
  | "z" | "Z" | "?" => Continue (advance 1 (add logic_z))
  | "x" | "X" => Continue (advance 1 (add logic_x))
  | _ =>
      if IsDigitFunc c
      then Continue (advance 1 (add (logic_val (code (chr (ValueFunc c))))))
      else Break (NumericVector (lexeme st) (vectorBuilder st), st)
  end.

Definition lexVectorDigits (IsDigitFunc : ascii -> bool)
  (ValueFunc : ascii -> Z) (fuel : nat) (st : Lexer)
  : option (TokenData * Lexer) :=
  lookahead <- findNextNonWhitespace fuel st ;;
  let c := peek lookahead st in
  if negb (IsDigitFunc c) && negb (isLogicDigit c) then
    let st := addError DiagCode.MissingVectorDigits st in
    Some (NumericInt (lexeme st) 0, st)
  else
    loop (lexVectorDigits_body IsDigitFunc ValueFunc) fuel
      (advance lookahead st).

(** The four instantiations of the template. *)
Inductive VectorBase : Set := DecimalBase | OctalBase | HexBase | BinaryBase.

Definition baseOfChar (c : ascii) : option VectorBase :=
  match c with
  | "d" | "D" => Some DecimalBase
  | "o" | "O" => Some OctalBase
  | "h" | "H" => Some HexBase
  | "b" | "B" => Some BinaryBase
  | _ => None
  end.

Definition lexVectorDigitsIn (b : VectorBase)
  : nat -> Lexer -> option (TokenData * Lexer) :=
  match b with
  | DecimalBase => lexVectorDigits isDecimalDigit getDigitValue
  | OctalBase => lexVectorDigits isOctalDigit getDigitValue
  | HexBase => lexVectorDigits isHexDigit getHexDigitValue
  | BinaryBase => lexVectorDigits isBinaryDigit getDigitValue
  end.

Definition lexVectorLiteral (fuel : nat) (size64 : Z) (st : Lexer)
  : option (TokenData * Lexer) :=
  let '(size32, st) :=
    if size64 =? 0 then (0, addError DiagCode.IntegerSizeZero st)
    else
      let '(size64, st) :=
        if size64 >? UINT32_MAX
        then (UINT32_MAX, addError DiagCode.IntegerSizeTooLarge st)
        else (size64, st) in
      (size64 mod 2 ^ 32, st) in
  let c := peek 0 st in
  let '(isSigned, c, st) :=
    if Ascii.eqb c "s" || Ascii.eqb c "S"
    then let st := advance 1 st in (true, peek 0 st, st)
    else (false, c, st) in
  let st := set_vectorBuilder (vb_start size32 isSigned) st in
  match baseOfChar c with
  | Some b => lexVectorDigitsIn b fuel (advance 1 st)
  | None =>
      let st := addError DiagCode.MissingVectorBase st in
      Some (NumericInt (lexeme st) 0, st)
  end.

Definition lexUnsizedNumericLiteral (fuel : nat) (st : Lexer)
  : option (TokenData * Lexer) :=
  let st := set_vectorBuilder vb_startUnsized st in
  let c := peek 0 st in
  match baseOfChar c with
  | Some b => lexVectorDigitsIn b fuel (advance 1 st)
  | None =>
      match c with
      | "0" | "1" =>
          let st := advance 1 st in
          Some (NumericBit (lexeme st) (logic_val (getDigitValue c mod 256)),
                st)
      | "x" | "X" =>
          let st := advance 1 st in Some (NumericBit (lexeme st) logic_x, st)
      | "Z" | "z" =>
          let st := advance 1 st in Some (NumericBit (lexeme st) logic_z, st)
      | _ =>
          let st := addError DiagCode.InvalidUnsizedLiteral st in
          Some (NumericInt (lexeme st) 0, st)
      end
  end.

Definition lexNumericLiteral (fuel : nat) (st : Lexer)
  : option (TokenKind.t * option TokenData * Lexer) :=
  st <- skipZeros fuel st ;;
  let c := peek 0 st in
  s <- scanUnsignedNumber fuel c 0 0 st ;;
  let unsignedVal := sn_unsignedVal s in
  let digits := sn_digits s in
  let st := sn_lexer s in
  lookahead <- findNextNonWhitespace fuel st ;;
  if (0 <? lookahead)%nat && Ascii.eqb (peek lookahead st) "'" then
    '(info, st) <- lexVectorLiteral fuel unsignedVal
                     (advance (lookahead + 1) st) ;;
    Some (TokenKind.IntegerLiteral, Some info, st)
  else
    match peek 0 st with
    | "'" =>
        '(info, st) <- lexVectorLiteral fuel unsignedVal (advance 1 st) ;;
        Some (TokenKind.IntegerLiteral, Some info, st)
    | "." =>
        let decPoint := digits in
        let st := advance 1 st in
        let c := peek 0 st in
        let st := if negb (isDecimalDigit c)
                  then addError DiagCode.MissingFractionalDigits st
                  else st in
        s <- scanUnsignedNumber fuel (peek 0 st) unsignedVal digits st ;;
        let c := sn_c s in
        '(info, st) <- lexRealLiteral fuel (sn_unsignedVal s) decPoint
                         (sn_digits s)
                         (Ascii.eqb c "e" || Ascii.eqb c "E") (sn_lexer s) ;;
        Some (TokenKind.RealLiteral, Some info, st)
    | "e" | "E" =>
        '(info, st) <- lexRealLiteral fuel unsignedVal digits digits true st ;;
        Some (TokenKind.RealLiteral, Some info, st)
    | _ =>
        let '(unsignedVal, st) :=
          if unsignedVal >? INT32_MAX
          then (INT32_MAX, addError DiagCode.SignedLiteralTooLarge st)
          else (unsignedVal, st) in
        Some (TokenKind.IntegerLiteral,
              Some (NumericInt (lexeme st) (toInt32 unsignedVal)), st)
    end.

(** ** Trivia *)

Definition scanWhitespace_body (st : Lexer) : Step Lexer Lexer :=
  match peek 0 st with
  | " " | "009" | "011" | "012" => Continue (advance 1 st)
  | _ => Break st
  end.

Definition scanWhitespace (fuel : nat) (st : Lexer) : option Lexer :=
  st <- loop scanWhitespace_body fuel st ;;
  Some (addTrivia TriviaKind.Whitespace st).

Definition scanLineComment_body (st : Lexer) : Step Lexer Lexer :=
  let c := peek 0 st in
  if isNewline c then Break st
  else if Ascii.eqb c NUL then
    if reallyAtEnd st then Break st
    else Continue (advance 1 (addError DiagCode.EmbeddedNull st))
  else Continue (advance 1 st).

Definition scanLineComment (fuel : nat) (st : Lexer) : option Lexer :=
  st <- loop scanLineComment_body fuel st ;;
  Some (addTrivia TriviaKind.LineComment st).

(** The loop state of [scanBlockComment] is the [eod] flag and the lexer. *)
Definition scanBlockComment_body (s : bool * Lexer)
  : Step (bool * Lexer) (bool * Lexer) :=
  let '(eod, st) := s in
  let c := peek 0 st in
  if Ascii.eqb c NUL then
    if reallyAtEnd st then
      Break (eod, addError DiagCode.UnterminatedBlockComment st)
    else Continue (eod, addError DiagCode.EmbeddedNull st)
  else if Ascii.eqb c "*" && Ascii.eqb (peek 1 st) "/" then
    Break (eod, advance 2 st)
  else if Ascii.eqb c "/" && Ascii.eqb (peek 1 st) "*" then
    Continue (eod, addError DiagCode.NestedBlockComment (advance 2 st))
  else
    let st := advance 1 st in
    if negb (LexingMode.isNormal (mode st)) && isNewline c then
      Continue (true,
                set_mode LexingMode.Normal
                  (addError DiagCode.SplitBlockCommentInDirective st))
    else Continue (eod, st).

Definition scanBlockComment (fuel : nat) (st : Lexer)
  : option (bool * Lexer) :=
  '(eod, st) <- loop scanBlockComment_body fuel (false, st) ;;
  Some (eod, addTrivia TriviaKind.BlockComment st).

(** One pass through the loop of [lexTrivia]; the result of the loop is the
    returned flag, true when a newline ended a directive. *)
Definition lexTrivia_body (fuel : nat) (st : Lexer)
  : option (Step Lexer (bool * Lexer)) :=
  let st := mark st in
  match peek 0 st with
  | " " | "009" | "011" | "012" =>
      st <- scanWhitespace fuel (advance 1 st) ;;
      Some (Continue st)
  | "/" =>
      match peek 1 st with
      | "/" =>
          st <- scanLineComment fuel (advance 2 st) ;;
          Some (Continue st)
      | "*" =>
          '(eod, st) <- scanBlockComment fuel (advance 2 st) ;;
          if (eod : bool) then Some (Break (true, st))
          else Some (Continue st)
      | _ => Some (Break (false, st))
      end
  | "013" =>
      let st := advance 1 st in
      let st := snd (consume "010" st) in
      let st := addTrivia TriviaKind.EndOfLine st in
      if negb (LexingMode.isNormal (mode st)) then Some (Break (true, st))
      else Some (Continue st)
  | "010" =>
      let st := advance 1 st in
      let st := addTrivia TriviaKind.EndOfLine st in
      if negb (LexingMode.isNormal (mode st)) then Some (Break (true, st))
      else Some (Continue st)
  | "\" =>
      if LexingMode.isNormal (mode st) || negb (isNewline (peek 0 st))
      then Some (Break (false, st))
      else Some (Continue (advance 1 st))
  | _ => Some (Break (false, st))
  end.

Definition lexTrivia (fuel : nat) (st : Lexer) : option (bool * Lexer) :=
  loopM (lexTrivia_body fuel) fuel st.

(** ** Token dispatch *)

Section Dispatch.
Context `{Externals}.

(** A token without a payload. *)
Definition plain (k : TokenKind.t) (st : Lexer)
  : option (TokenKind.t * option TokenData * Lexer) :=
  Some (k, None, st).

Definition unknownToken (st : Lexer)
  : option (TokenKind.t * option TokenData * Lexer) :=
  Some (TokenKind.Unknown,
        Some (IdentifierInfo (lexeme st) IdentifierType.Unknown), st).

Definition lexToken (fuel : nat) (st : Lexer)
  : option (TokenKind.t * option TokenData * Lexer) :=
  let c := peek 0 st in
  let st := advance 1 st in
  match c with
  | "000" =>
      if (sourceBuffer st <=? sourceEnd st)%nat
      then unknownToken (addError DiagCode.EmbeddedNull st)
      else plain TokenKind.EndOfFile st
  | "!" =>
      let '(b, st) := consume "=" st in
      if b then
        match peek 0 st with
        | "=" => plain TokenKind.ExclamationDoubleEquals (advance 1 st)
        | "?" => plain TokenKind.ExclamationEqualsQuestion (advance 1 st)
        | _ => plain TokenKind.ExclamationEquals st
        end
      else plain TokenKind.Exclamation st
  | "034" =>
      '(info, st) <- lexStringLiteral fuel st ;;
      Some (TokenKind.StringLiteral, Some info, st)
  | "#" =>
      match peek 0 st with
      | "#" => plain TokenKind.DoubleHash (advance 1 st)
      | "-" =>
          if Ascii.eqb (peek 1 st) "#"
          then plain TokenKind.HashMinusHash (advance 2 st)
          else plain TokenKind.Hash st
      | "=" =>
          if Ascii.eqb (peek 1 st) "#"
          then plain TokenKind.HashEqualsHash (advance 2 st)
          else plain TokenKind.Hash st
      | _ => plain TokenKind.Hash st
      end
  | "$" => lexDollarSign fuel st
  | "%" =>
      let '(b, st) := consume "=" st in
      if b then plain TokenKind.PercentEqual st
      else plain TokenKind.Percent st
  | "&" =>
      match peek 0 st with
      | "&" =>
          let '(b, st) := consume "&" (advance 1 st) in
          if b then plain TokenKind.TripleAnd st
          else plain TokenKind.DoubleAnd st
      | "=" => plain TokenKind.AndEqual (advance 1 st)
      | _ => plain TokenKind.And st
      end
  | "'" =>
      let '(b, st) := consume "{" st in
      if b then plain TokenKind.ApostropheOpenBrace st
      else
        '(info, st) <- lexUnsizedNumericLiteral fuel st ;;
        Some (TokenKind.IntegerLiteral, Some info, st)
  | "(" =>
      let '(b, st) := consume "*" st in
      if b then plain TokenKind.OpenParenthesisStar st
      else plain TokenKind.OpenParenthesis st
  | ")" => plain TokenKind.CloseParenthesis st
  | "*" =>
      match peek 0 st with
      | "*" => plain TokenKind.DoubleStar (advance 1 st)
      | "=" => plain TokenKind.StarEqual (advance 1 st)
      | ">" => plain TokenKind.StarArrow (advance 1 st)
      | ")" => plain TokenKind.StarCloseParenthesis (advance 1 st)
      | ":" =>
          if Ascii.eqb (peek 1 st) ":" && Ascii.eqb (peek 2 st) "*"
          then plain TokenKind.StarDoubleColonStar (advance 3 st)
          else plain TokenKind.Star st
      | _ => plain TokenKind.Star st
      end
  | "+" =>
      match peek 0 st with
      | "+" => plain TokenKind.DoublePlus (advance 1 st)
      | "=" => plain TokenKind.PlusEqual (advance 1 st)
      | ":" => plain TokenKind.PlusColon (advance 1 st)
      | _ => plain TokenKind.Plus st
      end
  | "," => plain TokenKind.Comma st
  | "-" =>
      match peek 0 st with
      | "-" => plain TokenKind.DoubleMinus (advance 1 st)
      | "=" => plain TokenKind.MinusEqual (advance 1 st)
      | ":" => plain TokenKind.MinusColon (advance 1 st)
      | ">" =>
          let '(b, st) := consume ">" (advance 1 st) in
          if b then plain TokenKind.MinusDoubleArrow st
          else plain TokenKind.MinusArrow st
      | _ => plain TokenKind.Minus st
      end
  | "." =>
      let '(b, st) := consume "*" st in
      if b then plain TokenKind.DotStar st else plain TokenKind.Dot st
  | "/" =>
      let '(b, st) := consume "=" st in
      if b then plain TokenKind.SlashEqual st else plain TokenKind.Slash st
  | "0" | "1" | "2" | "3" | "4" | "5" | "6" | "7" | "8" | "9" =>
      (* back up so that lexNumericLiteral can look at this digit again *)
      lexNumericLiteral fuel (set_sourceBuffer (sourceBuffer st - 1)%nat st)
  | ":" =>
      match peek 0 st with
      | "=" => plain TokenKind.ColonEquals (advance 1 st)
      | "/" => plain TokenKind.ColonSlash (advance 1 st)
      | ":" => plain TokenKind.DoubleColon (advance 1 st)
      | _ => plain TokenKind.Colon st
      end
  | ";" => plain TokenKind.Semicolon st
  | "<" =>
      match peek 0 st with
      | "=" => plain TokenKind.LessThanEquals (advance 1 st)
      | "-" =>
          if Ascii.eqb (peek 1 st) ">"
          then plain TokenKind.LessThanMinusArrow (advance 2 st)
          else plain TokenKind.LessThan st
      | "<" =>
          let st := advance 1 st in
          match peek 0 st with
          | "<" =>
              if Ascii.eqb (peek 1 st) "="
              then plain TokenKind.TripleLeftShiftEqual (advance 2 st)
              else plain TokenKind.TripleLeftShift (advance 1 st)
          | "=" => plain TokenKind.LeftShiftEqual (advance 1 st)
          | _ => plain TokenKind.LeftShift st
          end
      | _ => plain TokenKind.LessThan st
      end
  | "=" =>
      match peek 0 st with
      | "=" =>
          let st := advance 1 st in
          match peek 0 st with
          | "=" => plain TokenKind.TripleEquals (advance 1 st)
          | "?" => plain TokenKind.DoubleEqualsQuestion (advance 1 st)
          | _ => plain TokenKind.DoubleEquals st
          end
      | ">" => plain TokenKind.EqualsArrow (advance 1 st)
      | _ => plain TokenKind.Equals st
      end
  | ">" =>
      match peek 0 st with
      | "=" => plain TokenKind.GreaterThanEquals (advance 1 st)
      | ">" =>
          let st := advance 1 st in
          match peek 0 st with
          | ">" =>
              if Ascii.eqb (peek 1 st) "="
              then plain TokenKind.TripleRightShiftEqual (advance 2 st)
              else plain TokenKind.TripleRightShift (advance 1 st)
          | "=" => plain TokenKind.RightShiftEqual (advance 1 st)
          | _ => plain TokenKind.RightShift st
          end
      | _ => plain TokenKind.GreaterThan st
      end
  | "?" => plain TokenKind.Question st
  | "@" =>
      let '(b, st) := consume "@" st in
      if b then plain TokenKind.DoubleAt st else plain TokenKind.At st
  | "A" | "B" | "C" | "D" | "E" | "F" | "G" | "H" | "I" | "J" | "L" | "K"
  | "M" | "N" | "O" | "P" | "Q" | "R" | "S" | "T" | "U" | "V" | "W" | "X"
  | "Y" | "Z"
  | "a" | "b" | "c" | "d" | "e" | "f" | "g" | "h" | "i" | "j" | "k" | "l"
  | "m" | "n" | "o" | "p" | "q" | "r" | "s" | "t" | "u" | "v" | "w" | "x"
  | "y" | "z" | "_" =>
      st <- scanIdentifier fuel st ;;
      Some (TokenKind.Identifier,
            Some (IdentifierInfo (lexeme st) IdentifierType.Normal), st)
  | "[" => plain TokenKind.OpenBracket st
  | "\" => lexEscapeSequence fuel st
  | "]" => plain TokenKind.CloseBracket st
  | "^" =>
      match peek 0 st with
      | "~" => plain TokenKind.XorTilde (advance 1 st)
      | "=" => plain TokenKind.XorEqual (advance 1 st)
      | _ => plain TokenKind.Xor st
      end
  | "`" =>
      match peek 0 st with
      | "034" => plain TokenKind.MacroQuote (advance 1 st)
      | "`" => plain TokenKind.MacroPaste (advance 1 st)
      | "\" =>
          if Ascii.eqb (peek 1 st) "`" && Ascii.eqb (peek 2 st) "034"
          then plain TokenKind.MacroEscapedQuote (advance 3 st)
          else lexDirective fuel st
      | _ => lexDirective fuel st
      end
  | "{" => plain TokenKind.OpenBrace st
  | "|" =>
      match peek 0 st with
      | "|" => plain TokenKind.DoubleOr (advance 1 st)
      | "-" =>
          if Ascii.eqb (peek 1 st) ">"
          then plain TokenKind.OrMinusArrow (advance 2 st)
          else plain TokenKind.Or st
      | "=" =>
          if Ascii.eqb (peek 1 st) ">"
          then plain TokenKind.OrEqualsArrow (advance 2 st)
          else plain TokenKind.OrEqual (advance 1 st)
      | _ => plain TokenKind.Or st
      end
  | "}" => plain TokenKind.CloseBrace st
  | "~" =>
      match peek 0 st with
      | "&" => plain TokenKind.TildeAnd (advance 1 st)
      | "|" => plain TokenKind.TildeOr (advance 1 st)
      | "^" => plain TokenKind.TildeXor (advance 1 st)
      | _ => plain TokenKind.Tilde st
      end
  | _ =>
      let st :=
        if isASCII c then addError DiagCode.NonPrintableChar st
        else addError DiagCode.UTF8Char (advance (utf8SeqBytes c) st) in
      unknownToken st
  end.

(** ** The public operation *)

(** What a call of [lex] comes to: a token and the next state, a failed
    [ASSERT], or no result: no return within the fuel, or a real literal
    for which [composeDouble] walks off its table. *)
Inductive Outcome : Type :=
| Returned (t : Token) (st : Lexer)
| AssertionFailed
| OutOfFuel.

Definition lex (fuel : nat) (st : Lexer) : Outcome :=
  if reallyAtEnd st then AssertionFailed
  else
    let st := set_triviaBuffer [] st in
    match lexTrivia fuel st with
    | None => OutOfFuel
    | Some (_, st) =>
        let st := mark st in
        match lexToken fuel st with
        | None => OutOfFuel
        | Some (k, d, st) =>
            Returned {| kind := k; data := d; trivia := triviaBuffer st |} st
        end
    end.

(** Pulling up to [n] tokens, stopping at the first call that does not
    return; the final state comes with the tokens. *)
Fixpoint lexMany (fuel n : nat) (st : Lexer) : list Token * Lexer :=
  match n with
  | O => ([], st)
  | Datatypes.S n' =>
      match lex fuel st with
      | Returned t st' =>
          let '(ts, st'') := lexMany fuel n' st' in (t :: ts, st'')
      | _ => ([], st)
      end
  end.

End Dispatch.

(** ** Construction *)

(** Modelled from the spec: StringRef.h is not among the sources. The buffer
    is the text followed by the terminating NUL; [length] is what
    [source.length()] reports, so that the end pointer is [length] bytes
    after the start. *)
Definition Lexer_new (text : string) (length : nat) : Lexer :=
  let st :=
    {| source := text ++ String NUL EmptyString; sourceEnd := length;
       sourceBuffer := 0; marker := 0; mode := LexingMode.Normal;
       diagnostics := []; triviaBuffer := []; stringBuffer := [];
       vectorBuilder := vb_empty |} in
  if (2 <=? length)%nat then
    let u0 := code (peek 0 st) in
    let u1 := code (peek 1 st) in
    let u2 := code (peek 2 st) in
    if ((u0 =? 255) && (u1 =? 254)) || ((u0 =? 254) && (u1 =? 255)) then
      advance 2 (addError DiagCode.UnicodeBOM st)
    else if (3 <=? length)%nat then
      if (u0 =? 239) && (u1 =? 187) && (u2 =? 191)
      then advance 3 (addError DiagCode.UnicodeBOM st)
      else st
    else st
  else st.

(** Whether the length of the source counts the terminating NUL is decided in
    StringRef.h; both conventions are kept. *)
Inductive EndConvention : Set := EndAtNul | EndPastNul.

Definition lexerOn (conv : EndConvention) (text : string) : Lexer :=
  Lexer_new text
    (match conv with
     | EndAtNul => String.length text
     | EndPastNul => Datatypes.S (String.length text)
     end).

(** ** Vocabulary of the properties *)

(** The bytes at the cursor spell [s], starting [k] bytes ahead. *)
Fixpoint lookingAt (s : string) (k : nat) (st : Lexer) : bool :=
  match s with
  | EmptyString => true
  | String c s' => Ascii.eqb (peek k st) c && lookingAt s' (Datatypes.S k) st
  end.

(** The value of a decimal literal as a reader parses it: the digits in
    order, underscores ignored. *)
Definition parsedDecimal (s : string) : Z :=
  fold_left
    (fun acc c => if isDecimalDigit c then acc * 10 + (code c - 48) else acc)
    (list_ascii_of_string s) 0.

(** The value of the octal digits [ds], most significant first. *)
Definition octalValue (ds : list ascii) : Z :=
  fold_left (fun acc c => acc * 8 + (code c - 48)) ds 0.

(** The value of the hexadecimal digits [ds], most significant first. *)
Definition hexValue (ds : list ascii) : Z :=
  fold_left (fun acc c => acc * 16 + getHexDigitValue c) ds 0.

(** The two kinds that end a token stream or a directive. *)
Definition endKind (k : TokenKind.t) : bool :=
  match k with
  | TokenKind.EndOfFile | TokenKind.EndOfDirective => true
  | _ => false
  end.

(** The diagnostics added between two states. *)
Definition diagnosedSince (st st' : Lexer) : list DiagCode.t :=
  skipn (List.length (diagnostics st)) (diagnostics st').

Definition diagnosed (d : DiagCode.t) (l : list DiagCode.t) : bool :=
  if in_dec DiagCode.eq_dec d l then true else false.

(** Bytes that have no printable spelling in a string. *)
Definition LF : string := String "010" EmptyString.
Definition QUOTE : string := String "034" EmptyString.
Definition BACKSLASH : string := String "092" EmptyString.
Definition NULCHAR : string := String "000" EmptyString.

(** A directive table for the examples: [`include], [`define] and a few other
    directives are known, every other name is a macro usage. *)
Definition exampleDirectiveKind (s : string) : TriviaKind.t :=
  if String.eqb s "`include" then TriviaKind.IncludeDirective
  else if String.eqb s "`define" || String.eqb s "`ifdef"
          || String.eqb s "`endif" || String.eqb s "`timescale"
       then TriviaKind.OtherDirective
       else TriviaKind.MacroUsage.

Definition exampleExternals : Externals :=
  {| getDirectiveKind := exampleDirectiveKind;
     utf8SeqBytes := fun _ => 0%nat |}.

(** The whole of [text] is lexed as one token of kind [k] without payload,
    trivia or diagnostics, under either reading of the end pointer. *)
Definition lexesAsSingle `{Externals} (text : string) (k : TokenKind.t)
  : Prop :=
  forall conv fuel, exists st',
    lex (Datatypes.S fuel) (lexerOn conv text)
    = Returned {| kind := k; data := None; trivia := [] |} st' /\
    marker st' = 0%nat /\ sourceBuffer st' = String.length text /\
    diagnostics st' = [].

(** [text] is lexed as one token of kind [k] with payload [d] whose lexeme is
    the whole text, leaving the diagnostics [diags], under either reading of
    the end pointer and with any fuel above the length of the text. *)
Definition lexesTo `{Externals} (text : string) (k : TokenKind.t)
  (d : option TokenData) (diags : list DiagCode.t) : Prop :=
  forall conv fuel, exists st',
    lex (Datatypes.S (String.length text) + fuel) (lexerOn conv text)
    = Returned {| kind := k; data := d; trivia := [] |} st' /\
    diagnostics st' = diags /\ lexeme st' = text.

(** The escapes that stand for one fixed byte: the letter after the backslash
    and the byte it decodes to. *)
Definition simpleEscapes : list (ascii * ascii) :=
  [("n", "010"); ("t", "009"); ("\", "\"); ("034", "034"); ("v", "011");
   ("f", "012"); ("a", "007")].

(** With the cursor on a backslash: the run of at most three octal digits
    after it, and the run of at most two hex digits after [\x]. *)
Definition octalDigitsAt (st : Lexer) : list ascii :=
  if isOctalDigit (peek 1 st) then
    peek 1 st ::
      (if isOctalDigit (peek 2 st) then
         peek 2 st :: (if isOctalDigit (peek 3 st) then [peek 3 st] else [])
       else [])
  else [].

Definition hexDigitsAt (st : Lexer) : list ascii :=
  if isHexDigit (peek 2 st) then
    peek 2 st :: (if isHexDigit (peek 3 st) then [peek 3 st] else [])
  else [].

(** An escaped character that is neither a simple escape, nor an octal digit,
    nor [x]. *)
Definition otherEscape (c : ascii) : bool :=
  negb (existsb (fun p => Ascii.eqb (fst p) c) simpleEscapes)
  && negb (isOctalDigit c) && negb (Ascii.eqb c "x").

(** A string literal whose only content is a backslash and a line feed, with
    the cursor after the opening quote. *)
Definition lineContinuationState : Lexer :=
  advance 1 (lexerOn EndPastNul (QUOTE ++ BACKSLASH ++ LF ++ QUOTE)).

(** Inputs of the directive scenarios: a directive ended by a newline, the
    same with a backslash before the newline, and a directive with a block
    comment split over two lines. *)
Definition scenarioDirective : string := "`define X 1" ++ LF ++ "+ 2".
Definition scenarioEscapedNewline : string :=
  "`define X 1" ++ BACKSLASH ++ LF ++ "+ 2".
Definition scenarioSplitComment : string := "`define X /*" ++ LF ++ "*/1".

(** The kinds of the first [n] tokens of [text], with the mode and the
    diagnostics the lexer is left with. *)
Definition lexKinds `{Externals} (n : nat) (conv : EndConvention)
  (text : string) : list TokenKind.t * LexingMode.t * list DiagCode.t :=
  let r := lexMany (String.length text) n (lexerOn conv text) in
  (map kind (fst r), mode (snd r), diagnostics (snd r)).

(** Two decimal literals whose first eighteen digits after the underscore
    are zeros. *)
Definition zeroPaddedLarge : string := "0_0000000000000000009999999999".
Definition zeroPaddedOne : string := "0_0000000000000000001".

(** A real literal whose exponent is 2^32. *)
Definition wrappedExponent : string := "1e4294967296".

(** The radix of a base, the digit predicate and the digit value function
    its instantiation of the template uses, and the letters that select it. *)
Definition radix (b : VectorBase) : Z :=
  match b with
  | DecimalBase => 10 | OctalBase => 8 | HexBase => 16 | BinaryBase => 2
  end.

Definition digitBelow (r : Z) (d : logic_t) : Prop :=
  match d with
  | logic_val v => 0 <= v < r
  | _ => True
  end.

Definition basePredicate (b : VectorBase) : ascii -> bool :=
  match b with
  | DecimalBase => isDecimalDigit | OctalBase => isOctalDigit
  | HexBase => isHexDigit | BinaryBase => isBinaryDigit
  end.

Definition baseValue (b : VectorBase) : ascii -> Z :=
  match b with
  | HexBase => getHexDigitValue
  | _ => getDigitValue
  end.

Definition sizeDiagnostics (size64 : Z) : list DiagCode.t :=
  if size64 =? 0 then [DiagCode.IntegerSizeZero]
  else if size64 >? UINT32_MAX then [DiagCode.IntegerSizeTooLarge]
  else [].

Definition baseLetters : list (ascii * VectorBase) :=
  [("d", DecimalBase); ("D", DecimalBase); ("o", OctalBase); ("O", OctalBase);
   ("h", HexBase); ("H", HexBase); ("b", BinaryBase); ("B", BinaryBase)].

(** What the digit loop keeps: everything but the cursor and the digits,
    which stay below the radix. *)
Definition digitsKept (r : Z) (s0 s : Lexer) : Prop :=
  source s = source s0 /\ diagnostics s = diagnostics s0 /\
  lv_size (vectorBuilder s) = lv_size (vectorBuilder s0) /\
  lv_signed (vectorBuilder s) = lv_signed (vectorBuilder s0) /\
  Forall (digitBelow r) (lv_digits (vectorBuilder s)).

(** The cursor of [s'] is not behind the cursor of [s]. *)
Definition notBehind (s s' : Lexer) : Prop :=
  (sourceBuffer s <= sourceBuffer s')%nat.

(** ** Vocabulary of the frame, coverage and termination properties *)

(** What no scanner touches: the buffer and its end pointer stay, and the
    diagnostics only grow at the end. *)
Definition extends (s s' : Lexer) : Prop :=
  source s' = source s /\ sourceEnd s' = sourceEnd s /\
  exists new, diagnostics s' = diagnostics s ++ new.

(** What the scanners of a token keep besides: the mark, the trivia
    collected before the token, and the mode. *)
Definition keepsMark (s s' : Lexer) : Prop :=
  marker s' = marker s /\ triviaBuffer s' = triviaBuffer s /\
  mode s' = mode s.

(** Both relations at once, for the scanners of a token. *)
Definition tokenFrame (s s' : Lexer) : Prop := extends s s' /\ keepsMark s s'.

(** What the dispatch keeps: as the scanners, but a Directive token leaves
    the lexer in Directive or Include mode. *)
Definition tokenStep (k : TokenKind.t) (s s' : Lexer) : Prop :=
  extends s s' /\ marker s' = marker s /\ triviaBuffer s' = triviaBuffer s /\
  match k with
  | TokenKind.Directive =>
      mode s' = LexingMode.Directive \/ mode s' = LexingMode.Include
  | _ => mode s' = mode s
  end.

(** The accumulated value of [scanUnsignedNumber]: with [n] digits seen it is
    below the [n]-th power of ten, up to the eighteenth, so that the reduction
    modulo 2^64 never takes effect. *)
Definition mantissa (v n : Z) : Prop :=
  0 <= n /\ 0 <= v < 10 ^ Z.min n MaxMantissaDigits.

(** The payload of an integer literal: an int that fits the signed 32-bit
    range, a vector or a single bit, with the lexeme of [s] as raw text. *)
Definition integerPayload (i : TokenData) (s : Lexer) : Prop :=
  match i with
  | NumericInt r v => r = lexeme s /\ 0 <= v <= INT32_MAX
  | NumericVector r _ | NumericBit r _ => r = lexeme s
  | _ => False
  end.

(** The bytes [scanIdentifier] takes. *)
Definition identifierChar (c : ascii) : bool :=
  isAlphaNumeric c || Ascii.eqb c "_" || Ascii.eqb c "$".

(** A token as a parser may rely on it: the payload has the type that goes
    with the kind, its raw text is the lexeme, a name is as long as it can
    be (the byte after it cannot continue it), and a directive payload
    carries the kind the directive table gives for that lexeme. *)
Definition wellFormedToken `{Externals} (k : TokenKind.t)
  (d : option TokenData) (s : Lexer) : Prop :=
  match d with
  | None =>
      match k with
      | TokenKind.Unknown | TokenKind.Identifier | TokenKind.SystemIdentifier
      | TokenKind.StringLiteral | TokenKind.IntegerLiteral
      | TokenKind.RealLiteral | TokenKind.Directive | TokenKind.MacroUsage
      | TokenKind.EndOfDirective => False
      | _ => True
      end
  | Some (IdentifierInfo r ty) =>
      r = lexeme s /\
      k = match ty with
          | IdentifierType.Unknown => TokenKind.Unknown
          | IdentifierType.System => TokenKind.SystemIdentifier
          | _ => TokenKind.Identifier
          end /\
      match ty with
      | IdentifierType.Unknown => True
      | IdentifierType.Escaped => isPrintable (peek 0 s) = false
      | _ => identifierChar (peek 0 s) = false
      end
  | Some (DirectiveInfo r kind) =>
      r = lexeme s /\ kind = getDirectiveKind r /\
      identifierChar (peek 0 s) = false /\
      k = match kind with
          | TriviaKind.MacroUsage => TokenKind.MacroUsage
          | _ => TokenKind.Directive
          end /\
      match kind with
      | TriviaKind.MacroUsage => True
      | TriviaKind.IncludeDirective => mode s = LexingMode.Include
      | _ => mode s = LexingMode.Directive
      end
  | Some (StringLiteralInfo r n) =>
      r = lexeme s /\ n = stringBuffer s /\ k = TokenKind.StringLiteral
  | Some (NumericReal r _) => r = lexeme s /\ k = TokenKind.RealLiteral
  | Some i => integerPayload i s /\ k = TokenKind.IntegerLiteral
  end.

(** What the trivia scanners keep: the buffer, the diagnostics already
    recorded, and the mode unless they put it back to Normal. *)
Definition triviaStep (s s' : Lexer) : Prop :=
  extends s s' /\ (mode s' = mode s \/ mode s' = LexingMode.Normal).

(** The cursor is on a byte that starts no trivia: neither whitespace nor a
    newline nor the opening of a comment. *)
Definition atToken (s : Lexer) : Prop :=
  isWhitespace (peek 0 s) = false /\
  (peek 0 s = "/" -> peek 1 s <> "/" /\ peek 1 s <> "*") /\
  marker s = sourceBuffer s.

(** The raw texts of a list of trivia, one after the other. *)
Definition triviaText (ts : list Trivia) : string :=
  fold_right (fun t acc => (trivia_text t ++ acc)%string) EmptyString ts.

(** The trivia collected so far are exactly the bytes from [start] to the
    cursor. *)
Definition covered (start : nat) (s : Lexer) : Prop :=
  (start <= sourceBuffer s)%nat /\
  triviaText (triviaBuffer s)
  = String.substring start (sourceBuffer s - start) (source s).

(** What a loop inside a trivia scanner keeps. *)
Definition sameMark (s s' : Lexer) : Prop :=
  source s' = source s /\ marker s' = marker s /\
  triviaBuffer s' = triviaBuffer s.

(** What a trivia scanner has done when it returns: one more trivia, whose
    text is the lexeme. *)
Definition triviaAdded (k : TriviaKind.t) (s s' : Lexer) : Prop :=
  source s' = source s /\ marker s' = marker s /\
  triviaBuffer s'
  = triviaBuffer s ++ [{| trivia_kind := k; trivia_text := lexeme s' |}].

(** The first [n] bytes of [s] exist and none of them is NUL. *)
Fixpoint nulFree (n : nat) (s : string) : bool :=
  match n with
  | O => true
  | Datatypes.S n' =>
      match s with
      | EmptyString => false
      | String c s' => negb (Ascii.eqb c NUL) && nulFree n' s'
      end
  end.

(** No NUL byte lies before the end pointer: the only NUL the scanners can
    meet is the one that terminates the buffer. *)
Definition cleanBuffer (st : Lexer) : Prop :=
  nulFree (sourceEnd st) (source st) = true.

(** A clean buffer and fuel for more passes than the buffer has bytes. *)
Definition ready (fuel : nat) (st : Lexer) : Prop :=
  cleanBuffer st /\ (String.length (source st) < fuel)%nat.

(** The text is made of decimal digits and underscores. *)
Fixpoint numberChars (s : string) : bool :=
  match s with
  | EmptyString => true
  | String c s' =>
      (isDecimalDigit c || Ascii.eqb c "_") && numberChars s'
  end.

(** How many decimal digits the text has. *)
Fixpoint digitCount (s : string) : Z :=
  match s with
  | EmptyString => 0
  | String c s' => (if isDecimalDigit c then 1 else 0) + digitCount s'
  end.

(** The text has none of the bytes the string scanner treats specially:
    backslash, double quote, newline, NUL. *)
Fixpoint plainChars (s : string) : bool :=
  match s with
  | EmptyString => true
  | String c s' =>
      negb (Ascii.eqb c "\") && negb (Ascii.eqb c "034")
      && negb (isNewline c) && negb (Ascii.eqb c NUL) && plainChars s'
  end.

(** The text has no NUL byte. *)
Fixpoint textFree (s : string) : bool :=
  match s with
  | EmptyString => true
  | String c s' => negb (Ascii.eqb c NUL) && textFree s'
  end.

(** At least one diagnostic has been added between [s] and [s']. *)
Definition diagnosedMore (s s' : Lexer) : Prop :=
  (List.length (diagnostics s) < List.length (diagnostics s'))%nat.

(** The text is made of the digit zero only. *)
Fixpoint allZeros (s : string) : bool :=
  match s with
  | EmptyString => true
  | String c s' => Ascii.eqb c "0" && allZeros s'
  end.


(** The byte [k] places behind the cursor. *)
Definition behind (k : nat) (st : Lexer) : ascii :=
  peek 0 (set_sourceBuffer (sourceBuffer st - k) st).

(** ** Vocabulary of the termination, value and vector properties *)

(** A byte a decimal number is made of: a digit or an underscore. *)
Definition numberChar (c : ascii) : bool :=
  isDecimalDigit c || Ascii.eqb c "_".

(** The text starts with at most [k] number bytes in a row and has no run of
    more than nine of them after that. *)
Fixpoint shortRuns (k : nat) (s : string) : bool :=
  match s with
  | EmptyString => true
  | String c s' =>
      if numberChar c
      then match k with
           | O => false
           | Datatypes.S k' => shortRuns k' s'
           end
      else shortRuns 9 s'
  end.

(** The buffer has no run of ten or more digits and underscores: no number
    in it has more than nine digits, so that no exponent and no count of
    digits comes near the limits of [int]. *)
Definition shortDigitRuns (st : Lexer) : Prop :=
  shortRuns 9 (source st) = true.

(** No escape of a string literal can take the terminating NUL for its
    character: the byte before the end pointer is not a backslash, and the
    two bytes before it are not a backslash and an x. *)
Definition escapeSafe (st : Lexer) : Prop :=
  let last := set_sourceBuffer (sourceEnd st) st in
  behind 1 last <> "\" /\
  ~ (behind 2 last = "\" /\ behind 1 last = "x").

(** Every sequence that starts with a byte outside ASCII ends before the end
    pointer. *)
Definition utf8Fits `{Externals} (st : Lexer) : Prop :=
  forall i, (i < sourceEnd st)%nat ->
    let c := peek 0 (set_sourceBuffer i st) in
    isASCII c = false -> (i + 1 + utf8SeqBytes c <= sourceEnd st)%nat.

(** The end pointer is on a NUL of the buffer, the terminator the lexer
    looks for. *)
Definition terminated (st : Lexer) : Prop :=
  String.get (sourceEnd st) (source st) = Some NUL.

(** Ready, and without long runs of digits. *)
Definition steady (fuel : nat) (st : Lexer) : Prop :=
  ready fuel st /\ shortDigitRuns st.

(** The buffers on which every read of the lexer stays inside the buffer and
    every number stays inside [int]: no NUL before the end pointer and a NUL
    at it, no run of ten digits, no escape and no byte sequence cut by the
    end. *)
Definition tame `{Externals} (st : Lexer) : Prop :=
  cleanBuffer st /\ terminated st /\ shortDigitRuns st /\ escapeSafe st /\
  utf8Fits st.

(** The text has no newline and no NUL. *)
Fixpoint lineChars (s : string) : bool :=
  match s with
  | EmptyString => true
  | String c s' =>
      negb (isNewline c) && negb (Ascii.eqb c NUL) && lineChars s'
  end.

(** The three byte-order marks the constructor looks for. *)
Definition BOM_UTF16_LE : string := String "255" (String "254" EmptyString).
Definition BOM_UTF16_BE : string := String "254" (String "255" EmptyString).
Definition BOM_UTF8 : string :=
  String "239" (String "187" (String "191" EmptyString)).

(** How many bytes of mark a text of the reported length starts with: two
    for either UTF-16 mark, three for the UTF-8 mark, within the length. *)
Definition markLength (text : string) (length : nat) : nat :=
  if (2 <=? length)%nat
     && (String.prefix BOM_UTF16_LE text || String.prefix BOM_UTF16_BE text)
  then 2
  else if (3 <=? length)%nat && String.prefix BOM_UTF8 text then 3
  else 0.

(** All bytes of the text are ASCII. *)
Fixpoint asciiText (s : string) : bool :=
  match s with
  | EmptyString => true
  | String c s' => isASCII c && asciiText s'
  end.

(** The text does not end in a backslash, nor in a backslash and an x. *)
Definition endsSafely (text : string) : bool :=
  let byte i :=
    match String.get i (text ++ String NUL EmptyString) with
    | Some c => c
    | None => NUL
    end in
  let n := String.length text in
  negb (Ascii.eqb (byte (n - 1)%nat) "\")
  && negb (Ascii.eqb (byte (n - 2)%nat) "\"
           && Ascii.eqb (byte (n - 1)%nat) "x").

(** A text that gives a tame buffer: no NUL, no run of ten digits, ASCII
    only, and no escape at its very end. *)
Definition textTame (text : string) : bool :=
  textFree text && shortRuns 9 text && asciiText text && endsSafely text.

(** No byte of the text is NUL, and no two bytes in a row are a star and a
    slash or a slash and a star; [after] is the byte that follows the
    text. *)
Fixpoint quietComment (s : string) (after : ascii) : bool :=
  match s with
  | EmptyString => true
  | String c s' =>
      let next := match s' with
                  | EmptyString => after
                  | String d _ => d
                  end in
      negb (Ascii.eqb c NUL)
      && negb (Ascii.eqb c "*" && Ascii.eqb next "/")
      && negb (Ascii.eqb c "/" && Ascii.eqb next "*")
      && quietComment s' after
  end.

(** The product of the entries of the table at the set bits of [e], from bit
    [i] on, least bit first. *)
Fixpoint scaleFrom (d : list float) (i : nat) (e : Z) (acc : float) : float :=
  match d with
  | [] => acc
  | p :: d' =>
      scaleFrom d' (Datatypes.S i) e
        (if Z.testbit e (Z.of_nat i) then PrimFloat.mul acc p else acc)
  end.

(** Ten to the power [e] as the table of powers gives it. *)
Definition scaleBits (e : Z) : float := scaleFrom powersOf10 0 e 1.0%float.

(** [fraction] times ten to the power [exp], the power taken from the table
    and its exponent limited to [MaxExponent]; a negative exponent
    divides. *)
Definition scaled (fraction : float) (exp : Z) : float :=
  let scale := scaleBits (Z.min (Z.abs exp) MaxExponent) in
  if exp <? 0 then PrimFloat.div fraction scale
  else PrimFloat.mul fraction scale.

(** The real literal of mantissa [value] and decimal exponent [exp] that
    ends at the cursor of [st]. *)
Definition realLiteral (value exp : Z) (st : Lexer) : TokenData * Lexer :=
  let r := scaled (toDouble value) exp in
  let st := if PrimFloat.is_finite r then st
            else addError DiagCode.RealExponentTooLarge st in
  (NumericReal (lexeme st) r, st).

(** The digits of a base as they are written, each with its value. *)
Definition digitValues (b : VectorBase) : list (ascii * Z) :=
  let binary := [("0", 0); ("1", 1)] in
  let octal :=
    binary ++ [("2", 2); ("3", 3); ("4", 4); ("5", 5); ("6", 6); ("7", 7)] in
  let decimal := octal ++ [("8", 8); ("9", 9)] in
  match b with
  | BinaryBase => binary
  | OctalBase => octal
  | DecimalBase => decimal
  | HexBase =>
      decimal
      ++ [("a", 10); ("b", 11); ("c", 12); ("d", 13); ("e", 14); ("f", 15);
          ("A", 10); ("B", 11); ("C", 12); ("D", 13); ("E", 14); ("F", 15)]
  end.

Fixpoint lookupDigit (c : ascii) (l : list (ascii * Z)) : option Z :=
  match l with
  | [] => None
  | (d, v) :: l' => if Ascii.eqb c d then Some v else lookupDigit c l'
  end.

(** What one byte stands for among the digits of a vector of base [b]:
    nothing for an underscore, z for z, Z and the question mark, x for x and
    X, its value for a digit of the base. Any other byte ends the digits. *)
Definition vectorChar (b : VectorBase) (c : ascii) : option (list logic_t) :=
  if Ascii.eqb c "_" then Some []
  else if Ascii.eqb c "z" || Ascii.eqb c "Z" || Ascii.eqb c "?"
  then Some [logic_z]
  else if Ascii.eqb c "x" || Ascii.eqb c "X" then Some [logic_x]
  else option_map (fun v => [logic_val v]) (lookupDigit c (digitValues b)).

(** The digits the text spells in base [b], first digit first. *)
Fixpoint vectorDigits (b : VectorBase) (s : string)
  : option (list logic_t) :=
  match s with
  | EmptyString => Some []
  | String c s' =>
      match vectorChar b c, vectorDigits b s' with
      | Some d, Some ds => Some (d ++ ds)
      | _, _ => None
      end
  end.

(** The text is not empty and does not begin with an underscore. *)
Definition startsWithDigit (s : string) : bool :=
  match s with
  | EmptyString => false
  | String c _ => negb (Ascii.eqb c "_")
  end.

(** The vector of a sized literal: the size clamped to UINT32_MAX. *)
Definition sizedVector (size : Z) (isSigned : bool) (ds : list logic_t)
  : LogicVector :=
  {| lv_sized := true;
     lv_size := if size =? 0 then 0 else Z.min size UINT32_MAX;
     lv_signed := isSigned; lv_digits := ds |}.

(** [st] with the digits [ds] added to the vector under construction. *)
Definition appendDigits (ds : list logic_t) (st : Lexer) : Lexer :=
  set_vectorBuilder
    {| lv_sized := lv_sized (vectorBuilder st);
       lv_size := lv_size (vectorBuilder st);
       lv_signed := lv_signed (vectorBuilder st);
       lv_digits := lv_digits (vectorBuilder st) ++ ds |} st.

(** The literal of C4 as the size of a vector. *)
Definition zeroPaddedSize : string := zeroPaddedLarge ++ "'d1".

(** * Properties *)

(** ** The cursor *)

Lemma peek_advance (k n : nat) (st : Lexer) :
  peek k (advance n st) = peek (n + k) st.
Proof. unfold peek, advance; simpl. now rewrite Nat.add_assoc. Qed.

Lemma advance_advance (m n : nat) (st : Lexer) :
  advance m (advance n st) = advance (n + m) st.
Proof.
  unfold advance, set_sourceBuffer; simpl. now rewrite Nat.add_assoc.
Qed.

Lemma peek_addError (k : nat) (d : DiagCode.t) (st : Lexer) :
  peek k (addError d st) = peek k st.
Proof. reflexivity. Qed.

Lemma peek_mark (k : nat) (st : Lexer) : peek k (mark st) = peek k st.
Proof. reflexivity. Qed.

Lemma consume_hit (c : ascii) (st : Lexer) :
  peek 0 st = c -> consume c st = (true, advance 1 st).
Proof. unfold consume; intros ->. now rewrite Ascii.eqb_refl. Qed.

Lemma consume_miss (c : ascii) (st : Lexer) :
  peek 0 st <> c -> consume c st = (false, st).
Proof.
  unfold consume; intros Hne.
  destruct (Ascii.eqb_spec (peek 0 st) c); [contradiction | reflexivity].
Qed.

(** A byte other than NUL under the cursor lies inside the buffer. *)
Lemma get_None_length (s : string) (n : nat) :
  String.get n s = None <-> (String.length s <= n)%nat.
Proof.
  revert n; induction s as [|c s IH]; intros n; simpl.
  - split; [lia | reflexivity].
  - destruct n as [|n]; simpl.
    + split; [discriminate | lia].
    + rewrite IH; lia.
Qed.

Lemma peek_inside (k : nat) (st : Lexer) :
  peek k st <> NUL -> (sourceBuffer st + k < String.length (source st))%nat.
Proof.
  unfold peek; intros Hne.
  destruct (String.get _ _) eqn:E; [|contradiction].
  destruct (Nat.lt_ge_cases (sourceBuffer st + k) (String.length (source st)))
    as [Hlt|Hge]; [exact Hlt|].
  apply get_None_length in Hge; congruence.
Qed.

(** ** Loops *)

Section LoopFacts.
Variables S R : Type.
Variable body : S -> Step S R.

(** An invariant of the body holds of what the loop returns. *)
Lemma loop_invariant (I : S -> Prop) (Q : R -> Prop) :
  (forall s s', I s -> body s = Continue s' -> I s') ->
  (forall s r, I s -> body s = Break r -> Q r) ->
  forall fuel s r, I s -> loop body fuel s = Some r -> Q r.
Proof.
  intros Hstep Hexit; induction fuel as [|fuel IH]; intros s r Hs; simpl.
  - discriminate.
  - destruct (body s) eqn:E.
    + intros Hl; eapply IH; [eapply Hstep; eauto | exact Hl].
    + intros Hl; inversion Hl; subst; eapply Hexit; eauto.
Qed.

(** A measure that every pass decreases bounds the number of passes. *)
Lemma loop_terminates (I : S -> Prop) (m : S -> nat) :
  (forall s s', I s -> body s = Continue s' -> I s' /\ (m s' < m s)%nat) ->
  forall fuel s, I s -> (m s < fuel)%nat -> exists r, loop body fuel s = Some r.
Proof.
  intros Hstep; induction fuel as [|fuel IH]; intros s Hs Hm; [lia|].
  simpl; destruct (body s) eqn:E.
  - destruct (Hstep _ _ Hs E) as [Hs' Hlt]; apply IH; [exact Hs' | lia].
  - eexists; reflexivity.
Qed.

(** A pass that always goes round again never leaves the loop. *)
Lemma loop_diverges (I : S -> Prop) :
  (forall s, I s -> exists s', body s = Continue s' /\ I s') ->
  forall fuel s, I s -> loop body fuel s = None.
Proof.
  intros Hstep; induction fuel as [|fuel IH]; intros s Hs; simpl.
  - reflexivity.
  - destruct (Hstep _ Hs) as (s' & E & Hs'); rewrite E; now apply IH.
Qed.
End LoopFacts.

(** ** Which kinds the dispatch can produce *)

Ltac inv_some :=
  repeat match goal with
  | E : Some _ = Some _ |- _ => inversion E; subst; clear E
  | E : None = Some _ |- _ => discriminate E
  | E : plain _ _ = Some _ |- _ => unfold plain in E
  | E : unknownToken _ = Some _ |- _ => unfold unknownToken in E
  end.

Ltac split_match_in E :=
  match type of E with
  | context [match ?x with _ => _ end] =>
      match type of x with
      | ascii => destruct x as [[] [] [] [] [] [] [] []]
      | _ => destruct x eqn:?
      end
  | context [if ?x then _ else _] => destruct x eqn:?
  end.

Section Kinds.
Context `{Externals}.

Lemma lexDollarSign_kind fuel st k d st' :
  lexDollarSign fuel st = Some (k, d, st') -> endKind k = false.
Proof.
  unfold lexDollarSign; intros E.
  repeat (split_match_in E; inv_some); reflexivity.
Qed.

Lemma lexDirective_kind fuel st k d st' :
  lexDirective fuel st = Some (k, d, st') -> endKind k = false.
Proof.
  unfold lexDirective; intros E.
  repeat (split_match_in E; inv_some); reflexivity.
Qed.

Lemma lexEscapeSequence_kind fuel st k d st' :
  lexEscapeSequence fuel st = Some (k, d, st') -> endKind k = false.
Proof.
  unfold lexEscapeSequence; intros E.
  repeat (split_match_in E; inv_some); reflexivity.
Qed.

Lemma lexNumericLiteral_kind fuel st k d st' :
  lexNumericLiteral fuel st = Some (k, d, st') -> endKind k = false.
Proof.
  unfold lexNumericLiteral; intros E.
  destruct (skipZeros fuel st); [|discriminate].
  destruct (scanUnsignedNumber _ _ _ _ _); [|discriminate].
  destruct (findNextNonWhitespace _ _); [|discriminate].
  destruct (_ && _).
  - destruct (lexVectorLiteral _ _ _) as [[? ?]|]; inv_some; reflexivity.
  - destruct (peek 0 _) as [[] [] [] [] [] [] [] []];
      cbv beta iota zeta in E;
      repeat match type of E with
      | context [lexVectorLiteral ?a ?b ?c] =>
          destruct (lexVectorLiteral a b c) as [[? ?]|]
      | context [lexRealLiteral ?a ?b ?c ?d ?e ?f] =>
          destruct (lexRealLiteral a b c d e f) as [[? ?]|]
      | context [scanUnsignedNumber ?a ?b ?c ?d ?e] =>
          destruct (scanUnsignedNumber a b c d e)
      | context [if ?x then _ else _] => destruct x
      end; inv_some; reflexivity.
Qed.

(** Only the NUL branch of the dispatch yields an end kind, and then it is
    EndOfFile, produced with the cursor moved beyond the end pointer. *)
Lemma lexToken_endKind fuel st k d st' :
  lexToken fuel st = Some (k, d, st') ->
  endKind k = true ->
  k = TokenKind.EndOfFile /\ peek 0 st = NUL /\
  st' = advance 1 st /\ d = None /\
  (sourceEnd st < sourceBuffer st + 1)%nat.
Proof.
  unfold lexToken.
  destruct (peek 0 st) as [[] [] [] [] [] [] [] []]; cbv beta iota zeta;
    intros E K.
  all: try (unfold plain, unknownToken in E; inv_some; discriminate K).
  all: try (apply lexDollarSign_kind in E; congruence).
  all: try (apply lexNumericLiteral_kind in E; congruence).
  all: try (apply lexEscapeSequence_kind in E; congruence).
  all: try (apply lexDirective_kind in E; congruence).
  all: try (repeat (split_match_in E; cbv beta iota zeta in E;
                    try (unfold plain, unknownToken in E; inv_some;
                         discriminate K));
            first [ apply lexDirective_kind in E; congruence | idtac ]).
  all: try (unfold plain, unknownToken in E; inv_some; simpl in *;
            try discriminate).
  repeat split; try reflexivity.
  apply Nat.leb_gt; assumption.
Qed.

Lemma lex_endKind fuel st t st' :
  lex fuel st = Returned t st' ->
  endKind (kind t) = true ->
  kind t = TokenKind.EndOfFile /\ data t = None /\
  peek 0 (set_sourceBuffer (marker st') st') = NUL /\
  sourceBuffer st' = Datatypes.S (marker st') /\
  (sourceEnd st' < sourceBuffer st')%nat.
Proof.
  unfold lex.
  destruct (reallyAtEnd st); [discriminate|].
  destruct (lexTrivia _ _) as [[b st1]|]; [|discriminate].
  destruct (lexToken _ _) as [[[k d] st2]|] eqn:E; [|discriminate].
  intros R K; inversion R; subst; clear R; simpl in K.
  destruct (lexToken_endKind _ _ E K) as (-> & P & -> & -> & L).
  simpl in *. repeat split; try reflexivity.
  - rewrite <- P. unfold peek; reflexivity.
  - lia.
  - exact L.
Qed.

Lemma lex_assertion fuel st :
  lex fuel st = AssertionFailed <-> reallyAtEnd st = true.
Proof.
  unfold lex; destruct (reallyAtEnd st).
  - split; reflexivity.
  - destruct (lexTrivia _ _) as [[b st1]|].
    + destruct (lexToken _ _) as [[[k d] st2]|]; split; discriminate.
    + split; discriminate.
Qed.

Lemma lexMany_atEnd fuel n st :
  reallyAtEnd st = true -> lexMany fuel n st = ([], st).
Proof.
  intros E; destruct n; simpl; [reflexivity|].
  now rewrite (proj2 (lex_assertion fuel st) E).
Qed.

Lemma lexMany_EndOfFile_count fuel n : forall st,
  (count_occ TokenKind.eq_dec (map kind (fst (lexMany fuel n st)))
     TokenKind.EndOfFile <= 1)%nat.
Proof.
  induction n as [|n IH]; intros st; simpl; [lia|].
  destruct (lex fuel st) as [t st'| |] eqn:E; simpl; try lia.
  specialize (IH st').
  destruct (lexMany fuel n st') as [ts st''] eqn:M; simpl in *.
  destruct (TokenKind.eq_dec (kind t) TokenKind.EndOfFile) as [K|K].
  - assert (A : endKind (kind t) = true) by (rewrite K; reflexivity).
    destruct (lex_endKind _ _ E A) as (_ & _ & _ & _ & L).
    rewrite lexMany_atEnd in M.
    + inversion M; subst; simpl; lia.
    + unfold reallyAtEnd; apply Nat.leb_le; lia.
  - exact IH.
Qed.

End Kinds.

(** C9. [lex] asserts that the cursor has not reached the end pointer;
    producing EndOfFile consumes a NUL and leaves the cursor beyond the end
    pointer, so that every further call fails the assertion and a run of
    calls yields EndOfFile at most once. *)
Theorem lex_EndOfFile_at_most_once `{Externals} :
  forall (fuel : nat) (st : Lexer),
    (lex fuel st = AssertionFailed <-> reallyAtEnd st = true) /\
    (forall t st',
        lex fuel st = Returned t st' ->
        kind t = TokenKind.EndOfFile ->
        peek 0 (set_sourceBuffer (marker st') st') = NUL /\
        sourceBuffer st' = Datatypes.S (marker st') /\
        (sourceEnd st' < sourceBuffer st')%nat /\
        (forall fuel', lex fuel' st' = AssertionFailed) /\
        (forall fuel' n, lexMany fuel' n st' = ([], st'))) /\
    (forall n,
        count_occ TokenKind.eq_dec (map kind (fst (lexMany fuel n st)))
          TokenKind.EndOfFile <= 1)%nat.
Proof.
  intros fuel st; split; [apply lex_assertion | split].
  - intros t st' E K.
    assert (A : endKind (kind t) = true) by (rewrite K; reflexivity).
    destruct (lex_endKind _ _ E A) as (_ & _ & P & M & L).
    assert (R : reallyAtEnd st' = true)
      by (unfold reallyAtEnd; apply Nat.leb_le; lia).
    repeat split; try assumption.
    + intros fuel'; now apply lex_assertion.
    + intros fuel' n; now apply lexMany_atEnd.
  - intros n; apply lexMany_EndOfFile_count.
Qed.

(** On a buffer that ends in a line comment the EndOfFile token is reached
    under either reading of the end pointer, and the call after it fails. *)
Lemma lex_EndOfFile_at_most_once_witness :
  (exists t st',
      @lex exampleExternals 8%nat (lexerOn EndAtNul "//") = Returned t st' /\
      kind t = TokenKind.EndOfFile /\
      @lex exampleExternals 8%nat st' = AssertionFailed) /\
  (exists t st',
      @lex exampleExternals 8%nat (lexerOn EndPastNul "//") = Returned t st' /\
      kind t = TokenKind.EndOfFile /\
      @lex exampleExternals 8%nat st' = AssertionFailed).
Proof.
  split.
  - eexists; eexists; split; [vm_compute; reflexivity | split; [reflexivity|]].
    eapply (proj1 (proj2 (@lex_EndOfFile_at_most_once exampleExternals 8%nat
                            (lexerOn EndAtNul "//")))).
    + vm_compute; reflexivity.
    + reflexivity.
  - eexists; eexists; split; [vm_compute; reflexivity | split; [reflexivity|]].
    eapply (proj1 (proj2 (@lex_EndOfFile_at_most_once exampleExternals 8%nat
                            (lexerOn EndPastNul "//")))).
    + vm_compute; reflexivity.
    + reflexivity.
Defined.

(** ** Operators *)

Ltac peeks H :=
  simpl in H;
  repeat (apply andb_prop in H; let P := fresh "P" in destruct H as [P H]);
  clear H;
  repeat match goal with
         | E : Ascii.eqb _ _ = true |- _ => apply Ascii.eqb_eq in E
         end.

(** Runs the dispatch along the bytes known from hypotheses on [peek]. *)
Ltac run_dispatch :=
  unfold lexToken;
  repeat (progress (cbv beta iota zeta; rewrite ?peek_advance; simpl Nat.add;
          repeat match goal with
                 | P : peek ?k ?st = _ |- context [peek ?k ?st] => rewrite P
                 end)).

Ltac other_byte c :=
  destruct c as [[] [] [] [] [] [] [] []]; try congruence;
  cbv beta iota zeta; now rewrite ?advance_advance.

Ltac single_token :=
  intros conv fuel; destruct conv; eexists;
  (split; [vm_compute; reflexivity|]); repeat split.

Section Shifts.
Context `{Externals}.
Variables (fuel : nat) (st : Lexer).

Lemma lex_TripleLeftShiftEqual :
  lookingAt "<<<=" 0 st = true ->
  lexToken fuel st = plain TokenKind.TripleLeftShiftEqual (advance 4 st).
Proof.
  intros L; peeks L; run_dispatch; simpl; now rewrite !advance_advance.
Qed.

Lemma lex_TripleLeftShift :
  lookingAt "<<<" 0 st = true -> peek 3 st <> "=" ->
  lexToken fuel st = plain TokenKind.TripleLeftShift (advance 3 st).
Proof.
  intros L N; peeks L; run_dispatch.
  destruct (Ascii.eqb_spec (peek 3 st) "="); [contradiction|].
  now rewrite !advance_advance.
Qed.

Lemma lex_LeftShiftEqual :
  lookingAt "<<=" 0 st = true ->
  lexToken fuel st = plain TokenKind.LeftShiftEqual (advance 3 st).
Proof.
  intros L; peeks L; run_dispatch; simpl; now rewrite !advance_advance.
Qed.

Lemma lex_LeftShift :
  lookingAt "<<" 0 st = true -> peek 2 st <> "<" -> peek 2 st <> "=" ->
  lexToken fuel st = plain TokenKind.LeftShift (advance 2 st).
Proof. intros L N1 N2; peeks L; run_dispatch; other_byte (peek 2 st). Qed.

Lemma lex_TripleRightShiftEqual :
  lookingAt ">>>=" 0 st = true ->
  lexToken fuel st = plain TokenKind.TripleRightShiftEqual (advance 4 st).
Proof.
  intros L; peeks L; run_dispatch; simpl; now rewrite !advance_advance.
Qed.

Lemma lex_TripleRightShift :
  lookingAt ">>>" 0 st = true -> peek 3 st <> "=" ->
  lexToken fuel st = plain TokenKind.TripleRightShift (advance 3 st).
Proof.
  intros L N; peeks L; run_dispatch.
  destruct (Ascii.eqb_spec (peek 3 st) "="); [contradiction|].
  now rewrite !advance_advance.
Qed.

Lemma lex_RightShiftEqual :
  lookingAt ">>=" 0 st = true ->
  lexToken fuel st = plain TokenKind.RightShiftEqual (advance 3 st).
Proof.
  intros L; peeks L; run_dispatch; simpl; now rewrite !advance_advance.
Qed.

Lemma lex_RightShift :
  lookingAt ">>" 0 st = true -> peek 2 st <> ">" -> peek 2 st <> "=" ->
  lexToken fuel st = plain TokenKind.RightShift (advance 2 st).
Proof. intros L N1 N2; peeks L; run_dispatch; other_byte (peek 2 st). Qed.

End Shifts.

(** C8. The shift operators are lexed by maximal munch: at [<<<=] the
    dispatch returns TripleLeftShiftEqual over four bytes, at [<<=]
    LeftShiftEqual over three, and LeftShift only when neither [<] nor [=]
    follows [<<]; the same holds of the right shifts; and the inputs [<<<=],
    [<<=] and [<<] are each lexed as one token that covers the whole input. *)
Theorem shift_operators_maximal_munch `{Externals} :
  (forall (fuel : nat) (st : Lexer),
      (lookingAt "<<<=" 0 st = true ->
       lexToken fuel st
       = plain TokenKind.TripleLeftShiftEqual (advance 4 st)) /\
      (lookingAt "<<<" 0 st = true -> peek 3 st <> "=" ->
       lexToken fuel st = plain TokenKind.TripleLeftShift (advance 3 st)) /\
      (lookingAt "<<=" 0 st = true ->
       lexToken fuel st = plain TokenKind.LeftShiftEqual (advance 3 st)) /\
      (lookingAt "<<" 0 st = true -> peek 2 st <> "<" -> peek 2 st <> "=" ->
       lexToken fuel st = plain TokenKind.LeftShift (advance 2 st)) /\
      (lookingAt ">>>=" 0 st = true ->
       lexToken fuel st
       = plain TokenKind.TripleRightShiftEqual (advance 4 st)) /\
      (lookingAt ">>>" 0 st = true -> peek 3 st <> "=" ->
       lexToken fuel st = plain TokenKind.TripleRightShift (advance 3 st)) /\
      (lookingAt ">>=" 0 st = true ->
       lexToken fuel st = plain TokenKind.RightShiftEqual (advance 3 st)) /\
      (lookingAt ">>" 0 st = true -> peek 2 st <> ">" -> peek 2 st <> "=" ->
       lexToken fuel st = plain TokenKind.RightShift (advance 2 st))) /\
  lexesAsSingle "<<<=" TokenKind.TripleLeftShiftEqual /\
  lexesAsSingle "<<=" TokenKind.LeftShiftEqual /\
  lexesAsSingle "<<" TokenKind.LeftShift /\
  lexesAsSingle ">>>=" TokenKind.TripleRightShiftEqual /\
  lexesAsSingle ">>=" TokenKind.RightShiftEqual /\
  lexesAsSingle ">>" TokenKind.RightShift.
Proof.
  split.
  - intros fuel st; repeat split.
    + apply lex_TripleLeftShiftEqual.
    + apply lex_TripleLeftShift.
    + apply lex_LeftShiftEqual.
    + apply lex_LeftShift.
    + apply lex_TripleRightShiftEqual.
    + apply lex_TripleRightShift.
    + apply lex_RightShiftEqual.
    + apply lex_RightShift.
  - repeat split; single_token.
Qed.

(** In the middle of [a <<<= b] the dispatch takes all four bytes, and in
    [a << b] it stops after two. *)
Lemma shift_operators_maximal_munch_witness :
  (let st := advance 2 (lexerOn EndPastNul "a <<<= b") in
   lookingAt "<<<=" 0 st = true /\
   @lexToken exampleExternals 4%nat st
   = plain TokenKind.TripleLeftShiftEqual (advance 4 st)) /\
  (let st := advance 2 (lexerOn EndPastNul "a << b") in
   lookingAt "<<" 0 st = true /\ peek 2 st <> "<" /\ peek 2 st <> "=" /\
   @lexToken exampleExternals 4%nat st
   = plain TokenKind.LeftShift (advance 2 st)).
Proof.
  split; cbv zeta.
  - split; [reflexivity|].
    apply (proj1 (proj1 (@shift_operators_maximal_munch exampleExternals)
                   4%nat _)).
    reflexivity.
  - split; [reflexivity|]. split; [vm_compute; discriminate|].
    split; [vm_compute; discriminate|].
    apply (proj1 (proj2 (proj2 (proj2
             (proj1 (@shift_operators_maximal_munch exampleExternals)
                4%nat _))))).
    + reflexivity.
    + vm_compute; discriminate.
    + vm_compute; discriminate.
Defined.

(** ** String escapes *)

Lemma lexStringLiteral_body_escape (st : Lexer) :
  peek 0 st = "\" ->
  lexStringLiteral_body st
  = Continue (lexStringEscape (peek 1 st) (advance 2 st)).
Proof.
  intros P; unfold lexStringLiteral_body; rewrite P; simpl.
  now rewrite peek_advance, advance_advance.
Qed.

Lemma lexStringEscape_octal (c : ascii) (st : Lexer) :
  isOctalDigit c = true -> lexStringEscape c st = lexOctalEscape c st.
Proof.
  destruct c as [[] [] [] [] [] [] [] []]; intros E;
    try reflexivity; discriminate E.
Qed.

Lemma octal_digit_value (c : ascii) :
  isOctalDigit c = true ->
  getDigitValue c = code c - 48 /\ 0 <= code c - 48 <= 7.
Proof.
  destruct c as [[] [] [] [] [] [] [] []]; intros E;
    try discriminate E; vm_compute; repeat split; congruence.
Qed.

Lemma hex_digit_value (c : ascii) :
  isHexDigit c = true -> 0 <= getHexDigitValue c <= 15.
Proof.
  destruct c as [[] [] [] [] [] [] [] []]; intros E;
    try discriminate E; vm_compute; split; congruence.
Qed.

(** What one pass of the string loop does at an octal escape. *)
Lemma octal_escape (st : Lexer) :
  peek 0 st = "\" -> octalDigitsAt st <> [] ->
  let ds := octalDigitsAt st in
  let v := octalValue ds in
  exists st',
    lexStringLiteral_body st = Continue st' /\
    sourceBuffer st' = (sourceBuffer st + 1 + List.length ds)%nat /\
    (255 < v ->
       List.length ds = 3%nat /\ stringBuffer st' = stringBuffer st /\
       diagnostics st' = diagnostics st ++ [DiagCode.OctalEscapeCodeTooBig]) /\
    (v <= 255 ->
       stringBuffer st' = stringBuffer st ++ [chr v] /\
       diagnostics st' = diagnostics st).
Proof.
  intros P D ds v; subst ds v; revert D.
  rewrite (lexStringLiteral_body_escape _ P). unfold octalDigitsAt.
  destruct (isOctalDigit (peek 1 st)) eqn:E1;
    [intros _ | intros D; now elim D].
  rewrite (lexStringEscape_octal _ _ E1). unfold lexOctalEscape.
  rewrite !peek_advance; simpl Nat.add.
  destruct (octal_digit_value _ E1) as [V1 R1].
  destruct (isOctalDigit (peek 2 st)) eqn:E2.
  - destruct (octal_digit_value _ E2) as [V2 R2].
    destruct (isOctalDigit (peek 3 st)) eqn:E3.
    + destruct (octal_digit_value _ E3) as [V3 R3].
      rewrite V1, V2, V3. unfold octalValue; simpl fold_left.
      rewrite (Z.mod_small ((code (peek 1 st) - 48) * 8 + _)) by lia.
      rewrite Z.mod_small by lia.
      destruct (Z.gtb_spec
                  (((code (peek 1 st) - 48) * 8 + (code (peek 2 st) - 48)) * 8
                   + (code (peek 3 st) - 48)) 255);
        eexists; (split; [reflexivity|]); simpl; repeat split;
        try lia; try reflexivity.
    + rewrite V1, V2. unfold octalValue; simpl fold_left.
      rewrite Z.mod_small by lia.
      eexists; (split; [reflexivity|]); simpl; repeat split; try lia.
  - rewrite V1. unfold octalValue; simpl fold_left.
    eexists; (split; [reflexivity|]); simpl; repeat split; try lia.
Qed.

(** What one pass of the string loop does at a hex escape. *)
Lemma hex_escape (st : Lexer) :
  peek 0 st = "\" -> peek 1 st = "x" ->
  let ds := hexDigitsAt st in
  (ds <> [] ->
   exists st',
     lexStringLiteral_body st = Continue st' /\
     sourceBuffer st' = (sourceBuffer st + 2 + List.length ds)%nat /\
     stringBuffer st' = stringBuffer st ++ [chr (hexValue ds)] /\
     diagnostics st' = diagnostics st) /\
  (ds = [] ->
   lexStringLiteral_body st
   = Continue (stringBuffer_append (peek 2 st)
                 (addError DiagCode.InvalidHexEscapeCode (advance 3 st)))).
Proof.
  intros P X ds; subst ds.
  rewrite (lexStringLiteral_body_escape _ P), X.
  change (lexStringEscape "x" (advance 2 st)) with (lexHexEscape (advance 2 st)).
  unfold lexHexEscape, hexDigitsAt.
  rewrite !peek_advance, !advance_advance; simpl Nat.add.
  destruct (isHexDigit (peek 2 st)) eqn:E2; simpl negb; cbv iota.
  - split; [intros _ | discriminate].
    destruct (hex_digit_value _ E2) as [L2 U2].
    destruct (isHexDigit (peek 3 st)) eqn:E3.
    + destruct (hex_digit_value _ E3) as [L3 U3].
      unfold hexValue; simpl fold_left. rewrite Z.mod_small by lia.
      eexists; (split; [reflexivity|]); simpl; repeat split; lia.
    + unfold hexValue; simpl fold_left.
      eexists; (split; [reflexivity|]); simpl; repeat split; lia.
  - split; [intros D; now elim D | intros _; reflexivity].
Qed.

Lemma simple_escape (st : Lexer) (e b : ascii) :
  peek 0 st = "\" -> In (e, b) simpleEscapes -> peek 1 st = e ->
  lexStringLiteral_body st = Continue (stringBuffer_append b (advance 2 st)).
Proof.
  intros P I E; rewrite (lexStringLiteral_body_escape _ P), E.
  simpl in I.
  repeat (destruct I as [I|I]; [inversion I; subst; reflexivity|]).
  contradiction.
Qed.

Lemma line_continuation_escape (st : Lexer) :
  peek 0 st = "\" ->
  (peek 1 st = "010" -> lexStringLiteral_body st = Continue (advance 2 st)) /\
  (peek 1 st = "013" ->
   lexStringLiteral_body st = Continue (snd (consume "010" (advance 2 st)))).
Proof.
  intros P; rewrite (lexStringLiteral_body_escape _ P).
  split; intros ->; reflexivity.
Qed.

Lemma unknown_escape (st : Lexer) :
  peek 0 st = "\" -> otherEscape (peek 1 st) = true ->
  peek 1 st <> "010" -> peek 1 st <> "013" ->
  lexStringLiteral_body st
  = Continue (stringBuffer_append (peek 1 st)
                (addError DiagCode.UnknownEscapeCode (advance 2 st))).
Proof.
  intros P O N1 N2; rewrite (lexStringLiteral_body_escape _ P).
  destruct (peek 1 st) as [[] [] [] [] [] [] [] []];
    try discriminate O; try congruence; reflexivity.
Qed.

Ltac lexes_to :=
  intros conv fuel; destruct conv; eexists;
  (split; [vm_compute; reflexivity|]); split; reflexivity.

(** C10. At an octal escape one pass of the string loop consumes the
    backslash and the digits; when the value exceeds 255, which takes three
    digits, it records OctalEscapeCodeTooBig and appends no byte; when the
    value is at most 255 it appends exactly the byte of that value and
    records nothing. *)
Theorem octal_escape_above_255_is_dropped `{Externals} :
  (forall st : Lexer,
      peek 0 st = "\" -> octalDigitsAt st <> [] ->
      let ds := octalDigitsAt st in
      let v := octalValue ds in
      exists st',
        lexStringLiteral_body st = Continue st' /\
        sourceBuffer st' = (sourceBuffer st + 1 + List.length ds)%nat /\
        (255 < v ->
           List.length ds = 3%nat /\ stringBuffer st' = stringBuffer st /\
           diagnostics st'
           = diagnostics st ++ [DiagCode.OctalEscapeCodeTooBig]) /\
        (v <= 255 ->
           stringBuffer st' = stringBuffer st ++ [chr v] /\
           diagnostics st' = diagnostics st)) /\
  lexesTo (QUOTE ++ BACKSLASH ++ "400" ++ QUOTE) TokenKind.StringLiteral
    (Some (StringLiteralInfo (QUOTE ++ BACKSLASH ++ "400" ++ QUOTE) []))
    [DiagCode.OctalEscapeCodeTooBig] /\
  lexesTo (QUOTE ++ BACKSLASH ++ "777" ++ QUOTE) TokenKind.StringLiteral
    (Some (StringLiteralInfo (QUOTE ++ BACKSLASH ++ "777" ++ QUOTE) []))
    [DiagCode.OctalEscapeCodeTooBig] /\
  lexesTo (QUOTE ++ BACKSLASH ++ "377" ++ QUOTE) TokenKind.StringLiteral
    (Some (StringLiteralInfo (QUOTE ++ BACKSLASH ++ "377" ++ QUOTE) ["255"]))
    [] /\
  lexesTo (QUOTE ++ BACKSLASH ++ "7" ++ QUOTE) TokenKind.StringLiteral
    (Some (StringLiteralInfo (QUOTE ++ BACKSLASH ++ "7" ++ QUOTE) ["007"]))
    [].
Proof.
  split; [exact octal_escape | repeat split; lexes_to].
Qed.

(** The escape [\400] inside a literal: value 256, nothing appended. *)
Lemma octal_escape_above_255_is_dropped_witness :
  exists st',
    lexStringLiteral_body
      (advance 1 (lexerOn EndPastNul (QUOTE ++ BACKSLASH ++ "400" ++ QUOTE)))
    = Continue st' /\
    sourceBuffer st' = 5%nat /\ stringBuffer st' = [] /\
    diagnostics st' = [DiagCode.OctalEscapeCodeTooBig].
Proof.
  destruct (proj1 (@octal_escape_above_255_is_dropped exampleExternals)
              (advance 1
                 (lexerOn EndPastNul (QUOTE ++ BACKSLASH ++ "400" ++ QUOTE)))
              eq_refl)
    as (st' & E & B & Big & _).
  - vm_compute; discriminate.
  - exists st'; split; [exact E|]. split; [exact B|].
    destruct Big as (_ & S & D); [vm_compute; reflexivity|].
    split; [exact S | exact D].
Defined.

(** C7, as amended. With the cursor on a backslash inside a string literal,
    one pass of the loop decodes: the letters n, t, v, f, a, the backslash
    and the double quote to the bytes they stand for; one to three octal digits to the byte of their value, or to
    nothing with OctalEscapeCodeTooBig above 255; [\x] with one or two hex
    digits to the byte of their value, and without a hex digit to
    InvalidHexEscapeCode; a line feed or a carriage return to nothing,
    undiagnosed; every other character to itself with UnknownEscapeCode. *)
Theorem string_escape_decoding `{Externals} :
  (forall st : Lexer,
      peek 0 st = "\" ->
      (forall e b, In (e, b) simpleEscapes -> peek 1 st = e ->
         lexStringLiteral_body st
         = Continue (stringBuffer_append b (advance 2 st))) /\
      (octalDigitsAt st <> [] ->
       exists st',
         lexStringLiteral_body st = Continue st' /\
         sourceBuffer st'
         = (sourceBuffer st + 1 + List.length (octalDigitsAt st))%nat /\
         (255 < octalValue (octalDigitsAt st) ->
            stringBuffer st' = stringBuffer st /\
            diagnostics st'
            = diagnostics st ++ [DiagCode.OctalEscapeCodeTooBig]) /\
         (octalValue (octalDigitsAt st) <= 255 ->
            stringBuffer st'
            = stringBuffer st ++ [chr (octalValue (octalDigitsAt st))] /\
            diagnostics st' = diagnostics st)) /\
      (peek 1 st = "x" -> hexDigitsAt st <> [] ->
       exists st',
         lexStringLiteral_body st = Continue st' /\
         sourceBuffer st'
         = (sourceBuffer st + 2 + List.length (hexDigitsAt st))%nat /\
         stringBuffer st'
         = stringBuffer st ++ [chr (hexValue (hexDigitsAt st))] /\
         diagnostics st' = diagnostics st) /\
      (peek 1 st = "x" -> hexDigitsAt st = [] ->
       lexStringLiteral_body st
       = Continue (stringBuffer_append (peek 2 st)
                     (addError DiagCode.InvalidHexEscapeCode
                        (advance 3 st)))) /\
      (peek 1 st = "010" ->
       lexStringLiteral_body st = Continue (advance 2 st)) /\
      (peek 1 st = "013" ->
       lexStringLiteral_body st
       = Continue (snd (consume "010" (advance 2 st)))) /\
      (otherEscape (peek 1 st) = true ->
       peek 1 st <> "010" -> peek 1 st <> "013" ->
       lexStringLiteral_body st
       = Continue (stringBuffer_append (peek 1 st)
                     (addError DiagCode.UnknownEscapeCode (advance 2 st))))) /\
  lexesTo
    (QUOTE ++ "a" ++ BACKSLASH ++ "n" ++ BACKSLASH ++ "x4A" ++ BACKSLASH
     ++ "101" ++ QUOTE)
    TokenKind.StringLiteral
    (Some (StringLiteralInfo
             (QUOTE ++ "a" ++ BACKSLASH ++ "n" ++ BACKSLASH ++ "x4A"
              ++ BACKSLASH ++ "101" ++ QUOTE)
             ["a"; "010"; "J"; "A"]))
    [] /\
  lexesTo (QUOTE ++ BACKSLASH ++ "9" ++ QUOTE) TokenKind.StringLiteral
    (Some (StringLiteralInfo (QUOTE ++ BACKSLASH ++ "9" ++ QUOTE) ["9"]))
    [DiagCode.UnknownEscapeCode].
Proof.
  split; [|split; lexes_to].
  intros st P. split; [|split; [|split; [|split; [|split; [|split]]]]].
  - intros e b I E; now apply simple_escape with (e := e).
  - intros D. destruct (octal_escape st P D) as (st' & E & B & Big & Small).
    exists st'; split; [exact E|]. split; [exact B|]. split.
    + intros V; now destruct (Big V) as (_ & S & G).
    + exact Small.
  - intros X; exact (proj1 (hex_escape st P X)).
  - intros X; exact (proj2 (hex_escape st P X)).
  - exact (proj1 (line_continuation_escape st P)).
  - exact (proj2 (line_continuation_escape st P)).
  - now apply unknown_escape.
Qed.

(** The escape [\q] is unknown: the [q] is passed through and diagnosed. *)
Lemma string_escape_decoding_witness :
  lexStringLiteral_body
    (advance 1 (lexerOn EndPastNul (QUOTE ++ BACKSLASH ++ "q" ++ QUOTE)))
  = Continue
      (stringBuffer_append "q"
         (addError DiagCode.UnknownEscapeCode
            (advance 3
               (lexerOn EndPastNul (QUOTE ++ BACKSLASH ++ "q" ++ QUOTE))))).
Proof.
  rewrite (proj2 (proj2 (proj2 (proj2 (proj2 (proj2
             (proj1 (@string_escape_decoding exampleExternals)
                (advance 1
                   (lexerOn EndPastNul (QUOTE ++ BACKSLASH ++ "q" ++ QUOTE)))
                eq_refl)))))) eq_refl).
  - reflexivity.
  - vm_compute; discriminate.
  - vm_compute; discriminate.
Defined.

(** C7, as stated, fails at a backslash followed by a line feed: the line
    feed is none of the listed escapes, yet the pass appends nothing and
    records no diagnostic. *)
Lemma string_escape_line_feed_counterexample :
  peek 0 lineContinuationState = "\" /\
  peek 1 lineContinuationState = "010" /\
  otherEscape (peek 1 lineContinuationState) = true /\
  lexStringLiteral_body lineContinuationState
  = Continue (advance 2 lineContinuationState) /\
  lexStringLiteral_body lineContinuationState
  <> Continue
       (stringBuffer_append (peek 1 lineContinuationState)
          (addError DiagCode.UnknownEscapeCode
             (advance 2 lineContinuationState))).
Proof.
  repeat split; try reflexivity. vm_compute; discriminate.
Qed.

(** ** Trivia at the start of a token *)

(** Trivia scanning stops at once, consuming nothing, on every byte that is
    neither whitespace nor a slash; a backslash is such a byte. *)
Lemma lexTrivia_stop (fuel : nat) (st : Lexer) :
  isWhitespace (peek 0 st) = false -> peek 0 st <> "/" ->
  lexTrivia (Datatypes.S fuel) st = Some (false, mark st).
Proof.
  intros W N. unfold lexTrivia; cbn [loopM]; unfold lexTrivia_body.
  rewrite !peek_mark.
  destruct (peek 0 st) as [[] [] [] [] [] [] [] []];
    try discriminate W; try congruence; cbv beta iota zeta;
    try reflexivity.
  simpl isNewline. simpl negb. now rewrite orb_true_r.
Qed.

Lemma lexTrivia_line_feed (fuel : nat) (st : Lexer) :
  LexingMode.isNormal (mode st) = false -> peek 0 st = "010" ->
  lexTrivia (Datatypes.S fuel) st
  = Some (true, addTrivia TriviaKind.EndOfLine (advance 1 (mark st))).
Proof.
  intros M P. unfold lexTrivia; cbn [loopM]; unfold lexTrivia_body.
  rewrite !peek_mark, P; cbv beta iota zeta.
  change (mode (addTrivia TriviaKind.EndOfLine (advance 1 (mark st))))
    with (mode st).
  now rewrite M.
Qed.

Lemma lexTrivia_carriage_return (fuel : nat) (st : Lexer) :
  LexingMode.isNormal (mode st) = false -> peek 0 st = "013" ->
  lexTrivia (Datatypes.S fuel) st
  = Some (true,
          addTrivia TriviaKind.EndOfLine
            (snd (consume "010" (advance 1 (mark st))))).
Proof.
  intros M P. unfold lexTrivia; cbn [loopM]; unfold lexTrivia_body.
  rewrite !peek_mark, P; cbv beta iota zeta.
  replace (mode (addTrivia TriviaKind.EndOfLine
                   (snd (consume "010" (advance 1 (mark st))))))
    with (mode st).
  - now rewrite M.
  - unfold consume; now destruct (Ascii.eqb _ _).
Qed.

Lemma lexTrivia_body_block_comment (fuel : nat) (st : Lexer) :
  peek 0 st = "/" -> peek 1 st = "*" ->
  lexTrivia_body fuel st
  = ('(eod, st') <- scanBlockComment fuel (advance 2 (mark st)) ;;
     if (eod : bool) then Some (Break (true, st')) else Some (Continue st')).
Proof.
  intros P0 P1; unfold lexTrivia_body; rewrite !peek_mark, P0, P1.
  reflexivity.
Qed.

(** ** Embedded NUL bytes *)

(** On a NUL before the end pointer the string loop and the block-comment
    loop record a diagnostic and go round again with the cursor where it
    was: they never leave. *)
Lemma lexStringLiteral_body_embedded_nul (st : Lexer) :
  peek 0 st = NUL -> reallyAtEnd st = false ->
  lexStringLiteral_body st = Continue (addError DiagCode.EmbeddedNull st).
Proof.
  intros P E; unfold lexStringLiteral_body; rewrite P, E; reflexivity.
Qed.

Lemma scanBlockComment_body_embedded_nul (eod : bool) (st : Lexer) :
  peek 0 st = NUL -> reallyAtEnd st = false ->
  scanBlockComment_body (eod, st)
  = Continue (eod, addError DiagCode.EmbeddedNull st).
Proof.
  intros P E; unfold scanBlockComment_body; rewrite P, E; reflexivity.
Qed.

Lemma lexStringLiteral_stuck (st : Lexer) :
  peek 0 st = NUL -> reallyAtEnd st = false ->
  forall fuel, loop lexStringLiteral_body fuel st = None.
Proof.
  intros P E fuel.
  apply loop_diverges
    with (I := fun s => peek 0 s = NUL /\ reallyAtEnd s = false);
    [|now split].
  intros s [Ps Es]; eexists; split.
  - now apply lexStringLiteral_body_embedded_nul.
  - now split.
Qed.

Lemma scanBlockComment_stuck (eod : bool) (st : Lexer) :
  peek 0 st = NUL -> reallyAtEnd st = false ->
  forall fuel, loop scanBlockComment_body fuel (eod, st) = None.
Proof.
  intros P E fuel.
  apply loop_diverges
    with (I := fun s => peek 0 (snd s) = NUL /\ reallyAtEnd (snd s) = false);
    [|now split].
  intros [e s] [Ps Es]; simpl in *; eexists; split.
  - now apply scanBlockComment_body_embedded_nul.
  - now split.
Qed.

Lemma lexToken_string `{Externals} (fuel : nat) (st : Lexer) :
  peek 0 st = "034" ->
  lexToken fuel st
  = ('(info, st') <- lexStringLiteral fuel (advance 1 st) ;;
     Some (TokenKind.StringLiteral, Some info, st')).
Proof. intros P; unfold lexToken; rewrite P; reflexivity. Qed.

(** ** Directives *)

Lemma isNewline_cases (c : ascii) :
  isNewline c = true -> c = "010" \/ c = "013".
Proof.
  destruct c as [[] [] [] [] [] [] [] []]; intros E; try discriminate E;
    [right | left]; reflexivity.
Qed.

Lemma isNewline_isWhitespace (c : ascii) :
  isNewline c = true -> isWhitespace c = true.
Proof. intros E; unfold isWhitespace; rewrite E; apply orb_true_r. Qed.

Lemma lexToken_escaped_whitespace `{Externals} (fuel : nat) (st : Lexer) :
  peek 0 st = "\" -> isWhitespace (peek 1 st) = true ->
  lexToken fuel st
  = unknownToken (addError DiagCode.EscapedWhitespace (advance 1 st)).
Proof.
  intros P W; unfold lexToken; rewrite P; cbv beta iota zeta.
  unfold lexEscapeSequence; rewrite peek_advance; simpl Nat.add.
  now rewrite W.
Qed.

(** C1, on every state where it applies. In Directive or Include mode, with
    the cursor on a backslash that is followed by a newline, trivia scanning
    stops without consuming anything; the backslash is then lexed as an
    Unknown token with EscapedWhitespace; and the scan that follows ends at
    the newline with the end-of-directive flag raised. The newline is not
    escaped. *)
Theorem backslash_newline_is_not_escaped `{Externals} :
  forall (fuel : nat) (st : Lexer),
    LexingMode.isNormal (mode st) = false ->
    peek 0 st = "\" ->
    isNewline (peek 1 st) = true ->
    let st1 := addError DiagCode.EscapedWhitespace (advance 1 (mark st)) in
    lexTrivia (Datatypes.S fuel) st = Some (false, mark st) /\
    lexToken (Datatypes.S fuel) (mark st) = unknownToken st1 /\
    exists st2,
      lexTrivia (Datatypes.S fuel) (set_triviaBuffer [] st1)
      = Some (true, st2) /\
      map trivia_kind (triviaBuffer st2) = [TriviaKind.EndOfLine].
Proof.
  intros fuel st M P N st1; subst st1. split; [|split].
  - apply lexTrivia_stop; rewrite P; [reflexivity | discriminate].
  - apply lexToken_escaped_whitespace; [exact P|].
    now apply isNewline_isWhitespace.
  - assert (Q : peek 0 (set_triviaBuffer []
                          (addError DiagCode.EscapedWhitespace
                             (advance 1 (mark st))))
               = peek 1 st)
      by (unfold peek; simpl; now rewrite Nat.add_0_r).
    destruct (isNewline_cases _ N) as [E|E].
    + eexists; split.
      * apply lexTrivia_line_feed; [exact M | now rewrite Q].
      * reflexivity.
    + eexists; split.
      * apply lexTrivia_carriage_return; [exact M | now rewrite Q].
      * unfold consume; now destruct (Ascii.eqb _ _).
Qed.

(** After [`define X 1] the lexer is in Directive mode on the backslash of
    the scenario, and the backslash comes out as an Unknown token. *)
Lemma backslash_newline_is_not_escaped_witness :
  let st :=
    snd (@lexMany exampleExternals 16 3
           (lexerOn EndPastNul scenarioEscapedNewline)) in
  mode st = LexingMode.Directive /\
  peek 0 st = "\" /\ peek 1 st = "010" /\
  @lexTrivia 1 st = Some (false, mark st) /\
  @lexKinds exampleExternals 6 EndPastNul scenarioEscapedNewline
  = ([TokenKind.Directive; TokenKind.Identifier; TokenKind.IntegerLiteral;
      TokenKind.Unknown; TokenKind.Plus; TokenKind.IntegerLiteral],
     LexingMode.Directive, [DiagCode.EscapedWhitespace]).
Proof.
  cbv zeta. split; [vm_compute; reflexivity|].
  split; [vm_compute; reflexivity|]. split; [vm_compute; reflexivity|].
  split; [|vm_compute; reflexivity].
  apply (@backslash_newline_is_not_escaped exampleExternals 0%nat);
    vm_compute; reflexivity.
Defined.

(** C3, at its failing inputs. No call of [lex] returns an EndOfDirective
    token; at a newline in Directive or Include mode the trivia scanner
    raises its flag and leaves the mode as it is; so the directive scenario
    of the spec is lexed without an EndOfDirective and ends in Directive
    mode, and a block comment split inside a directive is diagnosed and puts
    the mode back to Normal, again without an EndOfDirective. *)
Theorem newline_in_directive_yields_no_EndOfDirective `{Externals} :
  (forall fuel st t st',
      lex fuel st = Returned t st' -> kind t <> TokenKind.EndOfDirective) /\
  (forall fuel st,
      LexingMode.isNormal (mode st) = false ->
      isNewline (peek 0 st) = true ->
      exists st',
        lexTrivia (Datatypes.S fuel) st = Some (true, st') /\
        mode st' = mode st) /\
  (forall conv,
      @lexKinds exampleExternals 5 conv scenarioDirective
      = ([TokenKind.Directive; TokenKind.Identifier; TokenKind.IntegerLiteral;
          TokenKind.Plus; TokenKind.IntegerLiteral],
         LexingMode.Directive, [])) /\
  (forall conv,
      @lexKinds exampleExternals 3 conv scenarioSplitComment
      = ([TokenKind.Directive; TokenKind.Identifier;
          TokenKind.IntegerLiteral],
         LexingMode.Normal, [DiagCode.SplitBlockCommentInDirective])).
Proof.
  split; [|split; [|split]].
  - intros fuel st t st' E K.
    assert (A : endKind (kind t) = true) by (rewrite K; reflexivity).
    destruct (lex_endKind _ _ E A) as (K' & _); congruence.
  - intros fuel st M N. destruct (isNewline_cases _ N) as [E|E].
    + eexists; split; [now apply lexTrivia_line_feed | reflexivity].
    + eexists; split; [now apply lexTrivia_carriage_return|].
      simpl; unfold consume; now destruct (Ascii.eqb _ _).
  - intros conv; destruct conv; vm_compute; reflexivity.
  - intros conv; destruct conv; vm_compute; reflexivity.
Qed.

(** The token after the newline of the directive scenario is the Plus. *)
Lemma newline_in_directive_yields_no_EndOfDirective_witness :
  let st :=
    snd (@lexMany exampleExternals 16 3
           (lexerOn EndPastNul scenarioDirective)) in
  exists t st',
    @lex exampleExternals 16 st = Returned t st' /\
    kind t = TokenKind.Plus /\
    kind t <> TokenKind.EndOfDirective /\
    mode st' = LexingMode.Directive.
Proof.
  cbv zeta. eexists; eexists. split; [vm_compute; reflexivity|].
  split; [reflexivity|]. split; [|reflexivity].
  eapply (proj1 (@newline_in_directive_yields_no_EndOfDirective
                   exampleExternals) 16%nat
            (snd (@lexMany exampleExternals 16 3
                    (lexerOn EndPastNul scenarioDirective)))).
  vm_compute; reflexivity.
Defined.

(** ** Numeric literals *)

(** C4, at its failing inputs. After the leading-zero loop has stopped at an
    underscore, zeros count as mantissa digits; once eighteen of them are
    scanned the later digits are dropped, so [0_0000000000000000009999999999],
    whose value 9999999999 exceeds INT32_MAX, is stored as 0 without
    SignedLiteralTooLarge, and [0_0000000000000000001] is stored as 0 and not
    as 1. The two literals of the spec scenario are clamped, or not, as the
    specification says. *)
Theorem zero_padded_literal_is_truncated `{Externals} :
  parsedDecimal zeroPaddedLarge = 9999999999 /\
  Z.min (parsedDecimal zeroPaddedLarge) INT32_MAX = INT32_MAX /\
  lexesTo zeroPaddedLarge TokenKind.IntegerLiteral
    (Some (NumericInt zeroPaddedLarge 0)) [] /\
  parsedDecimal zeroPaddedOne = 1 /\
  lexesTo zeroPaddedOne TokenKind.IntegerLiteral
    (Some (NumericInt zeroPaddedOne 0)) [] /\
  lexesTo "2147483648" TokenKind.IntegerLiteral
    (Some (NumericInt "2147483648" INT32_MAX))
    [DiagCode.SignedLiteralTooLarge] /\
  lexesTo "2147483647" TokenKind.IntegerLiteral
    (Some (NumericInt "2147483647" 2147483647)) [].
Proof.
  split; [reflexivity|]. split; [reflexivity|].
  split; [lexes_to|]. split; [reflexivity|].
  split; [lexes_to|]. split; lexes_to.
Qed.

(** C5, at its failing input. The two literals of the spec scenario come out
    as the specification says: [1.5e2] is 150.0 and [1e500] is diagnosed. With the
    exponent 4294967296 the conversion [int(expVal)] gives 0, so the literal
    is stored as 1.0 without RealExponentTooLarge, where the composition at
    the scanned exponent is not finite. *)
Theorem real_exponent_is_truncated_to_int `{Externals} :
  lexesTo "1.5e2" TokenKind.RealLiteral
    (Some (NumericReal "1.5e2" 150%float)) [] /\
  lexesTo "1e500" TokenKind.RealLiteral
    (Some (NumericReal "1e500" PrimFloat.infinity))
    [DiagCode.RealExponentTooLarge] /\
  lexesTo wrappedExponent TokenKind.RealLiteral
    (Some (NumericReal wrappedExponent 1%float)) [] /\
  toInt32 4294967296 = 0 /\
  composeDouble (toDouble 1) (0 + 4294967296)
  = Some (false, PrimFloat.infinity).
Proof.
  split; [lexes_to|]. split; [lexes_to|]. split; [lexes_to|].
  split; vm_compute; reflexivity.
Qed.

(** ** Vector literals *)

Unset Implicit Arguments.

Lemma lexVectorDigitsIn_eq b :
  lexVectorDigitsIn b = lexVectorDigits (basePredicate b) (baseValue b).
Proof. destruct b; reflexivity. Qed.

Lemma base_digit_range b c :
  basePredicate b c = true ->
  c <> NUL /\ 0 <= code (chr (baseValue b c)) < radix b.
Proof.
  destruct b; destruct c as [[] [] [] [] [] [] [] []]; intros E;
    try discriminate E; (split; [discriminate | vm_compute; split; congruence]).
Qed.

Lemma isLogicDigit_not_nul c : isLogicDigit c = true -> c <> NUL.
Proof.
  destruct c as [[] [] [] [] [] [] [] []]; intros E;
    try discriminate E; discriminate.
Qed.

Lemma isHorizontalWhitespace_not_nul c :
  isHorizontalWhitespace c = true -> c <> NUL.
Proof.
  destruct c as [[] [] [] [] [] [] [] []]; intros E;
    try discriminate E; discriminate.
Qed.

Section Digits.
Variable P : ascii -> bool.
Variable V : ascii -> Z.

Lemma lexVectorDigits_body_cases (s : Lexer) :
  lexVectorDigits_body P V s
  = Break (NumericVector (lexeme s) (vectorBuilder s), s)
  \/ (peek 0 s = "_" /\
      lexVectorDigits_body P V s = Continue (advance 1 s))
  \/ (exists d,
         ((isLogicDigit (peek 0 s) = true /\ (d = logic_z \/ d = logic_x))
          \/ (P (peek 0 s) = true
              /\ d = logic_val (code (chr (V (peek 0 s)))))) /\
         lexVectorDigits_body P V s
         = Continue
             (advance 1
                (set_vectorBuilder (vb_addDigit d (vectorBuilder s)) s))).
Proof.
  unfold lexVectorDigits_body.
  destruct (peek 0 s) as [[] [] [] [] [] [] [] []] eqn:E; cbv beta iota zeta;
    try (destruct (P _) eqn:Q;
         [ right; right; eexists; split; [right; split; reflexivity | reflexivity]
         | left; reflexivity ]).
  all: try (right; left; split; reflexivity).
  all: right; right; eexists; (split; [left; split; [reflexivity|]|reflexivity]); auto.
Qed.

Hypothesis P_range : forall c, P c = true -> c <> NUL.

(** Every further pass consumes a byte inside the buffer. *)
Lemma lexVectorDigits_body_progress (s s' : Lexer) :
  lexVectorDigits_body P V s = Continue s' ->
  source s' = source s /\
  (String.length (source s') - sourceBuffer s'
   < String.length (source s) - sourceBuffer s)%nat.
Proof.
  intros E.
  assert (N : peek 0 s <> NUL -> sourceBuffer s' = Datatypes.S (sourceBuffer s) -> source s' = source s ->
              source s' = source s /\
  (String.length (source s') - sourceBuffer s'
   < String.length (source s) - sourceBuffer s)%nat).
  { intros N B S. split; [exact S|]. apply peek_inside in N. rewrite S, B. lia. }
  destruct (lexVectorDigits_body_cases s) as [B|[[U C]|(d & D & C)]];
    rewrite E in *.
  - discriminate.
  - inversion C; subst. apply N; [rewrite U; discriminate | simpl; lia | reflexivity].
  - inversion C; subst. apply N; [|simpl; lia|reflexivity].
    destruct D as [[L _]|[Q _]]; [now apply isLogicDigit_not_nul | now apply P_range].
Qed.

Lemma lexVectorDigits_loop_returns (fuel : nat) (s : Lexer) :
  (String.length (source s) - sourceBuffer s < fuel)%nat ->
  exists r, loop (lexVectorDigits_body P V) fuel s = Some r.
Proof.
  apply loop_terminates with (I := fun _ => True)
    (m := fun s => (String.length (source s) - sourceBuffer s)%nat); [|exact I].
  intros x x' _ E; split; [exact I|].
  now apply lexVectorDigits_body_progress in E.
Qed.

Variable r : Z.
Hypothesis V_range : forall c, P c = true -> 0 <= code (chr (V c)) < r.

Lemma lexVectorDigits_loop_keeps (fuel : nat) (s0 : Lexer) info s' :
  Forall (digitBelow r) (lv_digits (vectorBuilder s0)) ->
  loop (lexVectorDigits_body P V) fuel s0 = Some (info, s') ->
  digitsKept r s0 s'.
Proof.
  intros F L.
  apply (loop_invariant (lexVectorDigits_body P V) (digitsKept r s0)
           (fun x : TokenData * Lexer => digitsKept r s0 (snd x)))
    with (fuel := fuel) (s := s0) (r := (info, s')) in L; try exact L.
  - intros x x' K E.
    destruct K as (K1 & K2 & K3 & K4 & K5).
    destruct (lexVectorDigits_body_cases x) as [B|[[U C]|(d & D & C)]];
      rewrite E in *.
    + discriminate.
    + inversion C; subst; repeat split; assumption.
    + inversion C; subst; repeat split; try assumption.
      simpl. apply Forall_app; split; [assumption|].
      constructor; [|constructor].
      destruct D as [[_ [-> | ->]]|[Q ->]]; simpl; auto.
  - intros x [i x'] K E; simpl.
    destruct (lexVectorDigits_body_cases x) as [B|[[U C]|(d & D & C)]];
      rewrite E in *; try discriminate.
    inversion B; subst; exact K.
  - repeat split; try reflexivity; exact F.
Qed.
End Digits.

Lemma findNextNonWhitespace_returns (fuel : nat) (st : Lexer) :
  (String.length (source st) < fuel)%nat ->
  exists lookahead, findNextNonWhitespace fuel st = Some lookahead.
Proof.
  intros F. unfold findNextNonWhitespace.
  apply loop_terminates with (I := fun _ => True)
    (m := fun la => (String.length (source st) - (sourceBuffer st + la))%nat);
    [|exact I|lia].
  intros la la' _ E; split; [exact I|].
  unfold findNextNonWhitespace_body in E.
  destruct (isHorizontalWhitespace (peek la st)) eqn:W; [|discriminate].
  inversion E; subst.
  apply isHorizontalWhitespace_not_nul, peek_inside in W. lia.
Qed.

Lemma diagnosedSince_app (st st' : Lexer) (new : list DiagCode.t) :
  diagnostics st' = diagnostics st ++ new -> diagnosedSince st st' = new.
Proof.
  intros E; unfold diagnosedSince; rewrite E.
  rewrite skipn_app, skipn_all, Nat.sub_diag; reflexivity.
Qed.

(** What [lexVectorDigits] returns in base [b], with enough fuel. *)
Lemma lexVectorDigitsIn_returns (b : VectorBase) (fuel : nat) (st : Lexer) :
  (String.length (source st) < fuel)%nat ->
  Forall (digitBelow (radix b)) (lv_digits (vectorBuilder st)) ->
  exists info st',
    lexVectorDigitsIn b fuel st = Some (info, st') /\
    (diagnostics st' = diagnostics st \/
     diagnostics st' = diagnostics st ++ [DiagCode.MissingVectorDigits]) /\
    lv_size (vectorBuilder st') = lv_size (vectorBuilder st) /\
    lv_signed (vectorBuilder st') = lv_signed (vectorBuilder st) /\
    Forall (digitBelow (radix b)) (lv_digits (vectorBuilder st')).
Proof.
  intros F D. rewrite lexVectorDigitsIn_eq. unfold lexVectorDigits.
  destruct (findNextNonWhitespace_returns fuel st F) as [la ->].
  destruct (_ && _).
  - eexists; eexists; split; [reflexivity|].
    split; [right; reflexivity|]. repeat split; assumption.
  - destruct (lexVectorDigits_loop_returns (basePredicate b) (baseValue b)
                (fun c Q => proj1 (base_digit_range b c Q))
                fuel (advance la st)) as [[info st'] L].
    + simpl; lia.
    + exists info, st'; split; [exact L|].
      apply (lexVectorDigits_loop_keeps (basePredicate b) (baseValue b)
               (radix b) (fun c Q => proj2 (base_digit_range b c Q)))
        in L; [|exact D].
      destruct L as (_ & L2 & L3 & L4 & L5); simpl in *.
      split; [left; exact L2|]. repeat split; assumption.
Qed.

(** The dispatch on the base letter [c], once the builder is started. *)
Lemma lexVector_base_returns (fuel : nat) (c : ascii) (st : Lexer) :
  (String.length (source st) < fuel)%nat ->
  lv_digits (vectorBuilder st) = [] ->
  exists info st' rest,
    match baseOfChar c with
    | Some b => lexVectorDigitsIn b fuel (advance 1 st)
    | None =>
        Some (NumericInt (lexeme (addError DiagCode.MissingVectorBase st)) 0,
              addError DiagCode.MissingVectorBase st)
    end = Some (info, st') /\
    diagnostics st' = diagnostics st ++ rest /\
    lv_size (vectorBuilder st') = lv_size (vectorBuilder st) /\
    lv_signed (vectorBuilder st') = lv_signed (vectorBuilder st) /\
    match baseOfChar c with
    | None =>
        rest = [DiagCode.MissingVectorBase] /\
        info = NumericInt (lexeme st') 0
    | Some b =>
        (rest = [] \/ rest = [DiagCode.MissingVectorDigits]) /\
        Forall (digitBelow (radix b)) (lv_digits (vectorBuilder st'))
    end.
Proof.
  intros F E. destruct (baseOfChar c) as [b|].
  - destruct (lexVectorDigitsIn_returns b fuel (advance 1 st))
      as (info & st' & L & Dg & Sz & Sn & Fa).
    + exact F.
    + simpl; rewrite E; constructor.
    + destruct Dg as [Dg|Dg].
      * exists info, st', []; rewrite app_nil_r; repeat split; auto.
      * exists info, st', [DiagCode.MissingVectorDigits];
          repeat split; auto.
  - eexists; eexists; eexists; split; [reflexivity|]. repeat split.
Qed.

Lemma lexVectorLiteral_returns (fuel : nat) (size64 : Z) (st : Lexer) :
  0 <= size64 < 2 ^ 64 ->
  (String.length (source st) < fuel)%nat ->
  let isSigned := Ascii.eqb (peek 0 st) "s" || Ascii.eqb (peek 0 st) "S" in
  let c := if isSigned then peek 1 st else peek 0 st in
  exists info st' rest,
    lexVectorLiteral fuel size64 st = Some (info, st') /\
    diagnostics st' = diagnostics st ++ sizeDiagnostics size64 ++ rest /\
    lv_size (vectorBuilder st')
    = (if size64 =? 0 then 0 else Z.min size64 UINT32_MAX) /\
    lv_signed (vectorBuilder st') = isSigned /\
    match baseOfChar c with
    | None =>
        rest = [DiagCode.MissingVectorBase] /\
        info = NumericInt (lexeme st') 0
    | Some b =>
        (rest = [] \/ rest = [DiagCode.MissingVectorDigits]) /\
        Forall (digitBelow (radix b)) (lv_digits (vectorBuilder st'))
    end.
Proof.
  intros R F isSigned c; subst isSigned c.
  unfold lexVectorLiteral, sizeDiagnostics.
  set (sized :=
         if size64 =? 0 then (0, addError DiagCode.IntegerSizeZero st)
         else
           let '(size64', st0) :=
             if size64 >? UINT32_MAX
             then (UINT32_MAX, addError DiagCode.IntegerSizeTooLarge st)
             else (size64, st) in
           (size64' mod 2 ^ 32, st0)).
  assert (S : exists st0,
             sized
             = ((if size64 =? 0 then 0 else Z.min size64 UINT32_MAX), st0)
             /\ source st0 = source st /\ sourceBuffer st0 = sourceBuffer st
             /\ diagnostics st0
                = diagnostics st ++
                  (if size64 =? 0 then [DiagCode.IntegerSizeZero]
                   else if size64 >? UINT32_MAX
                        then [DiagCode.IntegerSizeTooLarge] else [])).
  { subst sized. unfold UINT32_MAX in *.
    destruct (Z.eqb_spec size64 0).
    - exists (addError DiagCode.IntegerSizeZero st); repeat split.
    - destruct (Z.gtb_spec size64 4294967295).
      + exists (addError DiagCode.IntegerSizeTooLarge st); split;
          [|repeat split].
        rewrite Z.min_r by lia. reflexivity.
      + exists st; split; [|repeat split; simpl; now rewrite app_nil_r].
        rewrite Z.min_l by lia. rewrite Z.mod_small by lia. reflexivity. }
  destruct S as (st0 & -> & S1 & S2 & S3).
  assert (Pk : forall k, peek k st0 = peek k st)
    by (intros k; unfold peek; now rewrite S1, S2).
  rewrite (Pk 0%nat).
  destruct (Ascii.eqb (peek 0 st) "s" || Ascii.eqb (peek 0 st) "S") eqn:Sg;
    cbv beta iota zeta.
  - rewrite peek_advance; simpl Nat.add. rewrite (Pk 1%nat).
    match goal with
    | |- context [lexVectorDigitsIn _ fuel (advance 1 ?s)] =>
        destruct (lexVector_base_returns fuel (peek 1 st) s)
          as (info & st' & rest & L & Dg & Sz & Sn & B)
    end.
    + simpl; now rewrite S1.
    + reflexivity.
    + exists info, st', rest. split; [exact L|].
      simpl in Dg, Sz, Sn. rewrite Dg, S3, Sz, Sn, <- app_assoc.
      repeat split; exact B.
  - match goal with
    | |- context [lexVectorDigitsIn _ fuel (advance 1 ?s)] =>
        destruct (lexVector_base_returns fuel (peek 0 st) s)
          as (info & st' & rest & L & Dg & Sz & Sn & B)
    end.
    + simpl; now rewrite S1.
    + reflexivity.
    + exists info, st', rest. split; [exact L|].
      simpl in Dg, Sz, Sn. rewrite Dg, S3, Sz, Sn, <- app_assoc.
      repeat split; exact B.
Qed.

Lemma baseOfChar_letters (c : ascii) (b : VectorBase) :
  baseOfChar c = Some b <-> In (c, b) baseLetters.
Proof.
  split.
  - destruct c as [[] [] [] [] [] [] [] []]; intros E; try discriminate E;
      inversion E; subst; simpl; tauto.
  - simpl; intros I.
    repeat (destruct I as [I|I]; [inversion I; subst; reflexivity|]).
    contradiction.
Qed.


(** ** Progress of the cursor *)

Lemma loop_notBehind {R : Type} (body : Lexer -> Step Lexer R)
  (proj : R -> Lexer) :
  (forall s s', body s = Continue s' -> notBehind s s') ->
  (forall s r, body s = Break r -> notBehind s (proj r)) ->
  forall fuel s r, loop body fuel s = Some r -> notBehind s (proj r).
Proof.
  intros Hc Hb fuel s r L.
  apply (loop_invariant body (notBehind s) (fun r => notBehind s (proj r)))
    with (fuel := fuel) (s := s); try exact L.
  - intros x x' K E; apply Hc in E; unfold notBehind in *; lia.
  - intros x y K E; apply Hb in E; unfold notBehind in *; lia.
  - unfold notBehind; lia.
Qed.

Ltac cursor :=
  unfold notBehind, stringBuffer_append, addError, addTrivia, advance, mark,
    consume in *;
  repeat match goal with
         | |- context [if ?b then _ else _] => destruct b
         | H : context [if ?b then _ else _] |- _ => destruct b
         end;
  simpl in *; try lia.

Lemma scanIdentifier_notBehind fuel st st' :
  scanIdentifier fuel st = Some st' -> notBehind st st'.
Proof.
  apply (loop_notBehind scanIdentifier_body (fun s => s));
    intros s r; unfold scanIdentifier_body;
    destruct (_ || _); intros E; inversion E; subst; cursor.
Qed.

Lemma lexStringEscape_notBehind c st : notBehind st (lexStringEscape c st).
Proof.
  destruct c as [[] [] [] [] [] [] [] []]; cbv beta iota delta [lexStringEscape];
    try (unfold lexOctalEscape); try (unfold lexHexEscape); cursor.
Qed.

Lemma lexStringLiteral_notBehind fuel st info st' :
  lexStringLiteral fuel st = Some (info, st') -> notBehind st st'.
Proof.
  unfold lexStringLiteral.
  destruct (loop _ _ _) as [s|] eqn:L; [|discriminate].
  intros E; inversion E; subst; clear E.
  apply (loop_notBehind lexStringLiteral_body (fun s => s)) in L;
    [exact L| |].
  - intros s r; unfold lexStringLiteral_body.
    repeat match goal with
           | |- context [if ?b then _ else _] => destruct b
           end; intros E; inversion E; subst; try (cursor; fail).
    pose proof (lexStringEscape_notBehind (peek 0 (advance 1 s)) (advance 1 (advance 1 s))).
    cursor.
  - intros s r; unfold lexStringLiteral_body.
    repeat match goal with
           | |- context [if ?b then _ else _] => destruct b
           end; intros E; inversion E; subst; cursor.
Qed.

Lemma lexEscapeSequence_notBehind fuel st k d st' :
  lexEscapeSequence fuel st = Some (k, d, st') -> notBehind st st'.
Proof.
  unfold lexEscapeSequence. destruct (_ || _).
  - intros E; inversion E; subst; cursor.
  - destruct (loop _ _ _) as [s|] eqn:L; [|discriminate].
    intros E; inversion E; subst; clear E.
    apply (loop_invariant lexEscapeSequence_body
             (fun x => notBehind st (snd x)) (fun r => notBehind st r))
      with (fuel := fuel) (s := (peek 0 st, st)); try exact L.
    + intros [c x] [c' x'] K; unfold lexEscapeSequence_body.
      destruct (isPrintable c); [|discriminate].
      destruct (isWhitespace _); [discriminate|].
      intros E; inversion E; subst; cursor.
    + intros [c x] r K; unfold lexEscapeSequence_body.
      destruct (isPrintable c); [destruct (isWhitespace _)|];
        intros E; inversion E; subst; cursor.
    + cursor.
Qed.

Lemma lexDollarSign_notBehind fuel st k d st' :
  lexDollarSign fuel st = Some (k, d, st') -> notBehind st st'.
Proof.
  unfold lexDollarSign.
  destruct (scanIdentifier fuel st) as [s|] eqn:L; [|discriminate].
  apply scanIdentifier_notBehind in L.
  destruct (_ =? _)%nat; intros E; inversion E; subst; exact L.
Qed.

Lemma lexDirective_notBehind `{Externals} fuel st k d st' :
  lexDirective fuel st = Some (k, d, st') -> notBehind st st'.
Proof.
  unfold lexDirective.
  destruct (scanIdentifier fuel st) as [s|] eqn:L; [|discriminate].
  apply scanIdentifier_notBehind in L.
  destruct (_ =? _)%nat; [intros E; inversion E; subst; cursor|].
  destruct (getDirectiveKind _); intros E; inversion E; subst; cursor.
Qed.

Lemma scanUnsignedNumber_loop_notBehind fuel s r :
  loop scanUnsignedNumber_body fuel s = Some r ->
  notBehind (sn_lexer s) (sn_lexer r).
Proof.
  intros L.
  apply (loop_invariant scanUnsignedNumber_body
           (fun x => notBehind (sn_lexer s) (sn_lexer x))
           (fun x => notBehind (sn_lexer s) (sn_lexer x)))
    with (fuel := fuel) (s := s); try exact L.
  - intros x x' K; unfold scanUnsignedNumber_body.
    destruct (isDecimalDigit _); [|destruct (negb _); [discriminate|]];
      intros E; inversion E; subst; cursor.
  - intros x x' K; unfold scanUnsignedNumber_body.
    destruct (isDecimalDigit _); [discriminate|].
    destruct (negb _); [|discriminate].
    intros E; inversion E; subst; exact K.
  - cursor.
Qed.

Lemma skipZeros_notBehind fuel st st' :
  skipZeros fuel st = Some st' -> notBehind st st'.
Proof.
  apply (loop_notBehind skipZeros_body (fun s => s));
    intros s r; unfold skipZeros_body;
    destruct (Ascii.eqb _ _); intros E; inversion E; subst; cursor.
Qed.

Lemma lexRealLiteral_notBehind fuel value decPoint digits exponent st info st' :
  lexRealLiteral fuel value decPoint digits exponent st = Some (info, st') ->
  notBehind st st'.
Proof.
  unfold lexRealLiteral. destruct exponent.
  - destruct (skipZeros fuel (advance 1 st)) as [s|] eqn:Z; [|discriminate].
    apply skipZeros_notBehind in Z.
    set (signed := if Ascii.eqb (peek 0 s) "+" then (false, advance 1 s)
                   else if Ascii.eqb (peek 0 s) "-" then (true, advance 1 s)
                        else (false, s)).
    assert (Sg : notBehind s (snd signed))
      by (subst signed; destruct (Ascii.eqb _ _); [|destruct (Ascii.eqb _ _)]; cursor).
    destruct signed as [neg s1]; simpl in Sg.
    destruct (negb _).
    + destruct (composeDouble _ _) as [[[] result]|]; intros E; inversion E; subst; cursor.
    + destruct (scanUnsignedNumber _ _ _ _ _) as [r|] eqn:N; [|discriminate].
      apply scanUnsignedNumber_loop_notBehind in N; simpl in N.
      destruct (composeDouble _ _) as [[[] result]|]; intros E; inversion E; subst; cursor.
  - destruct (composeDouble _ _) as [[[] result]|]; intros E; inversion E; subst; cursor.
Qed.

Lemma lexVectorDigits_notBehind P V fuel st info st' :
  lexVectorDigits P V fuel st = Some (info, st') -> notBehind st st'.
Proof.
  unfold lexVectorDigits.
  destruct (findNextNonWhitespace fuel st) as [la|]; [|discriminate].
  destruct (_ && _); [intros E; inversion E; subst; cursor|].
  intros L.
  apply (loop_invariant (lexVectorDigits_body P V)
           (fun x => notBehind st x)
           (fun r : TokenData * Lexer => notBehind st (snd r)))
    with (fuel := fuel) (s := advance la st) (r := (info, st')) in L;
    try exact L.
  - intros x x' K E.
    destruct (lexVectorDigits_body_cases P V x) as [B|[[U C]|(d & D & C)]];
      rewrite E in *; [discriminate| |]; inversion C; subst; cursor.
  - intros x [i x'] K E.
    destruct (lexVectorDigits_body_cases P V x) as [B|[[U C]|(d & D & C)]];
      rewrite E in *; try discriminate. inversion B; subst; exact K.
  - cursor.
Qed.

Lemma lexVectorDigitsIn_notBehind b fuel st info st' :
  lexVectorDigitsIn b fuel st = Some (info, st') -> notBehind st st'.
Proof. rewrite lexVectorDigitsIn_eq; apply lexVectorDigits_notBehind. Qed.

Lemma lexVectorLiteral_notBehind fuel size64 st info st' :
  lexVectorLiteral fuel size64 st = Some (info, st') -> notBehind st st'.
Proof.
  unfold lexVectorLiteral.
  destruct (size64 =? 0); [|destruct (size64 >? UINT32_MAX)];
    cbv beta iota zeta;
    (destruct (_ || _); cbv beta iota zeta;
     (destruct (baseOfChar _);
      [ intros L; apply lexVectorDigitsIn_notBehind in L; cursor
      | intros E; inversion E; subst; cursor ])).
Qed.

Lemma lexUnsizedNumericLiteral_notBehind fuel st info st' :
  lexUnsizedNumericLiteral fuel st = Some (info, st') -> notBehind st st'.
Proof.
  unfold lexUnsizedNumericLiteral. cbv zeta.
  destruct (baseOfChar _).
  - intros L; apply lexVectorDigitsIn_notBehind in L; cursor.
  - destruct (peek 0 _) as [[] [] [] [] [] [] [] []];
      intros E; inversion E; subst; cursor.
Qed.

Lemma isDecimalDigit_zero_or_not c :
  isDecimalDigit c = true -> c = "0" \/ Ascii.eqb c "0" = false.
Proof.
  destruct (Ascii.eqb_spec c "0"); [left; assumption | right; reflexivity].
Qed.

(** On a digit the numeric scanner consumes at least that digit. *)
Lemma lexNumericLiteral_advances fuel st k d st' :
  isDecimalDigit (peek 0 st) = true ->
  lexNumericLiteral fuel st = Some (k, d, st') ->
  (sourceBuffer st < sourceBuffer st')%nat.
Proof.
  intros Dg. unfold lexNumericLiteral.
  destruct (skipZeros fuel st) as [s0|] eqn:Z; [|discriminate].
  destruct (scanUnsignedNumber fuel (peek 0 s0) 0 0 s0) as [r|] eqn:N;
    [|discriminate].
  assert (A : (sourceBuffer st < sourceBuffer (sn_lexer r))%nat).
  { destruct fuel as [|fuel]; [discriminate|].
    change (skipZeros (Datatypes.S fuel) st)
      with (match skipZeros_body st with
            | Break x => Some x
            | Continue x => skipZeros fuel x
            end) in Z.
    unfold skipZeros_body in Z.
    destruct (Ascii.eqb (peek 0 st) "0") eqn:Z0.
    - apply skipZeros_notBehind in Z.
      apply scanUnsignedNumber_loop_notBehind in N.
      unfold notBehind in *; simpl in *; lia.
    - inversion Z; subst; clear Z.
      change (scanUnsignedNumber (Datatypes.S fuel) (peek 0 s0) 0 0 s0)
        with (match scanUnsignedNumber_body
                      {| sn_c := peek 0 s0; sn_unsignedVal := 0;
                         sn_digits := 0; sn_lexer := s0 |} with
              | Break x => Some x
              | Continue x => loop scanUnsignedNumber_body fuel x
              end) in N.
      unfold scanUnsignedNumber_body in N; simpl in N; rewrite Dg in N.
      apply scanUnsignedNumber_loop_notBehind in N.
      unfold notBehind in *; simpl in *; lia. }
  destruct (findNextNonWhitespace fuel (sn_lexer r)) as [la|]; [|discriminate].
  destruct (_ && _).
  - destruct (lexVectorLiteral _ _ _) as [[i s]|] eqn:L; [|discriminate].
    apply lexVectorLiteral_notBehind in L.
    intros E; inversion E; subst; cursor.
  - destruct (peek 0 (sn_lexer r)) as [[] [] [] [] [] [] [] []];
      cbv beta iota zeta;
      repeat match goal with
      | |- context [lexVectorLiteral ?a ?b ?c] =>
          let L := fresh "L" in
          destruct (lexVectorLiteral a b c) as [[? ?]|] eqn:L;
          [apply lexVectorLiteral_notBehind in L|]
      | |- context [scanUnsignedNumber ?a ?b ?c ?d ?e] =>
          let L := fresh "L" in
          destruct (scanUnsignedNumber a b c d e) eqn:L;
          [apply scanUnsignedNumber_loop_notBehind in L|]
      | |- context [lexRealLiteral ?a ?b ?c ?d ?e ?f] =>
          let L := fresh "L" in
          destruct (lexRealLiteral a b c d e f) as [[? ?]|] eqn:L;
          [apply lexRealLiteral_notBehind in L|]
      | |- context [if ?x then _ else _] => destruct x
      end;
      intros E; inversion E; subst; cursor.
Qed.

Lemma scanWhitespace_notBehind fuel st st' :
  scanWhitespace fuel st = Some st' -> notBehind st st'.
Proof.
  unfold scanWhitespace.
  destruct (loop _ _ _) as [s|] eqn:L; [|discriminate].
  intros E; inversion E; subst; clear E.
  apply (loop_notBehind scanWhitespace_body (fun s => s)) in L.
  - cursor.
  - intros x r; unfold scanWhitespace_body.
    destruct (peek 0 x) as [[] [] [] [] [] [] [] []];
      intros E; inversion E; subst; cursor.
  - intros x r; unfold scanWhitespace_body.
    destruct (peek 0 x) as [[] [] [] [] [] [] [] []];
      intros E; inversion E; subst; cursor.
Qed.

Lemma scanLineComment_notBehind fuel st st' :
  scanLineComment fuel st = Some st' -> notBehind st st'.
Proof.
  unfold scanLineComment.
  destruct (loop _ _ _) as [s|] eqn:L; [|discriminate].
  intros E; inversion E; subst; clear E.
  apply (loop_notBehind scanLineComment_body (fun s => s)) in L.
  - cursor.
  - intros x r; unfold scanLineComment_body.
    repeat match goal with
           | |- context [if ?b then _ else _] => destruct b
           end; intros E; inversion E; subst; cursor.
  - intros x r; unfold scanLineComment_body.
    repeat match goal with
           | |- context [if ?b then _ else _] => destruct b
           end; intros E; inversion E; subst; cursor.
Qed.

Lemma scanBlockComment_notBehind fuel st eod st' :
  scanBlockComment fuel st = Some (eod, st') -> notBehind st st'.
Proof.
  unfold scanBlockComment.
  destruct (loop _ _ _) as [[e s]|] eqn:L; [|discriminate].
  intros E; inversion E; subst; clear E.
  apply (loop_invariant scanBlockComment_body
           (fun x => notBehind st (snd x)) (fun x => notBehind st (snd x)))
    with (fuel := fuel) (s := (false, st)) in L.
  - cursor.
  - intros [b x] [b' x'] K; unfold scanBlockComment_body.
    repeat match goal with
           | |- context [if ?b then _ else _] => destruct b
           end; intros E; inversion E; subst; cursor.
  - intros [b x] [b' x'] K; unfold scanBlockComment_body.
    repeat match goal with
           | |- context [if ?b then _ else _] => destruct b
           end; intros E; inversion E; subst; cursor.
  - cursor.
Qed.

Lemma lexTrivia_body_notBehind inner st r :
  lexTrivia_body inner st = Some r ->
  notBehind st (match r with Continue s => s | Break (_, s) => s end).
Proof.
  unfold lexTrivia_body.
  destruct (peek 0 (mark st)) as [[] [] [] [] [] [] [] []];
    cbv beta iota zeta;
    try match goal with
        | |- context [peek 1 (mark st)] =>
            destruct (peek 1 (mark st)) as [[] [] [] [] [] [] [] []];
            cbv beta iota zeta
        end;
    repeat match goal with
    | |- context [scanWhitespace ?a ?b] =>
        let W := fresh "W" in
        destruct (scanWhitespace a b) eqn:W;
        [apply scanWhitespace_notBehind in W|]
    | |- context [scanLineComment ?a ?b] =>
        let W := fresh "W" in
        destruct (scanLineComment a b) eqn:W;
        [apply scanLineComment_notBehind in W|]
    | |- context [scanBlockComment ?a ?b] =>
        let W := fresh "W" in
        destruct (scanBlockComment a b) as [[[] ?]|] eqn:W;
        [apply scanBlockComment_notBehind in W
        |apply scanBlockComment_notBehind in W|]
    | |- context [if ?x then _ else _] => destruct x
    end;
    intros E; inversion E; subst; cursor.
Qed.

Lemma lexTrivia_notBehind fuel st b st' :
  lexTrivia fuel st = Some (b, st') -> notBehind st st'.
Proof.
  unfold lexTrivia. generalize fuel at 1 as inner.
  intros inner; revert st.
  induction fuel as [|fuel IH]; intros st; simpl; [discriminate|].
  destruct (lexTrivia_body inner st) as [[s|[e s]]|] eqn:B; [| |discriminate].
  - intros L; apply IH in L. apply lexTrivia_body_notBehind in B.
    unfold notBehind in *; lia.
  - intros L; inversion L; subst; clear L.
    now apply lexTrivia_body_notBehind in B.
Qed.

Section Progress.
Context `{Externals}.

(** Every token the dispatch returns is at least one byte long. *)
Lemma lexToken_advances fuel st k d st' :
  lexToken fuel st = Some (k, d, st') ->
  (sourceBuffer st < sourceBuffer st')%nat.
Proof.
  unfold lexToken.
  destruct (peek 0 st) as [[] [] [] [] [] [] [] []] eqn:P;
    cbv beta iota zeta.
  all: try (unfold plain, unknownToken; intros E; inversion E; subst; cursor; fail).
  all: try (intros E; apply lexDollarSign_notBehind in E; cursor; fail).
  all: try (intros E; apply lexEscapeSequence_notBehind in E; cursor; fail).
  all: try (intros E; apply lexNumericLiteral_advances in E;
            [cursor | simpl; unfold peek in *; simpl;
                      replace (sourceBuffer st + 1 - 1 + 0)%nat
                        with (sourceBuffer st + 0)%nat by lia;
                      rewrite P; reflexivity]; fail).
  all: try (destruct (scanIdentifier _ _) as [x|] eqn:W; [|discriminate];
            apply scanIdentifier_notBehind in W;
            intros E; inversion E; subst; cursor; fail).
  all: try (destruct (lexStringLiteral _ _) as [[i x]|] eqn:W; [|discriminate];
            apply lexStringLiteral_notBehind in W;
            intros E; inversion E; subst; cursor; fail).
  all: unfold consume;
    repeat (match goal with
            | |- context [lexUnsizedNumericLiteral ?a ?b] =>
                let W := fresh "W" in
                destruct (lexUnsizedNumericLiteral a b) as [[? ?]|] eqn:W;
                [apply lexUnsizedNumericLiteral_notBehind in W|]
            | |- context [if ?x then _ else _] => destruct x
            | |- context [match ?x with _ => _ end] =>
                match type of x with
                | ascii => destruct x as [[] [] [] [] [] [] [] []]
                end
            end; cbv beta iota zeta);
    unfold plain, unknownToken;
    intros E;
    first [ apply lexDirective_notBehind in E
          | inversion E; subst ];
    cursor.
Qed.

(** Every call of [lex] that returns has moved the cursor forward. *)
Lemma lex_advances fuel st t st' :
  lex fuel st = Returned t st' ->
  (sourceBuffer st < sourceBuffer st')%nat.
Proof.
  unfold lex. destruct (reallyAtEnd st); [discriminate|].
  destruct (lexTrivia _ _) as [[b s]|] eqn:T; [|discriminate].
  apply lexTrivia_notBehind in T.
  destruct (lexToken _ _) as [[[k d] s']|] eqn:K; [|discriminate].
  apply lexToken_advances in K.
  intros E; inversion E; subst. cursor.
Qed.
End Progress.

(** C2, with its failing inputs. Every call of [lex] that returns has moved
    the cursor forward by at least one byte. But on a NUL before the end
    pointer the string loop and the block-comment loop go round with the
    cursor where it was, so on a string literal or a block comment that
    holds such a NUL [lex] does not return, whatever the fuel and under
    either reading of the end pointer. *)
Theorem embedded_nul_never_returns `{Externals} :
  (forall fuel st t st',
      lex fuel st = Returned t st' ->
      (sourceBuffer st < sourceBuffer st')%nat) /\
  (forall st,
      peek 0 st = NUL -> reallyAtEnd st = false ->
      lexStringLiteral_body st
      = Continue (addError DiagCode.EmbeddedNull st) /\
      (forall eod,
          scanBlockComment_body (eod, st)
          = Continue (eod, addError DiagCode.EmbeddedNull st)) /\
      (forall fuel, loop lexStringLiteral_body fuel st = None) /\
      (forall fuel eod, loop scanBlockComment_body fuel (eod, st) = None)) /\
  (forall conv fuel,
      lex fuel (lexerOn conv (QUOTE ++ NULCHAR ++ "a" ++ QUOTE)) = OutOfFuel) /\
  (forall conv fuel,
      lex fuel (lexerOn conv ("/*" ++ NULCHAR ++ "a*/ b")) = OutOfFuel).
Proof.
  split; [exact lex_advances|]. split; [|split].
  - intros st P E. split; [|split; [|split]].
    + now apply lexStringLiteral_body_embedded_nul.
    + intros eod; now apply scanBlockComment_body_embedded_nul.
    + now apply lexStringLiteral_stuck.
    + intros fuel eod; now apply scanBlockComment_stuck.
  - intros conv fuel; unfold lex.
    replace (reallyAtEnd _) with false by (destruct conv; reflexivity).
    destruct fuel as [|fuel]; [reflexivity|].
    rewrite lexTrivia_stop by (destruct conv; vm_compute; congruence).
    rewrite lexToken_string by (destruct conv; reflexivity).
    unfold lexStringLiteral.
    rewrite lexStringLiteral_stuck; [reflexivity| |];
      destruct conv; reflexivity.
  - intros conv fuel; unfold lex.
    replace (reallyAtEnd _) with false by (destruct conv; reflexivity).
    destruct fuel as [|fuel]; [reflexivity|].
    unfold lexTrivia; cbn [loopM].
    rewrite lexTrivia_body_block_comment by (destruct conv; reflexivity).
    unfold scanBlockComment.
    rewrite scanBlockComment_stuck; [reflexivity| |];
      destruct conv; reflexivity.
Qed.

(** After the opening quote of the first failing input the cursor is on an
    embedded NUL, and the string loop never leaves it. *)
Lemma embedded_nul_never_returns_witness :
  let st := advance 1 (lexerOn EndPastNul (QUOTE ++ NULCHAR ++ "a" ++ QUOTE)) in
  peek 0 st = NUL /\ reallyAtEnd st = false /\
  lexStringLiteral_body st = Continue (addError DiagCode.EmbeddedNull st) /\
  sourceBuffer (addError DiagCode.EmbeddedNull st) = sourceBuffer st /\
  forall fuel, loop lexStringLiteral_body fuel st = None.
Proof.
  cbv zeta. split; [reflexivity|]. split; [reflexivity|].
  destruct (proj1 (proj2 (@embedded_nul_never_returns exampleExternals))
              (advance 1
                 (lexerOn EndPastNul (QUOTE ++ NULCHAR ++ "a" ++ QUOTE)))
              eq_refl eq_refl)
    as (B & _ & L & _).
  split; [exact B|]. split; [reflexivity | exact L].
Defined.

(** ** What the token scanners keep, and the shape of a token *)

Lemma extends_refl s : extends s s.
Proof. repeat split; exists []; now rewrite app_nil_r. Qed.

Lemma extends_trans a b c : extends a b -> extends b c -> extends a c.
Proof.
  intros (A1 & A2 & n1 & A3) (B1 & B2 & n2 & B3); repeat split; try congruence.
  exists (n1 ++ n2); now rewrite B3, A3, app_assoc.
Qed.

Lemma keepsMark_refl s : keepsMark s s.
Proof. now repeat split. Qed.

Lemma keepsMark_trans a b c : keepsMark a b -> keepsMark b c -> keepsMark a c.
Proof. intros (A1 & A2 & A3) (B1 & B2 & B3); repeat split; congruence. Qed.

(** A relation that every pass respects relates the start of a loop to what
    it returns. *)
Lemma loop_related {S R : Type} (rel : S -> S -> Prop) (body : S -> Step S R)
  (proj : R -> S) :
  (forall s, rel s s) ->
  (forall a b c, rel a b -> rel b c -> rel a c) ->
  (forall s s', body s = Continue s' -> rel s s') ->
  (forall s r, body s = Break r -> rel s (proj r)) ->
  forall fuel s r, loop body fuel s = Some r -> rel s (proj r).
Proof.
  intros Hr Ht Hc Hb fuel s r L.
  apply (loop_invariant body (rel s) (fun r => rel s (proj r)))
    with (fuel := fuel) (s := s); try exact L.
  - intros x x' K E; eapply Ht; [exact K | now apply Hc].
  - intros x y K E; eapply Ht; [exact K | now apply Hb].
  - apply Hr.
Qed.

Lemma tokenFrame_refl s : tokenFrame s s.
Proof. split; [apply extends_refl | apply keepsMark_refl]. Qed.

Lemma tokenFrame_trans a b c :
  tokenFrame a b -> tokenFrame b c -> tokenFrame a c.
Proof.
  intros [A1 A2] [B1 B2]; split;
    [eapply extends_trans | eapply keepsMark_trans]; eassumption.
Qed.

(** Solves a frame goal whose right-hand state is built from the left-hand
    one by the setters. *)
Ltac frame_now :=
  unfold tokenFrame, extends, keepsMark, stringBuffer_append, addError,
    addTrivia, advance, mark, consume;
  repeat match goal with
         | |- context [if ?b then _ else _] => destruct b
         end;
  simpl; repeat split;
  try reflexivity;
  first [ exists []; now rewrite app_nil_r
        | eexists; rewrite <- ?app_assoc; reflexivity ].

(** The same with one step recorded in a hypothesis, before or after. *)
Ltac frame :=
  first
    [ frame_now
    | match goal with
      | H : tokenFrame _ _ |- tokenFrame _ _ =>
          first [ eapply tokenFrame_trans; [exact H | frame_now]
                | eapply tokenFrame_trans; [frame_now | exact H] ]
      | H : extends _ _ |- extends _ _ =>
          first [ eapply extends_trans; [exact H | frame_now]
                | eapply extends_trans; [frame_now | exact H] ]
      end ].

Lemma scanIdentifier_frame fuel st st' :
  scanIdentifier fuel st = Some st' -> tokenFrame st st'.
Proof.
  apply (loop_related tokenFrame scanIdentifier_body (fun s => s)
           tokenFrame_refl tokenFrame_trans);
    intros s r; unfold scanIdentifier_body;
    destruct (_ || _); intros E; inversion E; subst; frame.
Qed.

Lemma lexStringEscape_frame c st : tokenFrame st (lexStringEscape c st).
Proof.
  destruct c as [[] [] [] [] [] [] [] []];
    cbv beta iota delta [lexStringEscape];
    try (unfold lexOctalEscape); try (unfold lexHexEscape); frame.
Qed.

Ltac split_ifs :=
  repeat match goal with
         | |- context [if ?b then _ else _] => destruct b
         end.

Lemma lexStringLiteral_frame fuel st info st' :
  lexStringLiteral fuel st = Some (info, st') -> tokenFrame st st'.
Proof.
  unfold lexStringLiteral.
  destruct (loop _ _ _) as [s|] eqn:L; [|discriminate].
  intros E; inversion E; subst; clear E.
  apply (loop_related tokenFrame lexStringLiteral_body (fun s => s)
           tokenFrame_refl tokenFrame_trans) in L.
  - frame.
  - intros s r; unfold lexStringLiteral_body.
    split_ifs; intros E; inversion E; subst; try (frame; fail).
    eapply tokenFrame_trans; [|apply lexStringEscape_frame]. frame.
  - intros s r; unfold lexStringLiteral_body.
    split_ifs; intros E; inversion E; subst; frame.
Qed.

Lemma lexEscapeSequence_frame fuel st k d st' :
  lexEscapeSequence fuel st = Some (k, d, st') -> tokenFrame st st'.
Proof.
  unfold lexEscapeSequence. destruct (_ || _).
  - intros E; inversion E; subst; frame.
  - destruct (loop _ _ _) as [s|] eqn:L; [|discriminate].
    intros E; inversion E; subst; clear E.
    apply (loop_invariant lexEscapeSequence_body
             (fun x => tokenFrame st (snd x)) (fun r => tokenFrame st r))
      with (fuel := fuel) (s := (peek 0 st, st)); try exact L.
    + intros [c x] [c' x'] K; unfold lexEscapeSequence_body.
      destruct (isPrintable c); [|discriminate].
      destruct (isWhitespace _); [discriminate|].
      intros E; inversion E; subst; simpl in *; frame.
    + intros [c x] r K; unfold lexEscapeSequence_body.
      destruct (isPrintable c); [destruct (isWhitespace _)|];
        intros E; inversion E; subst; simpl in *; frame.
    + apply tokenFrame_refl.
Qed.

Lemma lexDollarSign_frame fuel st k d st' :
  lexDollarSign fuel st = Some (k, d, st') -> tokenFrame st st'.
Proof.
  unfold lexDollarSign.
  destruct (scanIdentifier fuel st) as [s|] eqn:L; [|discriminate].
  apply scanIdentifier_frame in L.
  destruct (_ =? _)%nat; intros E; inversion E; subst; exact L.
Qed.

Lemma tokenFrame_tokenStep k s s' :
  k <> TokenKind.Directive -> tokenFrame s s' -> tokenStep k s s'.
Proof.
  intros N (E & M & T & D); repeat split; try assumption; try apply E.
  destruct k; try assumption; now elim N.
Qed.

Lemma scanUnsignedNumber_frame fuel c v n st r :
  scanUnsignedNumber fuel c v n st = Some r -> tokenFrame st (sn_lexer r).
Proof.
  unfold scanUnsignedNumber; intros L.
  apply (loop_related (fun a b => tokenFrame (sn_lexer a) (sn_lexer b))
           scanUnsignedNumber_body (fun s => s)) in L; try exact L.
  - intros s; apply tokenFrame_refl.
  - intros a b x; apply tokenFrame_trans.
  - intros x x'; unfold scanUnsignedNumber_body.
    destruct (isDecimalDigit _); [|destruct (negb _); [discriminate|]];
      intros E; inversion E; subst; simpl; frame.
  - intros x x'; unfold scanUnsignedNumber_body.
    destruct (isDecimalDigit _); [discriminate|].
    destruct (negb _); [|discriminate].
    intros E; inversion E; subst; apply tokenFrame_refl.
Qed.

Lemma skipZeros_frame fuel st st' :
  skipZeros fuel st = Some st' -> tokenFrame st st'.
Proof.
  apply (loop_related tokenFrame skipZeros_body (fun s => s)
           tokenFrame_refl tokenFrame_trans);
    intros s r; unfold skipZeros_body;
    destruct (Ascii.eqb _ _); intros E; inversion E; subst; frame.
Qed.

Lemma decimal_digit_value c :
  isDecimalDigit c = true -> 0 <= getDigitValue c <= 9.
Proof.
  destruct c as [[] [] [] [] [] [] [] []]; intros E; try discriminate E;
    vm_compute; split; congruence.
Qed.

Lemma scanUnsignedNumber_body_mantissa s s' :
  mantissa (sn_unsignedVal s) (sn_digits s) ->
  scanUnsignedNumber_body s = Continue s' ->
  mantissa (sn_unsignedVal s') (sn_digits s').
Proof.
  unfold scanUnsignedNumber_body, mantissa, MaxMantissaDigits.
  intros (N & V).
  destruct (isDecimalDigit (sn_c s)) eqn:D.
  - apply decimal_digit_value in D.
    intros E; inversion E; subst; clear E; cbn [sn_unsignedVal sn_digits].
    split; [lia|].
    destruct (sn_digits s <? 18) eqn:L.
    + apply Z.ltb_lt in L.
      rewrite Z.min_l in V by lia. rewrite Z.min_l by lia.
      assert (P : 10 ^ (sn_digits s + 1) = 10 * 10 ^ sn_digits s)
        by (rewrite Z.pow_add_r by lia; lia).
      assert (Q : 10 ^ (sn_digits s + 1) <= 10 ^ 18)
        by (apply Z.pow_le_mono_r; lia).
      rewrite Z.mod_small; [lia|].
      change (10 ^ 18) with 1000000000000000000 in Q.
      change (2 ^ 64) with 18446744073709551616. lia.
    + apply Z.ltb_ge in L.
      rewrite Z.min_r in V by lia. rewrite Z.min_r by lia. exact V.
  - destruct (negb _); [discriminate|].
    intros E; inversion E; subst; clear E; cbn [sn_unsignedVal sn_digits].
    split; assumption.
Qed.

Lemma scanUnsignedNumber_mantissa fuel c v n st r :
  mantissa v n ->
  scanUnsignedNumber fuel c v n st = Some r ->
  mantissa (sn_unsignedVal r) (sn_digits r).
Proof.
  unfold scanUnsignedNumber; intros M L.
  apply (loop_invariant scanUnsignedNumber_body
           (fun s => mantissa (sn_unsignedVal s) (sn_digits s))
           (fun s => mantissa (sn_unsignedVal s) (sn_digits s)))
    with (fuel := fuel) (r := r) in L; try exact L.
  - intros; eapply scanUnsignedNumber_body_mantissa; eassumption.
  - intros x x' K; unfold scanUnsignedNumber_body.
    destruct (isDecimalDigit _); [discriminate|].
    destruct (negb _); [|discriminate].
    intros E; inversion E; subst; exact K.
  - exact M.
Qed.

Lemma mantissa_start : mantissa 0 0.
Proof. unfold mantissa; simpl; lia. Qed.

Lemma toInt32_small v : 0 <= v <= INT32_MAX -> toInt32 v = v.
Proof.
  unfold toInt32, INT32_MAX. intros R.
  change (2 ^ 31) with 2147483648. change (2 ^ 32) with 4294967296.
  rewrite Z.mod_small; lia.
Qed.

Lemma lexRealLiteral_frame fuel value decPoint digits exponent st info st' :
  lexRealLiteral fuel value decPoint digits exponent st = Some (info, st') ->
  tokenFrame st st'.
Proof.
  unfold lexRealLiteral. destruct exponent.
  - destruct (skipZeros fuel (advance 1 st)) as [s|] eqn:Z; [|discriminate].
    apply skipZeros_frame in Z.
    set (signed := if Ascii.eqb (peek 0 s) "+" then (false, advance 1 s)
                   else if Ascii.eqb (peek 0 s) "-" then (true, advance 1 s)
                        else (false, s)).
    assert (Sg : tokenFrame s (snd signed))
      by (subst signed; destruct (Ascii.eqb _ _);
          [|destruct (Ascii.eqb _ _)]; frame).
    destruct signed as [neg s1]; simpl in Sg.
    assert (A : tokenFrame st s1).
    { eapply tokenFrame_trans; [|exact Sg].
      eapply tokenFrame_trans; [|exact Z]. frame. }
    destruct (negb _).
    + destruct (composeDouble _ _) as [[[] result]|];
        intros E; inversion E; subst;
        (eapply tokenFrame_trans; [exact A | frame]).
    + destruct (scanUnsignedNumber _ _ _ _ _) as [r|] eqn:N; [|discriminate].
      apply scanUnsignedNumber_frame in N.
      destruct (composeDouble _ _) as [[[] result]|];
        intros E; inversion E; subst;
        (eapply tokenFrame_trans; [exact A|]);
        (eapply tokenFrame_trans; [exact N | frame]).
  - destruct (composeDouble _ _) as [[[] result]|];
      intros E; inversion E; subst; frame.
Qed.

Lemma set_vectorBuilder_frame v s : tokenFrame s (set_vectorBuilder v s).
Proof. repeat split; exists []; simpl; now rewrite app_nil_r. Qed.

Lemma lexVectorDigits_frame P V fuel st info st' :
  lexVectorDigits P V fuel st = Some (info, st') -> tokenFrame st st'.
Proof.
  unfold lexVectorDigits.
  destruct (findNextNonWhitespace fuel st) as [la|]; [|discriminate].
  destruct (_ && _); [intros E; inversion E; subst; frame|].
  intros L.
  apply (loop_invariant (lexVectorDigits_body P V)
           (fun x => tokenFrame st x)
           (fun r : TokenData * Lexer => tokenFrame st (snd r)))
    with (fuel := fuel) (s := advance la st) (r := (info, st')) in L;
    try exact L.
  - intros x x' K E.
    destruct (lexVectorDigits_body_cases P V x) as [B|[[U C]|(d & D & C)]];
      rewrite E in *; [discriminate| |]; inversion C; subst;
      (eapply tokenFrame_trans; [exact K|]); frame.
  - intros x [i x'] K E.
    destruct (lexVectorDigits_body_cases P V x) as [B|[[U C]|(d & D & C)]];
      rewrite E in *; try discriminate. inversion B; subst; exact K.
  - frame.
Qed.

Lemma lexVectorDigitsIn_frame b fuel st info st' :
  lexVectorDigitsIn b fuel st = Some (info, st') -> tokenFrame st st'.
Proof. rewrite lexVectorDigitsIn_eq; apply lexVectorDigits_frame. Qed.

Lemma lexVectorLiteral_frame fuel size64 st info st' :
  lexVectorLiteral fuel size64 st = Some (info, st') -> tokenFrame st st'.
Proof.
  unfold lexVectorLiteral.
  destruct (size64 =? 0); [|destruct (size64 >? UINT32_MAX)];
    cbv beta iota zeta;
    (destruct (_ || _); cbv beta iota zeta;
     (destruct (baseOfChar _);
      [ intros L; apply lexVectorDigitsIn_frame in L;
        (eapply tokenFrame_trans; [|exact L]); frame
      | intros E; inversion E; subst; frame ])).
Qed.

Lemma lexUnsizedNumericLiteral_frame fuel st info st' :
  lexUnsizedNumericLiteral fuel st = Some (info, st') -> tokenFrame st st'.
Proof.
  unfold lexUnsizedNumericLiteral. cbv zeta.
  destruct (baseOfChar _).
  - intros L; apply lexVectorDigitsIn_frame in L;
      (eapply tokenFrame_trans; [|exact L]); frame.
  - destruct (peek 0 _) as [[] [] [] [] [] [] [] []];
      intros E; inversion E; subst; frame.
Qed.

Lemma tokenStep_after k a b c :
  tokenFrame a b -> tokenStep k b c -> tokenStep k a c.
Proof.
  intros (E & M & T & D) (E' & M' & T' & D'); repeat split;
    try congruence; try (eapply extends_trans; eassumption).
  destruct k; congruence.
Qed.

Lemma scanIdentifier_stops fuel st st' :
  scanIdentifier fuel st = Some st' -> identifierChar (peek 0 st') = false.
Proof.
  unfold scanIdentifier. intros L.
  apply (loop_invariant scanIdentifier_body (fun _ => True)
           (fun r => identifierChar (peek 0 r) = false))
    with (fuel := fuel) (s := st); try exact L; try exact I.
  - intros; exact I.
  - intros s r _. unfold scanIdentifier_body, identifierChar.
    destruct (_ || _) eqn:C; [discriminate|].
    intros E; inversion E; subst; exact C.
Qed.

Lemma isWhitespace_not_printable c :
  isWhitespace c = true -> isPrintable c = false.
Proof.
  destruct c as [[] [] [] [] [] [] [] []]; intros E; try discriminate E;
    reflexivity.
Qed.

Lemma lexEscapeSequence_stops fuel st st' :
  loop lexEscapeSequence_body fuel (peek 0 st, st) = Some st' ->
  isPrintable (peek 0 st') = false.
Proof.
  intros L.
  apply (loop_invariant lexEscapeSequence_body
           (fun x => fst x = peek 0 (snd x))
           (fun r => isPrintable (peek 0 r) = false))
    with (fuel := fuel) (s := (peek 0 st, st)); try exact L;
    try reflexivity.
  - intros [c s] [c' s'] K. simpl in K; subst c.
    unfold lexEscapeSequence_body.
    destruct (isPrintable _); [|discriminate].
    destruct (isWhitespace _); [discriminate|].
    intros E; inversion E; subst; reflexivity.
  - intros [c s] r K. simpl in K; subst c.
    unfold lexEscapeSequence_body.
    destruct (isPrintable (peek 0 s)) eqn:P.
    + destruct (isWhitespace _) eqn:W; [|discriminate].
      intros E; inversion E; subst. now apply isWhitespace_not_printable.
    + intros E; inversion E; subst; exact P.
Qed.

Lemma lexStringLiteral_payload fuel st info st' :
  lexStringLiteral fuel st = Some (info, st') ->
  info = StringLiteralInfo (lexeme st') (stringBuffer st').
Proof.
  unfold lexStringLiteral. destruct (loop _ _ _); [|discriminate].
  intros E; now inversion E.
Qed.

Lemma lexRealLiteral_payload fuel value decPoint digits exponent st info st' :
  lexRealLiteral fuel value decPoint digits exponent st = Some (info, st') ->
  exists v, info = NumericReal (lexeme st') v.
Proof.
  unfold lexRealLiteral.
  destruct (if exponent then _ else _) as [[[neg e] s]|]; [|discriminate].
  destruct (composeDouble _ _) as [[[] result]|];
    intros E; inversion E; eexists; reflexivity.
Qed.

Lemma lexVectorDigits_payload P V fuel st info st' :
  lexVectorDigits P V fuel st = Some (info, st') -> integerPayload info st'.
Proof.
  unfold lexVectorDigits.
  destruct (findNextNonWhitespace fuel st) as [la|]; [|discriminate].
  destruct (_ && _);
    [intros E; inversion E; split; [reflexivity | now unfold INT32_MAX]|].
  intros L.
  apply (loop_invariant (lexVectorDigits_body P V) (fun _ => True)
           (fun r : TokenData * Lexer => integerPayload (fst r) (snd r)))
    with (fuel := fuel) (s := advance la st) (r := (info, st')) in L;
    try exact L; try exact I.
  - intros; exact I.
  - intros x [i x'] _ E.
    destruct (lexVectorDigits_body_cases P V x) as [B|[[U C]|(d & D & C)]];
      rewrite E in *; try discriminate. inversion B; reflexivity.
Qed.

Lemma lexVectorLiteral_payload fuel size64 st info st' :
  lexVectorLiteral fuel size64 st = Some (info, st') ->
  integerPayload info st'.
Proof.
  unfold lexVectorLiteral.
  destruct (size64 =? 0); [|destruct (size64 >? UINT32_MAX)];
    cbv beta iota zeta;
    (destruct (_ || _); cbv beta iota zeta;
     (destruct (baseOfChar _) as [b|];
      [ rewrite lexVectorDigitsIn_eq; apply lexVectorDigits_payload
      | intros E; inversion E; split; [reflexivity | now unfold INT32_MAX] ])).
Qed.

Lemma lexUnsizedNumericLiteral_payload fuel st info st' :
  lexUnsizedNumericLiteral fuel st = Some (info, st') ->
  integerPayload info st'.
Proof.
  unfold lexUnsizedNumericLiteral. cbv zeta.
  destruct (baseOfChar _) as [b|].
  - rewrite lexVectorDigitsIn_eq; apply lexVectorDigits_payload.
  - destruct (peek 0 _) as [[] [] [] [] [] [] [] []];
      intros E; inversion E;
      first [reflexivity | split; [reflexivity | now unfold INT32_MAX]].
Qed.

Section Steps.
Context `{Externals}.

Lemma lexDollarSign_step fuel st k d st' :
  lexDollarSign fuel st = Some (k, d, st') ->
  tokenStep k st st' /\ wellFormedToken k d st'.
Proof.
  intros E; pose proof (lexDollarSign_frame _ _ _ _ _ E) as F.
  revert E; unfold lexDollarSign.
  destruct (scanIdentifier fuel st) eqn:S; [|discriminate].
  apply scanIdentifier_stops in S.
  destruct (_ =? _)%nat; intros E; inversion E; subst;
    (split; [apply tokenFrame_tokenStep; [discriminate | exact F]|]);
    simpl; auto.
Qed.

Lemma lexEscapeSequence_step fuel st k d st' :
  lexEscapeSequence fuel st = Some (k, d, st') ->
  tokenStep k st st' /\ wellFormedToken k d st'.
Proof.
  intros E; pose proof (lexEscapeSequence_frame _ _ _ _ _ E) as F.
  revert E; unfold lexEscapeSequence.
  destruct (_ || _).
  - intros E; inversion E; subst.
    split; [apply tokenFrame_tokenStep; [discriminate | exact F]|].
    simpl; auto.
  - destruct (loop _ _ _) eqn:S; [|discriminate].
    apply lexEscapeSequence_stops in S.
    intros E; inversion E; subst.
    split; [apply tokenFrame_tokenStep; [discriminate | exact F]|].
    simpl; auto.
Qed.

Lemma lexDirective_step fuel st k d st' :
  lexDirective fuel st = Some (k, d, st') ->
  tokenStep k st st' /\ wellFormedToken k d st'.
Proof.
  unfold lexDirective.
  destruct (scanIdentifier fuel st) as [s|] eqn:L; [|discriminate].
  pose proof (scanIdentifier_stops _ _ _ L) as S.
  apply scanIdentifier_frame in L.
  destruct (_ =? _)%nat.
  - intros E; inversion E; subst. split; [|simpl; auto].
    apply tokenFrame_tokenStep; [discriminate | frame].
  - destruct L as (E1 & M & T & D).
    destruct (getDirectiveKind (lexeme s)) eqn:G;
      intros E; inversion E; subst; split;
      try (repeat split; simpl; try assumption; try apply E1; auto; fail);
      simpl; rewrite ?G; repeat split; auto.
Qed.

Lemma lexNumericLiteral_step fuel st k d st' :
  lexNumericLiteral fuel st = Some (k, d, st') ->
  tokenStep k st st' /\ wellFormedToken k d st'.
Proof.
  unfold lexNumericLiteral.
  destruct (skipZeros fuel st) as [s0|] eqn:Z; [|discriminate].
  apply skipZeros_frame in Z.
  destruct (scanUnsignedNumber fuel (peek 0 s0) 0 0 s0) as [r|] eqn:N;
    [|discriminate].
  pose proof (scanUnsignedNumber_mantissa _ _ _ _ _ _ mantissa_start N)
    as (_ & V & _).
  apply scanUnsignedNumber_frame in N.
  assert (A : tokenFrame st (sn_lexer r))
    by (eapply tokenFrame_trans; eassumption).
  clear Z N.
  assert (W : forall k d st',
             (let '(unsignedVal, st0) :=
                if sn_unsignedVal r >? INT32_MAX
                then (INT32_MAX,
                      addError DiagCode.SignedLiteralTooLarge (sn_lexer r))
                else (sn_unsignedVal r, sn_lexer r) in
              Some (TokenKind.IntegerLiteral,
                    Some (NumericInt (lexeme st0) (toInt32 unsignedVal)),
                    st0)) = Some (k, d, st') ->
             tokenStep k st st' /\ wellFormedToken k d st').
  { intros k0 d0 st0.
    destruct (sn_unsignedVal r >? INT32_MAX) eqn:G;
      intros E; inversion E; subst;
      (split;
       [ apply tokenFrame_tokenStep; [discriminate|];
         (eapply tokenFrame_trans; [exact A | frame_now])
       | unfold wellFormedToken, integerPayload;
         (split; [split; [reflexivity|] | reflexivity]);
         rewrite toInt32_small ]);
      try (unfold INT32_MAX; lia);
      rewrite Z.gtb_ltb in G; apply Z.ltb_ge in G; lia. }
  destruct (findNextNonWhitespace fuel (sn_lexer r)) as [la|]; [|discriminate].
  destruct (_ && _).
  - destruct (lexVectorLiteral _ _ _) as [[i s]|] eqn:L; [|discriminate].
    pose proof (lexVectorLiteral_payload _ _ _ _ _ L) as Y.
    apply lexVectorLiteral_frame in L.
    intros E; inversion E; subst. split.
    + apply tokenFrame_tokenStep; [discriminate|].
      eapply tokenFrame_trans; [exact A|].
      eapply tokenFrame_trans; [|exact L]. frame_now.
    + destruct i; try contradiction; split; auto.
  - set (c := peek 0 (sn_lexer r)).
    assert (C : c = "'" \/ c = "." \/ c = "e" \/ c = "E" \/
                (c <> "'" /\ c <> "." /\ c <> "e" /\ c <> "E")).
    { destruct (Ascii.eqb_spec c "'"); [tauto|].
      destruct (Ascii.eqb_spec c "."); [tauto|].
      destruct (Ascii.eqb_spec c "e"); [tauto|].
      destruct (Ascii.eqb_spec c "E"); tauto. }
    destruct C as [C|[C|[C|[C|C]]]]; try rewrite C; cbv beta iota zeta.
    + destruct (lexVectorLiteral _ _ _) as [[i s]|] eqn:L; [|discriminate].
      pose proof (lexVectorLiteral_payload _ _ _ _ _ L) as Y.
      apply lexVectorLiteral_frame in L.
      intros E; inversion E; subst. split.
      * apply tokenFrame_tokenStep; [discriminate|].
        eapply tokenFrame_trans; [exact A|].
        eapply tokenFrame_trans; [|exact L]. frame_now.
      * destruct i; try contradiction; split; auto.
    + destruct (scanUnsignedNumber _ _ _ _ _) as [s|] eqn:L; [|discriminate].
      apply scanUnsignedNumber_frame in L.
      destruct (lexRealLiteral _ _ _ _ _ _) as [[i s']|] eqn:L'; [|discriminate].
      destruct (lexRealLiteral_payload _ _ _ _ _ _ _ _ L') as [v ->].
      apply lexRealLiteral_frame in L'.
      intros E; inversion E; subst. split; [|simpl; auto].
      apply tokenFrame_tokenStep; [discriminate|].
      eapply tokenFrame_trans; [exact A|].
      eapply tokenFrame_trans; [|exact L'].
      eapply tokenFrame_trans; [|exact L]. frame_now.
    + destruct (lexRealLiteral _ _ _ _ _ _) as [[i s']|] eqn:L'; [|discriminate].
      destruct (lexRealLiteral_payload _ _ _ _ _ _ _ _ L') as [v ->].
      apply lexRealLiteral_frame in L'.
      intros E; inversion E; subst. split; [|simpl; auto].
      apply tokenFrame_tokenStep; [discriminate|].
      eapply tokenFrame_trans; [exact A | exact L'].
    + destruct (lexRealLiteral _ _ _ _ _ _) as [[i s']|] eqn:L'; [|discriminate].
      destruct (lexRealLiteral_payload _ _ _ _ _ _ _ _ L') as [v ->].
      apply lexRealLiteral_frame in L'.
      intros E; inversion E; subst. split; [|simpl; auto].
      apply tokenFrame_tokenStep; [discriminate|].
      eapply tokenFrame_trans; [exact A | exact L'].
    + destruct C as (C1 & C2 & C3 & C4).
      destruct c as [[] [] [] [] [] [] [] []]; try congruence;
        cbv beta iota zeta; exact (W k d st').
Qed.

(** The dispatch keeps the buffer, the mark and the trivia, only adds
    diagnostics, changes the mode only with a Directive token, and builds a
    well-formed token. *)
Lemma lexToken_step fuel st k d st' :
  lexToken fuel st = Some (k, d, st') ->
  tokenStep k st st' /\ wellFormedToken k d st'.
Proof.
  assert (A : tokenFrame st (advance 1 st)) by frame_now.
  assert (B : tokenFrame st (set_sourceBuffer (sourceBuffer (advance 1 st) - 1) (advance 1 st)))
    by (repeat split; exists []; simpl; now rewrite app_nil_r).
  unfold lexToken.
  destruct (peek 0 st) as [[] [] [] [] [] [] [] []] eqn:P;
    cbv beta iota zeta.
  all: try (unfold plain, unknownToken; intros E; inversion E; subst;
            (split; [|simpl; auto]);
            (apply tokenFrame_tokenStep; [discriminate | frame_now]); fail).
  all: try (intros E; apply lexDollarSign_step in E; destruct E as [E Y];
            exact (conj (tokenStep_after _ _ _ _ A E) Y)).
  all: try (intros E; apply lexEscapeSequence_step in E; destruct E as [E Y];
            exact (conj (tokenStep_after _ _ _ _ A E) Y)).
  all: try (intros E; apply lexNumericLiteral_step in E; destruct E as [E Y];
            exact (conj (tokenStep_after _ _ _ _ B E) Y)).
  all: try (destruct (scanIdentifier _ _) as [x|] eqn:W; [|discriminate];
            pose proof (scanIdentifier_stops _ _ _ W) as Y;
            apply scanIdentifier_frame in W;
            intros E; inversion E; subst;
            (split; [|simpl; auto]);
            (apply tokenFrame_tokenStep; [discriminate|]);
            eapply tokenFrame_trans; [exact A | exact W]).
  all: try (destruct (lexStringLiteral _ _) as [[i x]|] eqn:W; [|discriminate];
            pose proof (lexStringLiteral_payload _ _ _ _ W) as Y;
            apply lexStringLiteral_frame in W;
            intros E; inversion E; subst;
            (split; [|simpl; auto]);
            (apply tokenFrame_tokenStep; [discriminate|]);
            eapply tokenFrame_trans; [exact A | exact W]).
  all: clear A B; unfold consume;
    repeat (match goal with
            | |- context [lexUnsizedNumericLiteral ?a ?b] =>
                let W := fresh "W" in
                let Y := fresh "Y" in
                destruct (lexUnsizedNumericLiteral a b) as [[? ?]|] eqn:W;
                [pose proof (lexUnsizedNumericLiteral_payload _ _ _ _ W) as Y;
                 apply lexUnsizedNumericLiteral_frame in W|]
            | |- context [if ?x then _ else _] => destruct x
            | |- context [match ?x with _ => _ end] =>
                match type of x with
                | ascii => destruct x as [[] [] [] [] [] [] [] []]
                end
            end; cbv beta iota zeta);
    unfold plain, unknownToken;
    intros E;
    first [ apply lexDirective_step in E; destruct E as [E Y];
            refine (conj (tokenStep_after _ _ _ _ _ E) Y); frame_now
          | inversion E; subst;
            (split;
             [ (apply tokenFrame_tokenStep; [discriminate|]);
               first [ frame_now
                     | match goal with
                       | W : tokenFrame _ ?b |- tokenFrame _ ?b =>
                           eapply tokenFrame_trans; [|exact W]; frame_now
                       end ]
             | first [ exact I
                     | simpl; auto; fail
                     | match goal with
                       | Y : integerPayload ?i _ |- _ =>
                           destruct i; try contradiction; split; auto
                       end ] ]) ].
Qed.
End Steps.

(** ** What the trivia scanners keep *)

Lemma triviaStep_refl s : triviaStep s s.
Proof. split; [apply extends_refl | now left]. Qed.

Lemma triviaStep_trans a b c :
  triviaStep a b -> triviaStep b c -> triviaStep a c.
Proof.
  intros [A1 A2] [B1 B2]; split; [eapply extends_trans; eassumption|].
  destruct B2 as [B2|B2]; [rewrite B2; exact A2 | now right].
Qed.

Ltac trivia_now :=
  unfold triviaStep, extends, stringBuffer_append, addError,
    addTrivia, advance, mark, consume;
  repeat match goal with
         | |- context [if ?b then _ else _] => destruct b
         end;
  simpl; repeat split;
  try reflexivity; try (now left); try (now right);
  first [ exists []; now rewrite app_nil_r
        | eexists; rewrite <- ?app_assoc; reflexivity ].

Lemma scanWhitespace_step fuel st st' :
  scanWhitespace fuel st = Some st' -> triviaStep st st'.
Proof.
  unfold scanWhitespace.
  destruct (loop _ _ _) as [s|] eqn:L; [|discriminate].
  intros E; inversion E; subst; clear E.
  apply (loop_related triviaStep scanWhitespace_body (fun s => s)
           triviaStep_refl triviaStep_trans) in L.
  - eapply triviaStep_trans; [exact L | trivia_now].
  - intros x r; unfold scanWhitespace_body.
    destruct (peek 0 x) as [[] [] [] [] [] [] [] []];
      intros E; inversion E; subst; trivia_now.
  - intros x r; unfold scanWhitespace_body.
    destruct (peek 0 x) as [[] [] [] [] [] [] [] []];
      intros E; inversion E; subst; trivia_now.
Qed.

Lemma scanLineComment_step fuel st st' :
  scanLineComment fuel st = Some st' -> triviaStep st st'.
Proof.
  unfold scanLineComment.
  destruct (loop _ _ _) as [s|] eqn:L; [|discriminate].
  intros E; inversion E; subst; clear E.
  apply (loop_related triviaStep scanLineComment_body (fun s => s)
           triviaStep_refl triviaStep_trans) in L.
  - eapply triviaStep_trans; [exact L | trivia_now].
  - intros x r; unfold scanLineComment_body.
    split_ifs; intros E; inversion E; subst; trivia_now.
  - intros x r; unfold scanLineComment_body.
    split_ifs; intros E; inversion E; subst; trivia_now.
Qed.

(** The block-comment scanner raises its flag only outside Normal mode, and
    leaves Normal mode as it is. *)
Lemma scanBlockComment_step fuel st eod st' :
  scanBlockComment fuel st = Some (eod, st') ->
  triviaStep st st' /\
  (mode st = LexingMode.Normal -> eod = false).
Proof.
  unfold scanBlockComment.
  destruct (loop _ _ _) as [[e s]|] eqn:L; [|discriminate].
  intros E; inversion E; subst; clear E.
  apply (loop_invariant scanBlockComment_body
           (fun x => triviaStep st (snd x) /\
                     (mode st = LexingMode.Normal ->
                      fst x = false /\ mode (snd x) = LexingMode.Normal))
           (fun x => triviaStep st (snd x) /\
                     (mode st = LexingMode.Normal -> fst x = false)))
    with (fuel := fuel) (s := (false, st)) in L.
  - simpl in L. destruct L as [L1 L2]. split; [|exact L2].
    eapply triviaStep_trans; [exact L1 | trivia_now].
  - intros [b x] [b' x'] [K1 K2]; unfold scanBlockComment_body; simpl in *.
    destruct (Ascii.eqb (peek 0 x) NUL).
    + destruct (reallyAtEnd x); [discriminate|].
      intros E; inversion E; subst; split;
        [eapply triviaStep_trans; [exact K1 | trivia_now] | exact K2].
    + destruct (Ascii.eqb (peek 0 x) "*" && Ascii.eqb (peek 1 x) "/");
        [discriminate|].
      destruct (Ascii.eqb (peek 0 x) "/" && Ascii.eqb (peek 1 x) "*").
      * intros E; inversion E; subst; split;
          [eapply triviaStep_trans; [exact K1 | trivia_now] | exact K2].
      * destruct (negb (LexingMode.isNormal (mode x))
                  && isNewline (peek 0 x)) eqn:C;
          intros E; inversion E; subst; split;
          try (eapply triviaStep_trans; [exact K1 | trivia_now]);
          try exact K2.
        intros N; destruct (K2 N) as [_ M].
        rewrite M in C; discriminate C.
  - intros [b x] [b' x'] [K1 K2]; unfold scanBlockComment_body; simpl in *.
    destruct (Ascii.eqb (peek 0 x) NUL).
    + destruct (reallyAtEnd x); [|discriminate].
      intros E; inversion E; subst; split;
        [eapply triviaStep_trans; [exact K1 | trivia_now]
        | intros N; now apply K2].
    + destruct (Ascii.eqb (peek 0 x) "*" && Ascii.eqb (peek 1 x) "/").
      * intros E; inversion E; subst; split;
          [eapply triviaStep_trans; [exact K1 | trivia_now]
          | intros N; now apply K2].
      * destruct (Ascii.eqb (peek 0 x) "/" && Ascii.eqb (peek 1 x) "*");
          [discriminate|].
        destruct (negb (LexingMode.isNormal (mode x))
                  && isNewline (peek 0 x)); discriminate.
  - simpl; split; [apply triviaStep_refl | now split].
Qed.

Lemma mark_step st : triviaStep st (mark st).
Proof. trivia_now. Qed.

Lemma lexTrivia_body_step inner st r :
  lexTrivia_body inner st = Some r ->
  match r with
  | Continue s => triviaStep st s
  | Break (b, s) =>
      triviaStep st s /\
      (mode st = LexingMode.Normal -> b = false) /\
      (b = false -> atToken s)
  end.
Proof.
  unfold lexTrivia_body.
  destruct (peek 0 (mark st)) as [[] [] [] [] [] [] [] []] eqn:P0;
    cbv beta iota zeta;
    try match goal with
        | |- context [peek 1 (mark st)] =>
            destruct (peek 1 (mark st)) as [[] [] [] [] [] [] [] []] eqn:P1;
            cbv beta iota zeta
        end;
    repeat match goal with
    | |- context [scanWhitespace ?a ?b] =>
        let W := fresh "W" in
        destruct (scanWhitespace a b) eqn:W;
        [apply scanWhitespace_step in W|]
    | |- context [scanLineComment ?a ?b] =>
        let W := fresh "W" in
        destruct (scanLineComment a b) eqn:W;
        [apply scanLineComment_step in W|]
    | |- context [scanBlockComment ?a ?b] =>
        let W := fresh "W" in
        destruct (scanBlockComment a b) as [[[] ?]|] eqn:W;
        [apply scanBlockComment_step in W; destruct W as [W W']
        |apply scanBlockComment_step in W; destruct W as [W W']|]
    | |- context [if ?x then _ else _] => destruct x eqn:?
    end;
    intros E; inversion E; subst; clear E;
    try (eapply triviaStep_trans; [|eassumption]; trivia_now; fail);
    try (split; [|split];
         [ first [ trivia_now
                 | eapply triviaStep_trans; [|eassumption]; trivia_now ]
         | try (intros _; reflexivity); try discriminate
         | try discriminate; intros _; unfold atToken;
           rewrite P0; try rewrite P1;
           split; [reflexivity | split; [|reflexivity]];
           intros Q; try discriminate Q; split; discriminate ]; fail).
  all: try (trivia_now; fail).
  all: split; [|split]; try discriminate.
  all: try (trivia_now; fail).
  all: try (eapply triviaStep_trans; [|eassumption]; trivia_now; fail).
  all: intros N; try (apply W'; exact N).
  all: match goal with
       | C : negb (LexingMode.isNormal _) = true |- _ =>
           unfold consume in C; simpl in C;
           repeat match type of C with
                  | context [if ?b then _ else _] => destruct b
                  end;
           simpl in C; rewrite N in C; discriminate C
       end.
Qed.

(** Trivia scanning keeps the buffer and the diagnostics already recorded;
    in Normal mode it stays in Normal mode and never raises the
    end-of-directive flag; and when the flag is not raised it stops on a
    byte that starts no trivia, with the mark on it. *)
Lemma lexTrivia_step fuel st b st' :
  lexTrivia fuel st = Some (b, st') ->
  triviaStep st st' /\
  (mode st = LexingMode.Normal -> b = false) /\
  (b = false -> atToken st').
Proof.
  unfold lexTrivia. generalize fuel at 1 as inner.
  intros inner; revert st.
  induction fuel as [|fuel IH]; intros st; simpl; [discriminate|].
  destruct (lexTrivia_body inner st) as [[s|[e s]]|] eqn:B; [| |discriminate].
  - intros L; apply IH in L. apply lexTrivia_body_step in B.
    destruct L as (L1 & L2 & L3). split; [|split].
    + eapply triviaStep_trans; eassumption.
    + intros N; apply L2. destruct B as [_ [M|M]]; congruence.
    + exact L3.
  - intros L; inversion L; subst; clear L.
    now apply lexTrivia_body_step in B.
Qed.

(** ** Trivia and lexeme cover the bytes consumed *)

Lemma substring_nothing (n : nat) (s : string) :
  String.substring n 0 s = EmptyString.
Proof.
  revert n; induction s as [|c s IH]; intros [|n]; simpl; auto.
Qed.

Lemma substring_app (s : string) (a b c : nat) :
  (a <= b)%nat -> (b <= c)%nat ->
  (String.substring a (b - a) s ++ String.substring b (c - b) s)%string
  = String.substring a (c - a) s.
Proof.
  revert a b c; induction s as [|x s IH]; intros a b c Hab Hbc.
  - assert (E : forall n m, String.substring n m EmptyString = EmptyString)
      by (intros [|n] [|m]; reflexivity).
    now rewrite !E.
  - destruct a as [|a].
    + destruct b as [|b].
      * simpl. reflexivity.
      * rewrite Nat.sub_0_r. destruct c as [|c]; [lia|].
        rewrite Nat.sub_0_r. simpl. f_equal.
        specialize (IH 0%nat b c). rewrite !Nat.sub_0_r in IH.
        apply IH; lia.
    + destruct b as [|b]; [lia|]. destruct c as [|c]; [lia|].
      simpl. apply IH; lia.
Qed.

Lemma triviaText_app (a b : list Trivia) :
  triviaText (a ++ b) = (triviaText a ++ triviaText b)%string.
Proof.
  induction a as [|t a IH]; simpl; [reflexivity|].
  rewrite IH. clear IH.
  induction (trivia_text t) as [|c x IHx]; simpl; [reflexivity|].
  now rewrite IHx.
Qed.

Lemma string_app_nil (s : string) : (s ++ EmptyString)%string = s.
Proof. induction s as [|c s IH]; simpl; [reflexivity | now rewrite IH]. Qed.

Lemma covered_add start st s' k :
  covered start st ->
  source s' = source st ->
  marker s' = sourceBuffer st ->
  triviaBuffer s'
  = triviaBuffer st ++ [{| trivia_kind := k; trivia_text := lexeme s' |}] ->
  (sourceBuffer st <= sourceBuffer s')%nat ->
  covered start s'.
Proof.
  intros [C1 C2] S M T B. split; [lia|].
  rewrite T, triviaText_app, C2. simpl. rewrite string_app_nil.
  unfold lexeme, lexemeLength. rewrite M, S.
  apply substring_app; assumption.
Qed.

Lemma sameMark_refl s : sameMark s s.
Proof. now repeat split. Qed.

Lemma sameMark_trans a b c : sameMark a b -> sameMark b c -> sameMark a c.
Proof. intros (A1 & A2 & A3) (B1 & B2 & B3); repeat split; congruence. Qed.

Ltac same_now :=
  unfold sameMark, addError, advance; simpl; repeat split; reflexivity.

Lemma sameMark_added k s s' :
  sameMark s s' -> triviaAdded k s (addTrivia k s').
Proof.
  intros (A1 & A2 & A3). unfold triviaAdded, addTrivia; simpl.
  repeat split; try assumption. now rewrite A3.
Qed.

Lemma scanWhitespace_added fuel st st' :
  scanWhitespace fuel st = Some st' ->
  triviaAdded TriviaKind.Whitespace st st'.
Proof.
  unfold scanWhitespace.
  destruct (loop _ _ _) as [s|] eqn:L; [|discriminate].
  intros E; inversion E; subst; clear E.
  apply sameMark_added.
  apply (loop_related sameMark scanWhitespace_body (fun s => s)
           sameMark_refl sameMark_trans) in L; [exact L| |];
    intros x r; unfold scanWhitespace_body;
    destruct (peek 0 x) as [[] [] [] [] [] [] [] []];
    intros E; inversion E; subst; same_now.
Qed.

Lemma scanLineComment_added fuel st st' :
  scanLineComment fuel st = Some st' ->
  triviaAdded TriviaKind.LineComment st st'.
Proof.
  unfold scanLineComment.
  destruct (loop _ _ _) as [s|] eqn:L; [|discriminate].
  intros E; inversion E; subst; clear E.
  apply sameMark_added.
  apply (loop_related sameMark scanLineComment_body (fun s => s)
           sameMark_refl sameMark_trans) in L; [exact L| |];
    intros x r; unfold scanLineComment_body;
    split_ifs; intros E; inversion E; subst; same_now.
Qed.

Lemma scanBlockComment_added fuel st eod st' :
  scanBlockComment fuel st = Some (eod, st') ->
  triviaAdded TriviaKind.BlockComment st st'.
Proof.
  unfold scanBlockComment.
  destruct (loop _ _ _) as [[e s]|] eqn:L; [|discriminate].
  intros E; inversion E; subst; clear E.
  apply sameMark_added.
  apply (loop_invariant scanBlockComment_body
           (fun x => sameMark st (snd x)) (fun x => sameMark st (snd x)))
    with (fuel := fuel) (s := (false, st)) in L; [exact L| | |];
    try (apply sameMark_refl);
    intros [b x] [b' x'] K; unfold scanBlockComment_body;
    split_ifs; intros E; inversion E; subst;
    (eapply sameMark_trans; [exact K|]); same_now.
Qed.

Lemma lexTrivia_body_covers start inner st r :
  covered start st ->
  lexTrivia_body inner st = Some r ->
  covered start (match r with Continue s => s | Break (_, s) => s end).
Proof.
  intros C.
  assert (C0 : covered start (mark st)) by exact C.
  assert (A : forall n k s',
             triviaAdded k (advance n (mark st)) s' ->
             notBehind (advance n (mark st)) s' -> covered start s').
  { intros n k s' (A1 & A2 & A3) B.
    apply (covered_add start st s' k C A1 A2 A3).
    unfold notBehind in B; simpl in B; lia. }
  unfold lexTrivia_body.
  destruct (peek 0 (mark st)) as [[] [] [] [] [] [] [] []];
    cbv beta iota zeta;
    try match goal with
        | |- context [peek 1 (mark st)] =>
            destruct (peek 1 (mark st)) as [[] [] [] [] [] [] [] []];
            cbv beta iota zeta
        end;
    repeat match goal with
    | |- context [scanWhitespace ?a ?b] =>
        let W := fresh "W" in
        destruct (scanWhitespace a b) eqn:W;
        [pose proof (scanWhitespace_added _ _ _ W);
         apply scanWhitespace_notBehind in W|]
    | |- context [scanLineComment ?a ?b] =>
        let W := fresh "W" in
        destruct (scanLineComment a b) eqn:W;
        [pose proof (scanLineComment_added _ _ _ W);
         apply scanLineComment_notBehind in W|]
    | |- context [scanBlockComment ?a ?b] =>
        let W := fresh "W" in
        destruct (scanBlockComment a b) as [[[] ?]|] eqn:W;
        [pose proof (scanBlockComment_added _ _ _ _ W);
         apply scanBlockComment_notBehind in W
        |pose proof (scanBlockComment_added _ _ _ _ W);
         apply scanBlockComment_notBehind in W|]
    | |- context [if ?x then _ else _] => destruct x eqn:?
    end;
    intros E; inversion E; subst; clear E;
    try exact C0;
    try (eapply A; eassumption).
  all: try (apply (covered_add start st _ TriviaKind.EndOfLine C);
            unfold consume;
            repeat match goal with
                   | |- context [if ?b then _ else _] => destruct b
                   end; simpl; try reflexivity; lia).
  all: match goal with
       | N : _ || _ = false |- _ =>
           simpl in N; rewrite orb_true_r in N; discriminate N
       end.
Qed.

Lemma lexTrivia_covers start fuel st b st' :
  covered start st ->
  lexTrivia fuel st = Some (b, st') -> covered start st'.
Proof.
  unfold lexTrivia. generalize fuel at 1 as inner.
  intros inner; revert st.
  induction fuel as [|fuel IH]; intros st C; simpl; [discriminate|].
  destruct (lexTrivia_body inner st) as [[s|[e s]]|] eqn:B; [| |discriminate].
  - intros L; apply IH in L; [exact L|].
    exact (lexTrivia_body_covers _ _ _ _ C B).
  - intros L; inversion L; subst; clear L.
    exact (lexTrivia_body_covers _ _ _ _ C B).
Qed.

Section LexFacts.
Context `{Externals}.

(** X1. A call of [lex] that returns has left the buffer and its end pointer
    as they were, and has only added diagnostics after those already
    recorded. *)
Theorem lex_keeps_buffer_and_diagnostics fuel st t st' :
  lex fuel st = Returned t st' ->
  source st' = source st /\ sourceEnd st' = sourceEnd st /\
  exists new, diagnostics st' = diagnostics st ++ new.
Proof.
  unfold lex. destruct (reallyAtEnd st); [discriminate|].
  destruct (lexTrivia _ _) as [[b s]|] eqn:T; [|discriminate].
  apply lexTrivia_step in T. destruct T as [[T _] _].
  destruct (lexToken _ _) as [[[k d] s']|] eqn:K; [|discriminate].
  apply lexToken_step in K. destruct K as [[K _] _].
  intros E; inversion E; subst.
  change (extends st st').
  eapply extends_trans; [|exact K].
  eapply extends_trans; [|eapply extends_trans; [exact T|]]; frame_now.
Qed.

(** X2. Nothing is lost: the texts of the trivia of the returned token,
    followed by the lexeme of the token, are exactly the bytes the call has
    moved the cursor over; and the lexeme is not empty. *)
Theorem lex_is_lossless fuel st t st' :
  lex fuel st = Returned t st' ->
  (triviaText (trivia t) ++ lexeme st')%string
  = String.substring (sourceBuffer st) (sourceBuffer st' - sourceBuffer st)
      (source st) /\
  (sourceBuffer st <= marker st' < sourceBuffer st')%nat.
Proof.
  unfold lex. destruct (reallyAtEnd st); [discriminate|].
  destruct (lexTrivia _ _) as [[b s]|] eqn:T; [|discriminate].
  assert (C : covered (sourceBuffer st) (set_triviaBuffer [] st)).
  { split; [simpl; lia|]. simpl. rewrite Nat.sub_diag.
    now rewrite substring_nothing. }
  pose proof (lexTrivia_covers _ _ _ _ _ C T) as [C1 C2].
  apply lexTrivia_step in T. destruct T as [[(S1 & _) _] _].
  destruct (lexToken _ _) as [[[k d] s']|] eqn:K; [|discriminate].
  pose proof (lexToken_advances _ _ _ _ _ K) as Adv.
  apply lexToken_step in K.
  destruct K as [((S2 & _) & M & B & _) _].
  intros E; inversion E; subst. simpl in *.
  rewrite B, C2. unfold lexeme, lexemeLength. rewrite M, S2, S1.
  split; [|lia]. apply substring_app; lia.
Qed.

(** X3. The token [lex] returns is well formed: its payload has the type
    that goes with its kind (none for punctuation, and never the kind
    EndOfDirective), the raw text of the payload is the lexeme, a string
    literal carries the decoded text, and a directive payload carries the
    kind that the directive table gives for the lexeme, which decides between
    MacroUsage and Directive and between the Include and Directive modes. *)
Theorem lex_token_is_well_formed fuel st t st' :
  lex fuel st = Returned t st' ->
  wellFormedToken (kind t) (data t) st'.
Proof.
  unfold lex. destruct (reallyAtEnd st); [discriminate|].
  destruct (lexTrivia _ _) as [[b s]|]; [|discriminate].
  destruct (lexToken _ _) as [[[k d] s']|] eqn:K; [|discriminate].
  apply lexToken_step in K. destruct K as [_ K].
  intros E; inversion E; subst. exact K.
Qed.

(** X4. The mode after a call: a Directive token leaves the lexer in
    Directive or Include mode; after any other token the mode is the one
    before the call or Normal, so a lexer in Normal mode stays there. *)
Theorem lex_mode_changes fuel st t st' :
  lex fuel st = Returned t st' ->
  match kind t with
  | TokenKind.Directive =>
      mode st' = LexingMode.Directive \/ mode st' = LexingMode.Include
  | _ => mode st' = mode st \/ mode st' = LexingMode.Normal
  end.
Proof.
  unfold lex. destruct (reallyAtEnd st); [discriminate|].
  destruct (lexTrivia _ _) as [[b s]|] eqn:T; [|discriminate].
  apply lexTrivia_step in T. destruct T as [[_ T] _].
  destruct (lexToken _ _) as [[[k d] s']|] eqn:K; [|discriminate].
  apply lexToken_step in K. destruct K as [(_ & _ & _ & K) _].
  intros E; inversion E; subst. simpl in *.
  destruct k; simpl; try exact K; rewrite K; exact T.
Qed.

(** X5. In Normal mode all leading trivia go to the token: the byte the
    lexeme starts with is neither whitespace nor a newline, and it does not
    open a comment. *)
Theorem lex_normal_token_starts_after_trivia fuel st t st' :
  mode st = LexingMode.Normal ->
  lex fuel st = Returned t st' ->
  let start := set_sourceBuffer (marker st') st' in
  isWhitespace (peek 0 start) = false /\
  (peek 0 start = "/" -> peek 1 start <> "/" /\ peek 1 start <> "*").
Proof.
  intros N. unfold lex. destruct (reallyAtEnd st); [discriminate|].
  destruct (lexTrivia _ _) as [[b s]|] eqn:T; [|discriminate].
  apply lexTrivia_step in T. destruct T as (_ & T1 & T2).
  specialize (T1 N); subst b. destruct (T2 eq_refl) as (W & C & M).
  destruct (lexToken _ _) as [[[k d] s']|] eqn:K; [|discriminate].
  apply lexToken_step in K. destruct K as [((S & _) & Mk & _) _].
  intros E; inversion E; subst. simpl in *.
  unfold peek in *; simpl in *. rewrite Mk, S. split; assumption.
Qed.

End LexFacts.

(** ** Termination on a tame buffer *)

Lemma nulFree_get n : forall s i,
  nulFree n s = true -> (i < n)%nat ->
  exists c, String.get i s = Some c /\ c <> NUL.
Proof.
  induction n as [|n IH]; intros s i E L; [lia|].
  destruct s as [|c s]; simpl in E; [discriminate|].
  apply andb_true_iff in E. destruct E as [E1 E2].
  destruct i as [|i]; simpl.
  - exists c; split; [reflexivity|].
    intros ->. discriminate E1.
  - apply IH; [exact E2 | lia].
Qed.

Lemma clean_nul_at_end st :
  cleanBuffer st -> peek 0 st = NUL -> reallyAtEnd st = true.
Proof.
  intros C P. unfold reallyAtEnd. apply Nat.leb_le.
  destruct (Nat.le_gt_cases (sourceEnd st) (sourceBuffer st)) as [L|L];
    [exact L|].
  destruct (nulFree_get _ _ _ C L) as (c & G & N).
  unfold peek in P. rewrite Nat.add_0_r, G in P. contradiction.
Qed.

Lemma ready_extends fuel s s' : extends s s' -> ready fuel s -> ready fuel s'.
Proof.
  intros (S & E & _) [C F]. unfold ready, cleanBuffer. now rewrite S, E.
Qed.

Lemma ready_step fuel s s' : triviaStep s s' -> ready fuel s -> ready fuel s'.
Proof. intros [E _]; now apply ready_extends. Qed.

(** A loop that consumes a byte other than NUL on every pass leaves within
    as many passes as the buffer has bytes. *)
Lemma scan_loop_returns {R : Type} (body : Lexer -> Step Lexer R)
  (I : Lexer -> Prop) :
  (forall s s', I s -> body s = Continue s' ->
     I s' /\ source s' = source s /\ peek 0 s <> NUL /\
     (sourceBuffer s < sourceBuffer s')%nat) ->
  forall fuel s, I s -> (String.length (source s) < fuel)%nat ->
  exists r, loop body fuel s = Some r.
Proof.
  intros Hstep fuel s Hs F.
  apply loop_terminates with (I := I)
    (m := fun s => (String.length (source s) - sourceBuffer s)%nat);
    [|exact Hs|lia].
  intros x x' Hx E. destruct (Hstep _ _ Hx E) as (Hx' & S & P & B).
  split; [exact Hx'|]. apply peek_inside in P. rewrite S. lia.
Qed.

Ltac not_nul :=
  match goal with
  | C : _ = true |- ?c <> NUL =>
      let Q := fresh in intros Q; rewrite Q in C; discriminate C
  | C : _ = false |- ?c <> NUL =>
      let Q := fresh in intros Q; rewrite Q in C; discriminate C
  end.

Lemma scanIdentifier_returns fuel st :
  (String.length (source st) < fuel)%nat ->
  exists st', scanIdentifier fuel st = Some st'.
Proof.
  apply (scan_loop_returns scanIdentifier_body (fun _ => True)); [|exact I].
  intros s s' _. unfold scanIdentifier_body.
  destruct (_ || _) eqn:C; [|discriminate].
  intros E; inversion E; subst; simpl.
  repeat split; [not_nul | lia].
Qed.

Lemma skipZeros_returns fuel st :
  (String.length (source st) < fuel)%nat ->
  exists st', skipZeros fuel st = Some st'.
Proof.
  apply (scan_loop_returns skipZeros_body (fun _ => True)); [|exact I].
  intros s s' _. unfold skipZeros_body.
  destruct (Ascii.eqb _ _) eqn:C; [|discriminate].
  intros E; inversion E; subst; simpl.
  repeat split; [not_nul | lia].
Qed.

Lemma scanWhitespace_returns fuel st :
  (String.length (source st) < fuel)%nat ->
  exists st', scanWhitespace fuel st = Some st'.
Proof.
  intros F. unfold scanWhitespace.
  destruct (scan_loop_returns scanWhitespace_body (fun _ => True))
    with (fuel := fuel) (s := st) as [r ->]; [|exact I|exact F|eexists; reflexivity].
  intros s s' _. unfold scanWhitespace_body.
  destruct (peek 0 s) as [[] [] [] [] [] [] [] []] eqn:C;
    intros E; inversion E; subst; simpl;
    (repeat split; [discriminate | lia]).
Qed.

Lemma scanLineComment_returns fuel st :
  ready fuel st -> exists st', scanLineComment fuel st = Some st'.
Proof.
  intros [C F]. unfold scanLineComment.
  destruct (scan_loop_returns scanLineComment_body cleanBuffer)
    with (fuel := fuel) (s := st) as [r ->];
    [|exact C|exact F|eexists; reflexivity].
  intros s s' K. unfold scanLineComment_body.
  destruct (isNewline _); [discriminate|].
  destruct (Ascii.eqb_spec (peek 0 s) NUL) as [Q|Q].
  - now rewrite (clean_nul_at_end _ K Q).
  - intros E; inversion E; subst; simpl. repeat split; [exact K|exact Q|lia].
Qed.

Lemma scanBlockComment_returns fuel st :
  ready fuel st -> exists r, scanBlockComment fuel st = Some r.
Proof.
  intros [C F]. unfold scanBlockComment.
  destruct (loop_terminates scanBlockComment_body
              (fun x => cleanBuffer (snd x) /\ source (snd x) = source st)
              (fun x => (String.length (source st)
                         - sourceBuffer (snd x))%nat))
    with (fuel := fuel) (s := (false, st)) as [[e r] ->];
    [|now split|simpl; lia|eexists; reflexivity].
  intros [b s] [b' s'] [K S]; simpl in K, S. unfold scanBlockComment_body.
  destruct (Ascii.eqb_spec (peek 0 s) NUL) as [Q|Q].
  - now rewrite (clean_nul_at_end _ K Q).
  - apply peek_inside in Q. rewrite S in Q.
    split_ifs; intros E; inversion E; subst; simpl;
      (split; [split; assumption | lia]).
Qed.

Lemma lexStringLiteral_returns fuel st :
  ready fuel st -> exists r, lexStringLiteral fuel st = Some r.
Proof.
  intros [C F]. unfold lexStringLiteral.
  destruct (scan_loop_returns lexStringLiteral_body cleanBuffer)
    with (fuel := fuel) (s := set_stringBuffer [] st) as [r ->];
    [|exact C|exact F|eexists; reflexivity].
  intros s s' K. unfold lexStringLiteral_body.
  destruct (Ascii.eqb_spec (peek 0 s) "\") as [B|B].
  - intros E; inversion E; subst.
    pose proof (lexStringEscape_frame (peek 0 (advance 1 s))
                  (advance 1 (advance 1 s))) as [(S1 & S2 & _) _].
    pose proof (lexStringEscape_notBehind (peek 0 (advance 1 s))
                  (advance 1 (advance 1 s))) as N.
    unfold notBehind in N; simpl in *.
    unfold cleanBuffer. rewrite S1, S2, B.
    repeat split; [exact K | discriminate | lia].
  - destruct (Ascii.eqb _ _); [discriminate|].
    destruct (isNewline _); [discriminate|].
    destruct (Ascii.eqb_spec (peek 0 s) NUL) as [Q|Q].
    + now rewrite (clean_nul_at_end _ K Q).
    + intros E; inversion E; subst; simpl.
      repeat split; [exact K|exact Q|lia].
Qed.

Lemma isPrintable_not_nul c : isPrintable c = true -> c <> NUL.
Proof. intros E Q; rewrite Q in E; discriminate E. Qed.

Lemma lexEscapeSequence_returns fuel st :
  (String.length (source st) < fuel)%nat ->
  exists r, lexEscapeSequence fuel st = Some r.
Proof.
  intros F. unfold lexEscapeSequence.
  destruct (_ || _); [eexists; reflexivity|].
  destruct (loop_terminates lexEscapeSequence_body
              (fun x => fst x = peek 0 (snd x) /\ source (snd x) = source st)
              (fun x => (String.length (source st)
                         - sourceBuffer (snd x))%nat))
    with (fuel := fuel) (s := (peek 0 st, st)) as [r ->];
    [|now split|simpl; lia|eexists; reflexivity].
  intros [c s] [c' s'] [K S]; simpl in K, S; subst c.
  unfold lexEscapeSequence_body.
  destruct (isPrintable (peek 0 s)) eqn:P; [|discriminate].
  apply isPrintable_not_nul, peek_inside in P. rewrite S in P.
  destruct (isWhitespace _); [discriminate|].
  intros E; inversion E; subst; simpl. repeat split; [exact S | lia].
Qed.

Lemma lexDollarSign_returns fuel st :
  (String.length (source st) < fuel)%nat ->
  exists r, lexDollarSign fuel st = Some r.
Proof.
  intros F. unfold lexDollarSign.
  destruct (scanIdentifier_returns fuel st F) as [s ->].
  destruct (_ =? _)%nat; eexists; reflexivity.
Qed.

Lemma lexDirective_returns `{Externals} fuel st :
  (String.length (source st) < fuel)%nat ->
  exists r, lexDirective fuel st = Some r.
Proof.
  intros F. unfold lexDirective.
  destruct (scanIdentifier_returns fuel st F) as [s ->].
  destruct (_ =? _)%nat; [eexists; reflexivity|].
  cbv zeta. destruct (getDirectiveKind _); eexists; reflexivity.
Qed.

Lemma scanUnsignedNumber_returns fuel v n st :
  (String.length (source st) < fuel)%nat ->
  exists r, scanUnsignedNumber fuel (peek 0 st) v n st = Some r.
Proof.
  intros F. unfold scanUnsignedNumber.
  apply loop_terminates with
    (I := fun x => sn_c x = peek 0 (sn_lexer x) /\
                   source (sn_lexer x) = source st)
    (m := fun x => (String.length (source st)
                    - sourceBuffer (sn_lexer x))%nat);
    [|now split|simpl; lia].
  intros x x' [K S]. unfold scanUnsignedNumber_body. rewrite K.
  destruct (isDecimalDigit (peek 0 (sn_lexer x))) eqn:D.
  - assert (Q : peek 0 (sn_lexer x) <> NUL) by not_nul.
    apply peek_inside in Q. rewrite S in Q.
    intros E; inversion E; subst; simpl. repeat split; [exact S | lia].
  - destruct (Ascii.eqb_spec (peek 0 (sn_lexer x)) "_") as [U|U];
      [|discriminate].
    assert (Q : peek 0 (sn_lexer x) <> NUL) by (rewrite U; discriminate).
    apply peek_inside in Q. rewrite S in Q.
    intros E; inversion E; subst; simpl. repeat split; [exact S | lia].
Qed.

Lemma shortRuns_bound s : forall k i n,
  shortRuns k s = true -> (k <= 9)%nat ->
  (forall j, (j < n)%nat ->
     exists c, String.get (i + j) s = Some c /\ numberChar c = true) ->
  (n <= 9)%nat /\ (i = 0%nat -> (n <= k)%nat).
Proof.
  induction s as [|c s IH]; intros k i n R K Run.
  - destruct n as [|n]; [split; lia|].
    destruct (Run 0%nat) as (x & G & _); [lia|].
    destruct (i + 0)%nat; discriminate G.
  - destruct i as [|i].
    + destruct n as [|n]; [split; lia|].
      destruct (Run 0%nat) as (x & G & N); [lia|].
      simpl in G. inversion G; subst x. simpl in R. rewrite N in R.
      destruct k as [|k]; [discriminate R|].
      destruct (IH k 0%nat n R) as [_ B]; [lia| |].
      * intros j J. destruct (Run (Datatypes.S j)) as (x & Gx & Nx); [lia|].
        exists x; split; [exact Gx | exact Nx].
      * specialize (B eq_refl). split; [lia | intros _; lia].
    + assert (R' : exists k', shortRuns k' s = true /\ (k' <= 9)%nat).
      { simpl in R. destruct (numberChar c).
        - destruct k as [|k]; [discriminate R|]. exists k; split; [exact R|lia].
        - exists 9%nat; split; [exact R|lia]. }
      destruct R' as (k' & R' & K').
      destruct (IH k' i n R' K') as [B _].
      * intros j J. destruct (Run j J) as (x & Gx & Nx).
        exists x; split; [exact Gx | exact Nx].
      * split; [exact B | discriminate].
Qed.

Lemma numberChar_peek k st :
  numberChar (peek k st) = true ->
  exists c, String.get (sourceBuffer st + k) (source st) = Some c /\
            numberChar c = true.
Proof.
  unfold peek. destruct (String.get _ _) as [c|]; [|discriminate].
  intros N; exists c; now split.
Qed.

(** Under the bound on the runs, a scan adds at most nine digits. *)
Lemma scanUnsignedNumber_short fuel v n st r :
  shortDigitRuns st ->
  scanUnsignedNumber fuel (peek 0 st) v n st = Some r ->
  n <= sn_digits r <= n + 9.
Proof.
  intros H L. unfold scanUnsignedNumber in L.
  apply (loop_invariant scanUnsignedNumber_body
           (fun x =>
              source (sn_lexer x) = source st /\
              sn_c x = peek 0 (sn_lexer x) /\
              exists off,
                sourceBuffer (sn_lexer x) = (sourceBuffer st + off)%nat /\
                (forall j, (j < off)%nat -> numberChar (peek j st) = true) /\
                n <= sn_digits x <= n + Z.of_nat off)
           (fun x => n <= sn_digits x <= n + 9))
    with (fuel := fuel) (r := r) in L; try exact L.
  - intros x x' (S & C & off & B & Run & D).
    assert (P : peek 0 (sn_lexer x) = peek off st)
      by (unfold peek; rewrite S, B, Nat.add_0_r; reflexivity).
    unfold scanUnsignedNumber_body. rewrite C.
    assert (Step : numberChar (peek 0 (sn_lexer x)) = true ->
                   forall j, (j < Datatypes.S off)%nat ->
                             numberChar (peek j st) = true).
    { intros N j J. destruct (Nat.eq_dec j off) as [->|Q];
        [now rewrite <- P | apply Run; lia]. }
    destruct (isDecimalDigit (peek 0 (sn_lexer x))) eqn:Dg.
    + intros E; inversion E; subst; clear E. simpl.
      split; [exact S|]. split; [reflexivity|].
      exists (Datatypes.S off). split; [lia|].
      split; [apply Step; unfold numberChar; now rewrite Dg | lia].
    + destruct (Ascii.eqb (peek 0 (sn_lexer x)) "_") eqn:U;
        [|discriminate].
      intros E; inversion E; subst; clear E. simpl.
      split; [exact S|]. split; [reflexivity|].
      exists (Datatypes.S off). split; [lia|].
      split; [apply Step; unfold numberChar; now rewrite Dg, U | lia].
  - intros x x' (S & C & off & B & Run & D).
    unfold scanUnsignedNumber_body.
    destruct (isDecimalDigit _); [discriminate|].
    destruct (negb _); [|discriminate].
    intros E; inversion E; subst; clear E.
    destruct (shortRuns_bound (source st) 9 (sourceBuffer st) off H)
      as [Bd _]; [lia| |lia].
    intros j J. apply numberChar_peek. now apply Run.
  - split; [reflexivity|]. split; [reflexivity|].
    exists 0%nat. split; [simpl; lia|]. split; [intros j J; lia | simpl; lia].
Qed.

(** The table of nine entries is enough for an exponent below 2^9. *)
Lemma composeLoop_defined d : forall e acc,
  0 <= e < 2 ^ Z.of_nat (List.length d) ->
  exists r, composeLoop d e acc = Some r.
Proof.
  induction d as [|p d IH]; intros e acc R; simpl.
  - simpl in R. replace e with 0 by lia. eexists; reflexivity.
  - destruct (Z.eqb_spec e 0); [eexists; reflexivity|].
    apply IH. rewrite Z.shiftr_div_pow2 by lia.
    change (2 ^ 1) with 2.
    cbn [List.length] in R.
    rewrite Nat2Z.inj_succ, Z.pow_succ_r in R by lia.
    split; [apply Z.div_pos; lia|].
    apply Z.div_lt_upper_bound; lia.
Qed.

(** A negative exponent never comes to 0: the walk leaves the table. *)
Lemma composeLoop_negative d : forall e acc,
  e < 0 -> composeLoop d e acc = None.
Proof.
  induction d as [|p d IH]; intros e acc N; simpl.
  - destruct (Z.eqb_spec e 0); [lia | reflexivity].
  - destruct (Z.eqb_spec e 0); [lia|].
    apply IH. rewrite Z.shiftr_div_pow2 by lia.
    change (2 ^ 1) with 2. apply Z.div_lt_upper_bound; lia.
Qed.

Lemma composeDouble_defined fraction exp :
  - 2 ^ 31 < exp < 2 ^ 31 ->
  exists r, composeDouble fraction exp = Some r.
Proof.
  intros R. unfold composeDouble. cbv zeta.
  set (e := if (if exp <? 0 then toInt32 (- exp) else exp) >? MaxExponent
            then MaxExponent
            else if exp <? 0 then toInt32 (- exp) else exp).
  assert (E : 0 <= e < 2 ^ 9).
  { unfold e, MaxExponent, toInt32.
    change (2 ^ 31) with 2147483648 in *.
    change (2 ^ 32) with 4294967296. change (2 ^ 9) with 512.
    destruct (Z.ltb_spec exp 0).
    - rewrite Z.mod_small by lia.
      destruct (Z.gtb_spec (- exp + 2147483648 - 2147483648) 511); lia.
    - destruct (Z.gtb_spec exp 511); lia. }
  destruct (composeLoop_defined powersOf10 e 1%float E) as [r ->].
  eexists; reflexivity.
Qed.

Lemma shortDigitRuns_same s s' :
  source s' = source s -> shortDigitRuns s -> shortDigitRuns s'.
Proof. unfold shortDigitRuns; now intros ->. Qed.

(** With at most eighteen mantissa digits and at most nine exponent digits
    the exponent handed to [composeDouble] is far from the least [int]. *)
Lemma lexRealLiteral_returns fuel value decPoint digits exponent st :
  shortDigitRuns st ->
  (String.length (source st) < fuel)%nat ->
  0 <= decPoint <= digits -> digits <= 18 ->
  exists r, lexRealLiteral fuel value decPoint digits exponent st = Some r.
Proof.
  intros H F Dp Dg. unfold lexRealLiteral.
  assert (Fe : toInt32 (decPoint - Z.min digits MaxMantissaDigits)
               = decPoint - digits /\ - 18 <= decPoint - digits <= 0).
  { unfold MaxMantissaDigits, toInt32. rewrite Z.min_l by lia.
    change (2 ^ 31) with 2147483648. change (2 ^ 32) with 4294967296.
    rewrite Z.mod_small by lia. lia. }
  destruct Fe as [Fe Fr]. cbv zeta. rewrite Fe.
  assert (Fin : forall (neg : bool) expVal s,
             0 <= expVal < 10 ^ 9 ->
             exists r,
               ('(finite, result) <-
                  composeDouble (toDouble value)
                    (if neg
                     then toInt32 (decPoint - digits - toInt32 expVal)
                     else toInt32 (decPoint - digits + toInt32 expVal)) ;;
                let st0 := if (finite : bool) then s
                           else addError DiagCode.RealExponentTooLarge s in
                Some (NumericReal (lexeme st0) result, st0)) = Some r).
  { intros neg expVal s V.
    assert (T : forall x, - 2 ^ 31 < x < 2 ^ 31 -> toInt32 x = x).
    { intros x X. unfold toInt32.
      change (2 ^ 31) with 2147483648 in *.
      change (2 ^ 32) with 4294967296.
      rewrite Z.mod_small by lia. lia. }
    change (10 ^ 9) with 1000000000 in V.
    assert (X : - 2 ^ 31 < (if neg
                     then toInt32 (decPoint - digits - toInt32 expVal)
                     else toInt32 (decPoint - digits + toInt32 expVal))
                < 2 ^ 31).
    { rewrite (T expVal) by (change (2 ^ 31) with 2147483648; lia).
      destruct neg; rewrite T; change (2 ^ 31) with 2147483648; lia. }
    destruct (composeDouble_defined (toDouble value) _ X) as [[[] v] ->];
      eexists; reflexivity. }
  destruct exponent.
  - destruct (skipZeros_returns fuel (advance 1 st) F) as [s Z].
    rewrite Z. apply skipZeros_frame in Z. destruct Z as [(S & _) _].
    simpl in S.
    set (p := if Ascii.eqb (peek 0 s) "+" then (false, advance 1 s)
              else if Ascii.eqb (peek 0 s) "-" then (true, advance 1 s)
                   else (false, s)).
    assert (P : source (snd p) = source st)
      by (unfold p; split_ifs; simpl; exact S).
    destruct p as [neg s1]; simpl in P.
    destruct (negb _).
    + apply (Fin neg 0 (addError DiagCode.MissingExponentDigits s1)).
      change (10 ^ 9) with 1000000000. lia.
    + destruct (scanUnsignedNumber_returns fuel 0 0 s1) as [r N];
        [now rewrite P|].
      rewrite N.
      pose proof (scanUnsignedNumber_short _ _ _ _ _
                    (shortDigitRuns_same _ _ P H) N) as Sh.
      pose proof (scanUnsignedNumber_mantissa _ _ _ _ _ _ mantissa_start N)
        as (_ & V).
      apply (Fin neg (sn_unsignedVal r) (sn_lexer r)).
      unfold MaxMantissaDigits in V.
      rewrite Z.min_l in V by lia.
      assert (Q : 10 ^ sn_digits r <= 10 ^ 9)
        by (apply Z.pow_le_mono_r; lia).
      lia.
  - apply (Fin false 0 st). change (10 ^ 9) with 1000000000. lia.
Qed.

Lemma lexVectorDigitsIn_total b fuel st :
  (String.length (source st) < fuel)%nat ->
  exists r, lexVectorDigitsIn b fuel st = Some r.
Proof.
  intros F. rewrite lexVectorDigitsIn_eq. unfold lexVectorDigits.
  destruct (findNextNonWhitespace_returns fuel st F) as [la ->].
  destruct (_ && _); [eexists; reflexivity|].
  apply lexVectorDigits_loop_returns.
  - intros c E. now apply base_digit_range in E.
  - change (source (advance la st)) with (source st). lia.
Qed.

Lemma lexVectorLiteral_total fuel size64 st :
  (String.length (source st) < fuel)%nat ->
  exists r, lexVectorLiteral fuel size64 st = Some r.
Proof.
  intros F. unfold lexVectorLiteral.
  destruct (size64 =? 0); [|destruct (size64 >? UINT32_MAX)];
    cbv beta iota zeta;
    (destruct (_ || _); cbv beta iota zeta;
     (destruct (baseOfChar _) as [b|];
      [ apply lexVectorDigitsIn_total; exact F
      | eexists; reflexivity ])).
Qed.

Lemma lexUnsizedNumericLiteral_returns fuel st :
  (String.length (source st) < fuel)%nat ->
  exists r, lexUnsizedNumericLiteral fuel st = Some r.
Proof.
  intros F. unfold lexUnsizedNumericLiteral. cbv zeta.
  destruct (baseOfChar _) as [b|].
  - apply lexVectorDigitsIn_total; exact F.
  - destruct (peek 0 _) as [[] [] [] [] [] [] [] []]; eexists; reflexivity.
Qed.

Lemma lexNumericLiteral_returns fuel st :
  shortDigitRuns st ->
  (String.length (source st) < fuel)%nat ->
  exists r, lexNumericLiteral fuel st = Some r.
Proof.
  intros H F. unfold lexNumericLiteral.
  destruct (skipZeros_returns fuel st F) as [s0 Z]. rewrite Z.
  apply skipZeros_frame in Z. destruct Z as [(S0 & _) _].
  destruct (scanUnsignedNumber_returns fuel 0 0 s0) as [r N];
    [now rewrite S0|].
  rewrite N.
  pose proof (scanUnsignedNumber_short _ _ _ _ _
                (shortDigitRuns_same _ _ S0 H) N) as D1.
  apply scanUnsignedNumber_frame in N.
  destruct N as [(S1 & _) _].
  assert (F1 : (String.length (source (sn_lexer r)) < fuel)%nat)
    by now rewrite S1, S0.
  assert (H1 : shortDigitRuns (sn_lexer r))
    by (apply (shortDigitRuns_same st); [now rewrite S1, S0 | exact H]).
  clear S0 S1.
  destruct (findNextNonWhitespace_returns fuel _ F1) as [la ->].
  assert (W : forall n,
             exists x, (' (info, st0) <- lexVectorLiteral fuel (sn_unsignedVal r)
                                     (advance n (sn_lexer r)) ;;
              Some (TokenKind.IntegerLiteral, Some info, st0)) = Some x).
  { intros n.
    destruct (lexVectorLiteral_total fuel (sn_unsignedVal r)
                (advance n (sn_lexer r)) F1) as [[i x] ->].
    eexists; reflexivity. }
  assert (X : forall a b c d s, source s = source (sn_lexer r) ->
             0 <= b <= c -> c <= 18 ->
             exists x, (' (info, st0) <- lexRealLiteral fuel a b c d s ;;
              Some (TokenKind.RealLiteral, Some info, st0)) = Some x).
  { intros a b c d s S B C.
    destruct (lexRealLiteral_returns fuel a b c d s) as [[i x] ->];
      [apply (shortDigitRuns_same _ _ S H1) | now rewrite S
      | exact B | exact C |].
    eexists; reflexivity. }
  destruct (_ && _); [apply W|].
  set (c := peek 0 (sn_lexer r)).
  assert (C : c = "'" \/ c = "." \/ c = "e" \/ c = "E" \/
              (c <> "'" /\ c <> "." /\ c <> "e" /\ c <> "E")).
  { destruct (Ascii.eqb_spec c "'"); [tauto|].
    destruct (Ascii.eqb_spec c "."); [tauto|].
    destruct (Ascii.eqb_spec c "e"); [tauto|].
    destruct (Ascii.eqb_spec c "E"); tauto. }
  destruct C as [C|[C|[C|[C|C]]]]; try rewrite C; cbv beta iota zeta.
  - apply W.
  - set (s1 := if negb _ then _ else _).
    assert (S1 : source s1 = source (sn_lexer r))
      by (unfold s1; split_ifs; reflexivity).
    destruct (scanUnsignedNumber_returns fuel (sn_unsignedVal r)
                (sn_digits r) s1) as [q Q]; [now rewrite S1|].
    rewrite Q.
    pose proof (scanUnsignedNumber_short _ _ _ _ _
                  (shortDigitRuns_same _ _ S1 H1) Q) as D2.
    apply scanUnsignedNumber_frame in Q.
    destruct Q as [(S2 & _) _]. apply X; [now rewrite S2 | lia | lia].
  - apply X; [reflexivity | lia | lia].
  - apply X; [reflexivity | lia | lia].
  - destruct C as (C1 & C2 & C3 & C4).
    assert (D : exists x,
               (let '(unsignedVal, st0) :=
                  if sn_unsignedVal r >? INT32_MAX
                  then (INT32_MAX,
                        addError DiagCode.SignedLiteralTooLarge (sn_lexer r))
                  else (sn_unsignedVal r, sn_lexer r) in
                Some (TokenKind.IntegerLiteral,
                      Some (NumericInt (lexeme st0) (toInt32 unsignedVal)),
                      st0)) = Some x)
      by (destruct (_ >? _); eexists; reflexivity).
    destruct c as [[] [] [] [] [] [] [] []]; try congruence; exact D.
Qed.

Lemma lexTrivia_body_returns inner st :
  ready inner st ->
  exists r, lexTrivia_body inner st = Some r /\
    match r with
    | Continue s' =>
        peek 0 st <> NUL /\ (sourceBuffer st < sourceBuffer s')%nat /\
        triviaStep st s'
    | Break _ => True
    end.
Proof.
  intros R.
  assert (R1 : forall n, ready inner (advance n (mark st))) by exact (fun _ => R).
  assert (P : peek 0 (mark st) = peek 0 st) by reflexivity.
  assert (Q : peek 0 st <> NUL -> peek 0 st <> NUL) by auto.
  rewrite <- P in Q at 1.
  unfold lexTrivia_body.
  destruct (peek 0 (mark st)) as [[] [] [] [] [] [] [] []] eqn:P0;
    cbv beta iota zeta;
    try (eexists; split; [reflexivity | exact I]);
    try match goal with
        | |- context [peek 1 (mark st)] =>
            destruct (peek 1 (mark st)) as [[] [] [] [] [] [] [] []];
            cbv beta iota zeta;
            try (eexists; split; [reflexivity | exact I])
        end;
    try (rewrite orb_true_r; eexists; split; [reflexivity | exact I]).
  all: assert (Q' : peek 0 st <> NUL) by (apply Q; discriminate); clear Q.
  all: match goal with
       | |- context [scanWhitespace ?a ?b] =>
           let W := fresh "W" in
           destruct (scanWhitespace_returns a b) as [s W]; [apply R1|];
           rewrite W; (eexists; split; [reflexivity|]);
           pose proof (scanWhitespace_notBehind _ _ _ W) as N;
           apply scanWhitespace_step in W
       | |- context [scanLineComment ?a ?b] =>
           let W := fresh "W" in
           destruct (scanLineComment_returns a b) as [s W]; [apply R1|];
           rewrite W; (eexists; split; [reflexivity|]);
           pose proof (scanLineComment_notBehind _ _ _ W) as N;
           apply scanLineComment_step in W
       | |- context [scanBlockComment ?a ?b] =>
           let W := fresh "W" in
           destruct (scanBlockComment_returns a b) as [[e s] W]; [apply R1|];
           rewrite W;
           pose proof (scanBlockComment_notBehind _ _ _ _ W) as N;
           apply scanBlockComment_step in W; destruct W as [W _];
           destruct e; (eexists; split; [reflexivity|]); try exact I
       | |- _ =>
           destruct (negb _); (eexists; split; [reflexivity|]); try exact I;
           (split; [exact Q'|]);
           (split; [unfold consume; split_ifs; simpl; lia | trivia_now])
       end.
  all: unfold notBehind in N; simpl in N;
    (split; [exact Q'|]); (split; [lia|]);
    (eapply triviaStep_trans; [|exact W]); trivia_now.
Qed.

Lemma lexTrivia_returns fuel st :
  ready fuel st -> exists r, lexTrivia fuel st = Some r.
Proof.
  intros R. unfold lexTrivia.
  assert (G : forall n s, ready fuel s ->
             (String.length (source s) - sourceBuffer s < n)%nat ->
             exists r, loopM (lexTrivia_body fuel) n s = Some r).
  { induction n as [|n IH]; intros s Rs M; [lia|].
    destruct (lexTrivia_body_returns fuel s Rs) as ([s'|r] & B & K);
      simpl; rewrite B; [|eexists; reflexivity].
    destruct K as (K1 & K2 & K3). apply IH.
    - eapply ready_step; eassumption.
    - destruct K3 as [(S & _) _]. apply peek_inside in K1. rewrite S. lia. }
  apply G; [exact R|]. destruct R as [_ F]. lia.
Qed.

Section Returns.
Context `{Externals}.

Lemma lexToken_returns fuel st :
  steady fuel st -> exists r, lexToken fuel st = Some r.
Proof.
  intros [R H0].
  assert (F : forall n, (String.length (source (advance n (advance 1 st)))
                         < fuel)%nat) by (intros n; apply R).
  assert (R1 : ready fuel (advance 1 st)) by exact R.
  pose proof (F 0%nat) as F0.
  assert (N : exists r,
             lexNumericLiteral fuel
               (set_sourceBuffer (sourceBuffer (advance 1 st) - 1)
                  (advance 1 st)) = Some r)
    by (apply lexNumericLiteral_returns; [exact H0 | apply R]).
  assert (I : exists r,
             (st0 <- scanIdentifier fuel (advance 1 st) ;;
              Some (TokenKind.Identifier,
                    Some (IdentifierInfo (lexeme st0) IdentifierType.Normal),
                    st0)) = Some r)
    by (destruct (scanIdentifier_returns fuel (advance 1 st) F0) as [x ->];
        eexists; reflexivity).
  assert (S : exists r,
             ('(info, st0) <- lexStringLiteral fuel (advance 1 st) ;;
              Some (TokenKind.StringLiteral, Some info, st0)) = Some r)
    by (destruct (lexStringLiteral_returns fuel (advance 1 st) R1)
          as [[i x] ->]; eexists; reflexivity).
  assert (U : exists r,
             ('(info, st0) <- lexUnsizedNumericLiteral fuel (advance 1 st) ;;
              Some (TokenKind.IntegerLiteral, Some info, st0)) = Some r)
    by (destruct (lexUnsizedNumericLiteral_returns fuel (advance 1 st) F0)
          as [[i x] ->]; eexists; reflexivity).
  pose proof (lexDollarSign_returns fuel (advance 1 st) F0) as D.
  pose proof (lexEscapeSequence_returns fuel (advance 1 st) F0) as Q.
  pose proof (lexDirective_returns fuel (advance 1 st) F0) as V.
  clear R R1 F F0.
  unfold lexToken.
  destruct (peek 0 st) as [[] [] [] [] [] [] [] []];
    cbv beta iota zeta;
    first [ exact N | exact I | exact S | exact D | exact Q
          | unfold plain, unknownToken; eexists; reflexivity
          | idtac ].
  all: clear N I S D Q; unfold consume;
    repeat (match goal with
            | |- context [if ?x then _ else _] => destruct x
            | |- context [match ?x with _ => _ end] =>
                match type of x with
                | ascii => destruct x as [[] [] [] [] [] [] [] []]
                end
            end; cbv beta iota zeta);
    first [ exact U | exact V
          | unfold plain, unknownToken; eexists; reflexivity ].
Qed.

End Returns.

Section Termination.
Context `{Externals}.

Lemma steady_extends fuel s s' :
  extends s s' -> steady fuel s -> steady fuel s'.
Proof.
  intros E [R H0]. split; [now apply (ready_extends fuel s)|].
  destruct E as (S & _). now apply (shortDigitRuns_same s).
Qed.

Lemma lex_steady fuel st t st' :
  steady fuel st -> lex fuel st = Returned t st' -> steady fuel st'.
Proof.
  intros R. unfold lex. destruct (reallyAtEnd st); [discriminate|].
  destruct (lexTrivia _ _) as [[b s]|] eqn:T; [|discriminate].
  apply lexTrivia_step in T. destruct T as [[T _] _].
  destruct (lexToken _ _) as [[[k d] s']|] eqn:K; [|discriminate].
  apply lexToken_step in K. destruct K as [[K _] _].
  intros E; inversion E; subst.
  apply (steady_extends fuel (mark s)); [exact K|].
  apply (steady_extends fuel (set_triviaBuffer [] st)); [exact T | exact R].
Qed.

Lemma lex_returns fuel st :
  steady fuel st -> reallyAtEnd st = false ->
  exists t st', lex fuel st = Returned t st'.
Proof.
  intros R A. unfold lex. rewrite A.
  destruct (lexTrivia_returns fuel (set_triviaBuffer [] st))
    as [[b s] T]; [apply R|].
  rewrite T. apply lexTrivia_step in T. destruct T as [[T _] _].
  destruct (lexToken_returns fuel (mark s)) as [[[k d] s'] K].
  - apply (steady_extends fuel (set_triviaBuffer [] st)); [exact T | exact R].
  - rewrite K. eexists; eexists; reflexivity.
Qed.

Lemma lex_keeps_end fuel st t st' :
  lex fuel st = Returned t st' -> sourceEnd st' = sourceEnd st.
Proof.
  unfold lex. destruct (reallyAtEnd st); [discriminate|].
  destruct (lexTrivia _ _) as [[b s]|] eqn:T; [|discriminate].
  apply lexTrivia_step in T. destruct T as [[(_ & T & _) _] _].
  destruct (lexToken _ _) as [[[k d] s']|] eqn:K; [|discriminate].
  apply lexToken_step in K. destruct K as [[(_ & K & _) _] _].
  intros E; inversion E; subst. simpl in *. congruence.
Qed.

Lemma lexMany_runs_out fuel n : forall st,
  steady fuel st ->
  (sourceEnd st - sourceBuffer st <= n)%nat ->
  reallyAtEnd (snd (lexMany fuel n st)) = true.
Proof.
  induction n as [|n IH]; intros st R L; simpl.
  - unfold reallyAtEnd. apply Nat.leb_le. lia.
  - destruct (reallyAtEnd st) eqn:A.
    + unfold lex. rewrite A. exact A.
    + destruct (lex_returns fuel st R A) as (t & st' & E).
      rewrite E.
      pose proof (lex_steady _ _ _ _ R E) as R'.
      pose proof (lex_advances _ _ _ _ E) as Adv.
      pose proof (lex_keeps_end _ _ _ _ E) as S.
      specialize (IH st' R').
      destruct (lexMany fuel n st') as [ts st'']. simpl in *.
      apply IH. lia.
Qed.

(** X6. On a tame buffer (no NUL before the end pointer and a NUL at it, no
    run of ten or more digits and underscores, no escape and no byte
    sequence cut by the end) a call of [lex] before the end returns a token,
    as soon as the fuel exceeds the length of the buffer: no scanning loop
    goes round for ever, and [composeDouble] stays on its table. *)
Theorem lex_returns_on_tame_buffer fuel st :
  tame st ->
  (String.length (source st) < fuel)%nat ->
  reallyAtEnd st = false ->
  exists t st', lex fuel st = Returned t st'.
Proof.
  intros (C & _ & R & _) F A.
  apply lex_returns; [split; [split|]; assumption | exact A].
Qed.

(** X7. Lexing a tame buffer comes to its end: as many calls as there are
    bytes between the cursor and the end pointer bring the cursor to the end
    pointer or beyond, every one of them returning a token until then. *)
Theorem lexMany_consumes_tame_buffer fuel n st :
  tame st ->
  (String.length (source st) < fuel)%nat ->
  (sourceEnd st - sourceBuffer st <= n)%nat ->
  reallyAtEnd (snd (lexMany fuel n st)) = true.
Proof.
  intros (C & _ & R & _) F. apply lexMany_runs_out. split; [split|]; assumption.
Qed.

End Termination.

(** ** Numbers, plain string literals, line comments, construction *)

Lemma advance_0 st : advance 0 st = st.
Proof.
  destruct st; unfold advance, set_sourceBuffer; simpl.
  now rewrite Nat.add_0_r.
Qed.

Lemma lookingAt_advance s : forall k st,
  lookingAt s (Datatypes.S k) st = lookingAt s k (advance 1 st).
Proof.
  induction s as [|c s IH]; intros k st; simpl; [reflexivity|].
  rewrite IH, peek_advance. reflexivity.
Qed.

Lemma lookingAt_same s : forall k a b,
  source a = source b -> sourceBuffer a = sourceBuffer b ->
  lookingAt s k a = lookingAt s k b.
Proof.
  induction s as [|c s IH]; intros k a b S B; simpl; [reflexivity|].
  rewrite (IH _ a b S B). unfold peek. now rewrite S, B.
Qed.

Lemma decimal_digit_code c :
  isDecimalDigit c = true -> getDigitValue c = code c - 48.
Proof.
  destruct c as [[] [] [] [] [] [] [] []]; intros E; try discriminate E;
    reflexivity.
Qed.

Lemma mantissa_digit v n d :
  mantissa v n -> n < 18 -> 0 <= d <= 9 ->
  mantissa (v * 10 + d) (n + 1) /\ 0 <= v * 10 + d < 2 ^ 64.
Proof.
  unfold mantissa, MaxMantissaDigits. intros (N & V) L D.
  rewrite Z.min_l in V by lia. rewrite Z.min_l by lia.
  assert (P : 10 ^ (n + 1) = 10 * 10 ^ n)
    by (rewrite Z.pow_add_r by lia; lia).
  assert (Q : 10 ^ (n + 1) <= 10 ^ 18) by (apply Z.pow_le_mono_r; lia).
  change (10 ^ 18) with 1000000000000000000 in Q.
  change (2 ^ 64) with 18446744073709551616. lia.
Qed.

Lemma scan_digits text : forall fuel v n st,
  lookingAt text 0 st = true ->
  numberChars text = true ->
  mantissa v n ->
  n + digitCount text <= MaxMantissaDigits ->
  isDecimalDigit (peek (String.length text) st)
  || Ascii.eqb (peek (String.length text) st) "_" = false ->
  (String.length text < fuel)%nat ->
  exists r,
    scanUnsignedNumber fuel (peek 0 st) v n st = Some r /\
    sn_unsignedVal r
    = fold_left
        (fun acc c =>
           if isDecimalDigit c then acc * 10 + (code c - 48) else acc)
        (list_ascii_of_string text) v /\
    sn_digits r = n + digitCount text /\
    sn_lexer r = advance (String.length text) st /\
    sn_c r = peek (String.length text) st.
Proof.
  unfold scanUnsignedNumber.
  induction text as [|c text IH]; intros fuel v n st L C M D S F.
  - destruct fuel as [|fuel]; [simpl in F; lia|]. simpl in *.
    unfold scanUnsignedNumber_body; simpl.
    apply orb_false_iff in S. destruct S as [S1 S2]. rewrite S1, S2. simpl.
    eexists; split; [reflexivity|]. simpl.
    rewrite advance_0. repeat split; lia.
  - destruct fuel as [|fuel]; [simpl in F; lia|].
    simpl in L, C, D, S, F.
    apply andb_true_iff in L. destruct L as [L0 L].
    apply Ascii.eqb_eq in L0.
    apply andb_true_iff in C. destruct C as [C0 C].
    rewrite lookingAt_advance in L.
    assert (S' : isDecimalDigit (peek (String.length text) (advance 1 st))
                 || Ascii.eqb (peek (String.length text) (advance 1 st)) "_"
                 = false) by (rewrite peek_advance; exact S).
    assert (Dn : 0 <= digitCount text).
    { clear. induction text as [|x t IHt]; simpl; [lia|].
      destruct (isDecimalDigit x); lia. }
    simpl. unfold scanUnsignedNumber_body at 1; simpl. rewrite L0.
    destruct (isDecimalDigit c) eqn:Dc.
    + pose proof (decimal_digit_value _ Dc) as Rg.
      pose proof (decimal_digit_code _ Dc) as Cd.
      assert (Lt : (n <? MaxMantissaDigits) = true)
        by (apply Z.ltb_lt; lia).
      rewrite Lt.
      destruct (mantissa_digit v n (getDigitValue c) M) as [M' W];
        [unfold MaxMantissaDigits in *; lia | exact Rg |].
      rewrite Z.mod_small by lia.
      destruct (IH fuel (v * 10 + getDigitValue c) (n + 1) (advance 1 st)
                  L C M') as (r & R1 & R2 & R3 & R4 & R5);
        [lia | exact S' | lia |].
      exists r. split; [exact R1|]. rewrite R2, R3, R4, R5, Cd.
      rewrite advance_advance, peek_advance. repeat split; lia.
    + simpl in C0. apply Ascii.eqb_eq in C0. subst c. rewrite C0. simpl.
      destruct (IH fuel v n (advance 1 st) L C M)
        as (r & R1 & R2 & R3 & R4 & R5); [lia | exact S' | lia |].
      exists r. split; [exact R1|]. rewrite R2, R3, R4, R5.
      rewrite advance_advance, peek_advance. repeat split; lia.
Qed.


(** X9. On a run of digits and underscores with at most eighteen digits,
    followed by a byte that is neither, [scanUnsignedNumber] stops exactly
    after the run, with the number the digits spell and their count. *)
Theorem scanUnsignedNumber_reads_decimal fuel text st :
  lookingAt text 0 st = true ->
  numberChars text = true ->
  digitCount text <= MaxMantissaDigits ->
  isDecimalDigit (peek (String.length text) st)
  || Ascii.eqb (peek (String.length text) st) "_" = false ->
  (String.length text < fuel)%nat ->
  exists r,
    scanUnsignedNumber fuel (peek 0 st) 0 0 st = Some r /\
    sn_unsignedVal r = parsedDecimal text /\
    sn_digits r = digitCount text /\
    sn_lexer r = advance (String.length text) st.
Proof.
  intros L C D S F.
  destruct (scan_digits text fuel 0 0 st L C mantissa_start)
    as (r & R1 & R2 & R3 & R4 & _); [lia | exact S | exact F |].
  exists r. repeat split; assumption.
Qed.

Lemma plain_string body : forall fuel st,
  lookingAt (body ++ QUOTE) 0 st = true ->
  plainChars body = true ->
  (String.length body < fuel)%nat ->
  exists st',
    loop lexStringLiteral_body fuel st = Some st' /\
    stringBuffer st' = stringBuffer st ++ list_ascii_of_string body /\
    diagnostics st' = diagnostics st /\
    sourceBuffer st'
    = (sourceBuffer st + Datatypes.S (String.length body))%nat /\
    source st' = source st /\ marker st' = marker st.
Proof.
  induction body as [|c body IH]; intros fuel st L P F.
  - destruct fuel as [|fuel]; [simpl in F; lia|]. simpl in *.
    rewrite andb_true_r in L. apply Ascii.eqb_eq in L.
    unfold lexStringLiteral_body. rewrite L. simpl.
    eexists; split; [reflexivity|]. simpl.
    rewrite app_nil_r. repeat split; lia.
  - destruct fuel as [|fuel]; [simpl in F; lia|].
    simpl in L, P, F.
    apply andb_true_iff in L. destruct L as [L0 L].
    apply Ascii.eqb_eq in L0.
    rewrite lookingAt_advance in L.
    repeat (apply andb_true_iff in P; destruct P as [P ?]).
    simpl. unfold lexStringLiteral_body at 1. rewrite L0.
    repeat match goal with
           | N : negb ?x = true |- _ =>
               apply negb_true_iff in N; rewrite N
           end.
    destruct (IH fuel (stringBuffer_append c (advance 1 st)))
      as (st' & R1 & R2 & R3 & R4 & R5 & R6); [|assumption|lia|].
    + rewrite <- L. apply lookingAt_same; reflexivity.
    + exists st'. split; [exact R1|]. rewrite R2, R3, R4, R5, R6. simpl.
      rewrite <- app_assoc. repeat split; lia.
Qed.

(** X10. A string literal without escapes reads back as written: when the
    bytes after the opening quote are [body], free of backslash, quote,
    newline and NUL, and then the closing quote, the scanner stops after the
    closing quote, the decoded text is [body] byte for byte, and nothing is
    diagnosed. *)
Theorem lexStringLiteral_plain_round_trip fuel body st :
  lookingAt (body ++ QUOTE) 0 st = true ->
  plainChars body = true ->
  (String.length body < fuel)%nat ->
  exists st',
    lexStringLiteral fuel st
    = Some (StringLiteralInfo (lexeme st') (list_ascii_of_string body), st') /\
    diagnostics st' = diagnostics st /\
    sourceBuffer st'
    = (sourceBuffer st + Datatypes.S (String.length body))%nat.
Proof.
  intros L P F. unfold lexStringLiteral.
  destruct (plain_string body fuel (set_stringBuffer [] st))
    as (st' & R1 & R2 & R3 & R4 & _); [|exact P|exact F|].
  - rewrite <- L. apply lookingAt_same; reflexivity.
  - rewrite R1. exists st'. simpl in R2. rewrite R2.
    repeat split; assumption.
Qed.

Lemma line_run body : forall fuel st,
  lookingAt body 0 st = true ->
  lineChars body = true ->
  isNewline (peek (String.length body) st) = true \/
  (peek (String.length body) st = NUL /\
   (sourceEnd st <= sourceBuffer st + String.length body)%nat) ->
  (String.length body < fuel)%nat ->
  loop scanLineComment_body fuel st
  = Some (advance (String.length body) st).
Proof.
  induction body as [|c body IH]; intros fuel st L P S F.
  - destruct fuel as [|fuel]; [simpl in F; lia|]. simpl in *.
    unfold scanLineComment_body. rewrite advance_0.
    destruct S as [S|[S E]]; [now rewrite S|].
    rewrite S. simpl. unfold reallyAtEnd.
    replace (sourceEnd st <=? sourceBuffer st)%nat with true; [reflexivity|].
    symmetry; apply Nat.leb_le; lia.
  - destruct fuel as [|fuel]; [simpl in F; lia|].
    simpl in L, P, S, F.
    apply andb_true_iff in L. destruct L as [L0 L].
    apply Ascii.eqb_eq in L0.
    rewrite lookingAt_advance in L.
    apply andb_true_iff in P. destruct P as [P P2].
    apply andb_true_iff in P. destruct P as [P0 P1].
    apply negb_true_iff in P0, P1.
    simpl. unfold scanLineComment_body at 1. rewrite L0, P0, P1.
    rewrite (IH fuel (advance 1 st) L P2); [now rewrite advance_advance| |lia].
    rewrite peek_advance. simpl.
    destruct S as [S|[S E]]; [now left | right; split; [exact S | lia]].
Qed.

(** X11. A line comment is the rest of the line. When the bytes at the
    cursor are [body], free of newlines and NUL, and then a carriage return
    or a line feed, or the NUL at the end of the buffer, [scanLineComment]
    stops exactly on that byte, which it leaves in place, and records the
    one LineComment trivia whose text is the lexeme up to there. *)
Theorem scanLineComment_takes_the_line fuel body st :
  lookingAt body 0 st = true ->
  lineChars body = true ->
  isNewline (peek (String.length body) st) = true \/
  (peek (String.length body) st = NUL /\
   (sourceEnd st <= sourceBuffer st + String.length body)%nat) ->
  (String.length body < fuel)%nat ->
  scanLineComment fuel st
  = Some (addTrivia TriviaKind.LineComment
            (advance (String.length body) st)).
Proof.
  intros L P S F. unfold scanLineComment.
  now rewrite (line_run body fuel st L P S F).
Qed.

Lemma code_eqb a b : (code a =? code b) = Ascii.eqb a b.
Proof.
  destruct (Ascii.eqb_spec a b) as [->|N]; [apply Z.eqb_refl|].
  apply Z.eqb_neq. intros E. apply N. unfold code in E.
  apply N2Z.inj in E.
  rewrite <- (ascii_N_embedding a), <- (ascii_N_embedding b).
  now rewrite E.
Qed.

Lemma prefix_cons a s b t :
  String.prefix (String a s) (String b t)
  = Ascii.eqb a b && String.prefix s t.
Proof.
  simpl. destruct (ascii_dec a b) as [->|N].
  - now rewrite Ascii.eqb_refl.
  - apply Ascii.eqb_neq in N. now rewrite N.
Qed.

Lemma prefix_empty t : String.prefix EmptyString t = true.
Proof. destruct t; reflexivity. Qed.

(** X12. Construction. The cursor starts after the byte-order mark the text
    begins with, if the reported length covers it: two bytes for FF FE or
    FE FF, three for EF BB BF, and at the first byte otherwise; the mark is
    diagnosed as UnicodeBOM and nothing else is; the end pointer is the
    reported length, the mode is Normal and nothing else is recorded. *)
Theorem Lexer_new_skips_byte_order_mark text length :
  Lexer_new text length
  = {| source := text ++ String NUL EmptyString; sourceEnd := length;
       sourceBuffer := markLength text length; marker := 0;
       mode := LexingMode.Normal;
       diagnostics :=
         (if (markLength text length =? 0)%nat then []
          else [DiagCode.UnicodeBOM]);
       triviaBuffer := []; stringBuffer := [];
       vectorBuilder := vb_empty |}.
Proof.
  unfold Lexer_new, markLength, BOM_UTF16_LE, BOM_UTF16_BE, BOM_UTF8.
  cbv zeta.
  change 255 with (code "255"). change 254 with (code "254").
  change 239 with (code "239"). change 187 with (code "187").
  change 191 with (code "191").
  rewrite !code_eqb.
  destruct (2 <=? length)%nat eqn:L2.
  2:{ destruct (3 <=? length)%nat eqn:L3; [|reflexivity].
      apply Nat.leb_le in L3. apply Nat.leb_gt in L2. lia. }
  destruct (3 <=? length)%nat eqn:L3;
    destruct text as [|a [|b [|c t]]];
    unfold peek; cbn [source sourceBuffer String.get String.append Nat.add];
    rewrite ?prefix_cons, ?prefix_empty; cbn [String.prefix];
    rewrite ?andb_true_r, ?andb_false_r; cbn [andb orb];
    rewrite ?(Ascii.eqb_sym a), ?(Ascii.eqb_sym b), ?(Ascii.eqb_sym c);
    repeat match goal with
           | |- context [Ascii.eqb ?x ?y] => destruct (Ascii.eqb x y)
           end; reflexivity.
Qed.

Lemma Lexer_new_buffer text length :
  source (Lexer_new text length) = (text ++ String NUL EmptyString)%string /\
  sourceEnd (Lexer_new text length) = length.
Proof. unfold Lexer_new; cbv zeta; split_ifs; split; reflexivity. Qed.

Lemma nulFree_text text rest :
  textFree text = true ->
  nulFree (String.length text) (text ++ rest) = true.
Proof.
  induction text as [|c text IH]; simpl; [reflexivity|].
  intros E. apply andb_true_iff in E. destruct E as [E1 E2].
  now rewrite E1, IH.
Qed.

Lemma string_length_app (a b : string) :
  String.length (a ++ b) = (String.length a + String.length b)%nat.
Proof. induction a as [|c a IH]; simpl; [reflexivity | now rewrite IH]. Qed.

Lemma shortRuns_terminated text : forall k,
  shortRuns k text = true ->
  shortRuns k (text ++ String NUL EmptyString) = true.
Proof.
  induction text as [|c text IH]; intros k R; simpl; [reflexivity|].
  simpl in R. destruct (numberChar c).
  - destruct k as [|k]; [discriminate R | now apply IH].
  - now apply IH.
Qed.

Lemma asciiText_get text : forall i c,
  asciiText text = true -> String.get i text = Some c -> isASCII c = true.
Proof.
  induction text as [|x text IH]; intros i c A G; [discriminate G|].
  simpl in A. apply andb_true_iff in A. destruct A as [A0 A].
  destruct i as [|i]; simpl in G.
  - inversion G; subst; exact A0.
  - exact (IH i c A G).
Qed.

Lemma get_inside (s : string) : forall i,
  (i < String.length s)%nat -> exists c, String.get i s = Some c.
Proof.
  induction s as [|x s IH]; intros i L; simpl in L; [lia|].
  destruct i as [|i]; simpl; [eexists; reflexivity | apply IH; lia].
Qed.

Section WholeText.
Context `{Externals}.

(** A tame text gives a tame buffer, with the end pointer on the
    terminating NUL. *)
Lemma textTame_tame text :
  textTame text = true -> tame (Lexer_new text (String.length text)).
Proof.
  unfold textTame. intros T.
  apply andb_true_iff in T. destruct T as [T E].
  apply andb_true_iff in T. destruct T as [T A].
  apply andb_true_iff in T. destruct T as [T R].
  destruct (Lexer_new_buffer text (String.length text)) as [S N].
  split; [|split; [|split; [|split]]].
  - unfold cleanBuffer. rewrite N, S. now apply nulFree_text.
  - unfold terminated. rewrite N, S.
    exact (eq_sym (append_correct2 text (String NUL EmptyString) 0)).
  - unfold shortDigitRuns. rewrite S. now apply shortRuns_terminated.
  - unfold escapeSafe, behind, peek. cbv zeta.
    cbn [sourceBuffer source set_sourceBuffer]. rewrite N, S, !Nat.add_0_r.
    unfold endsSafely in E. cbv zeta in E.
    apply andb_true_iff in E. destruct E as [E1 E2].
    apply negb_true_iff in E1, E2. split.
    + intros Q. rewrite Q in E1. discriminate E1.
    + intros [Q1 Q2]. rewrite Q1, Q2 in E2. discriminate E2.
  - intros i L. cbv zeta. unfold peek.
    cbn [sourceBuffer source set_sourceBuffer]. rewrite S, Nat.add_0_r.
    rewrite N in L. destruct (get_inside text i L) as [c G].
    rewrite <- (append_correct1 text (String NUL EmptyString) i L).
    rewrite G. rewrite (asciiText_get _ _ _ A G). discriminate.
Qed.

(** X13. Lexing a text comes to an end. For a text without NUL bytes, runs
    of ten digits, bytes outside ASCII or an escape at its very end, and
    with the end pointer on the terminating NUL, as many calls of [lex] as
    the text has bytes bring the cursor to the end pointer, each of them
    returning a token until then. *)
Theorem lexing_a_text_terminates text fuel :
  textTame text = true ->
  (Datatypes.S (String.length text) < fuel)%nat ->
  reallyAtEnd (snd (lexMany fuel (String.length text) (lexerOn EndAtNul text)))
  = true.
Proof.
  intros T F.
  destruct (textTame_tame text T) as (C & _ & R & _).
  destruct (Lexer_new_buffer text (String.length text)) as [S E].
  unfold lexerOn.
  apply lexMany_runs_out; [|rewrite E; lia].
  split; [split|]; [exact C | | exact R].
  rewrite S, string_length_app. simpl. lia.
Qed.

End WholeText.

(** ** Diagnostics of Unknown tokens *)

Lemma extends_length s s' :
  extends s s' ->
  (List.length (diagnostics s) <= List.length (diagnostics s'))%nat.
Proof.
  intros (_ & _ & new & E). rewrite E, length_app. lia.
Qed.

Section Unknown.
Context `{Externals}.

Lemma lexEscapeSequence_unknown fuel st d st' :
  lexEscapeSequence fuel st = Some (TokenKind.Unknown, d, st') ->
  diagnosedMore st st'.
Proof.
  unfold lexEscapeSequence, diagnosedMore.
  destruct (_ || _).
  - intros E; inversion E; subst. simpl. rewrite length_app. simpl. lia.
  - destruct (loop _ _ _); discriminate.
Qed.

Lemma lexDirective_unknown fuel st d st' :
  lexDirective fuel st = Some (TokenKind.Unknown, d, st') ->
  diagnosedMore st st'.
Proof.
  unfold lexDirective, diagnosedMore.
  destruct (scanIdentifier fuel st) as [s|] eqn:L; [|discriminate].
  apply scanIdentifier_frame in L. destruct L as [L _].
  apply extends_length in L.
  destruct (_ =? _)%nat.
  - intros E; inversion E; subst. simpl. rewrite length_app. simpl. lia.
  - cbv zeta. destruct (getDirectiveKind _); discriminate.
Qed.

Lemma lexDollarSign_known fuel st d st' :
  lexDollarSign fuel st = Some (TokenKind.Unknown, d, st') -> False.
Proof.
  unfold lexDollarSign.
  destruct (scanIdentifier fuel st); [|discriminate].
  destruct (_ =? _)%nat; discriminate.
Qed.

Lemma lexNumericLiteral_known fuel st d st' :
  lexNumericLiteral fuel st = Some (TokenKind.Unknown, d, st') -> False.
Proof.
  unfold lexNumericLiteral; intros E.
  destruct (skipZeros fuel st); [|discriminate].
  destruct (scanUnsignedNumber _ _ _ _ _); [|discriminate].
  destruct (findNextNonWhitespace _ _); [|discriminate].
  destruct (_ && _).
  - destruct (lexVectorLiteral _ _ _) as [[? ?]|]; discriminate.
  - destruct (peek 0 _) as [[] [] [] [] [] [] [] []];
      cbv beta iota zeta in E;
      repeat match type of E with
      | context [lexVectorLiteral ?a ?b ?c] =>
          destruct (lexVectorLiteral a b c) as [[? ?]|]
      | context [lexRealLiteral ?a ?b ?c ?d ?e ?f] =>
          destruct (lexRealLiteral a b c d e f) as [[? ?]|]
      | context [scanUnsignedNumber ?a ?b ?c ?d ?e] =>
          destruct (scanUnsignedNumber a b c d e)
      | context [if ?x then _ else _] => destruct x
      end; discriminate.
Qed.

Lemma lexToken_unknown fuel st d st' :
  lexToken fuel st = Some (TokenKind.Unknown, d, st') ->
  diagnosedMore st st'.
Proof.
  unfold lexToken.
  destruct (peek 0 st) as [[] [] [] [] [] [] [] []];
    cbv beta iota zeta.
  all: try (unfold plain; discriminate).
  all: try (intros E; apply lexDollarSign_known in E; contradiction).
  all: try (intros E; apply lexNumericLiteral_known in E; contradiction).
  all: try (intros E; apply lexEscapeSequence_unknown in E; exact E).
  all: try (destruct (scanIdentifier _ _); discriminate).
  all: try (destruct (lexStringLiteral _ _) as [[? ?]|]; discriminate).
  all: try (unfold unknownToken, diagnosedMore;
            split_ifs; intros E; inversion E; subst; simpl;
            rewrite length_app; simpl; lia).
  all: unfold consume;
    repeat (match goal with
            | |- context [lexUnsizedNumericLiteral ?a ?b] =>
                destruct (lexUnsizedNumericLiteral a b) as [[? ?]|]
            | |- context [if ?x then _ else _] => destruct x
            | |- context [match ?x with _ => _ end] =>
                match type of x with
                | ascii => destruct x as [[] [] [] [] [] [] [] []]
                end
            end; cbv beta iota zeta);
    try (unfold plain; discriminate);
    intros E; apply lexDirective_unknown in E; exact E.
Qed.

(** X15. An Unknown token is never silent: a call of [lex] that returns one
    has added at least one diagnostic, and the token carries its lexeme as an
    identifier payload of type Unknown. *)
Theorem lex_unknown_token_is_diagnosed fuel st t st' :
  lex fuel st = Returned t st' ->
  kind t = TokenKind.Unknown ->
  (List.length (diagnostics st) < List.length (diagnostics st'))%nat /\
  data t = Some (IdentifierInfo (lexeme st') IdentifierType.Unknown).
Proof.
  unfold lex. destruct (reallyAtEnd st); [discriminate|].
  destruct (lexTrivia _ _) as [[b s]|] eqn:T; [|discriminate].
  apply lexTrivia_step in T. destruct T as [[T _] _].
  apply extends_length in T. simpl in T.
  destruct (lexToken _ _) as [[[k d] s']|] eqn:K; [|discriminate].
  intros E; inversion E; subst; clear E. simpl. intros U; subst k.
  pose proof (lexToken_unknown _ _ _ _ K) as G.
  unfold diagnosedMore in G. simpl in G.
  apply lexToken_step in K. destruct K as [_ W].
  split; [lia|].
  destruct d as [[r ty|r kd|r n|r v|r v|r v|r v]|]; simpl in W;
    try contradiction;
    repeat match goal with
           | W : _ /\ _ |- _ => destruct W
           end; subst; try discriminate.
  - destruct ty; try discriminate; reflexivity.
  - destruct (getDirectiveKind _); discriminate.
Qed.

End Unknown.

(** ** Examples of the properties above *)

(** A backslash before a blank is diagnosed; the buffer stays as it was. *)
Lemma lex_keeps_buffer_and_diagnostics_witness :
  let st := lexerOn EndAtNul (BACKSLASH ++ " x") in
  exists t st',
    @lex exampleExternals 8%nat st = Returned t st' /\
    source st' = source st /\ sourceEnd st' = sourceEnd st /\
    exists new, diagnostics st' = diagnostics st ++ new.
Proof.
  cbv zeta. eexists; eexists. split; [vm_compute; reflexivity|].
  eapply (@lex_keeps_buffer_and_diagnostics exampleExternals 8%nat
           (lexerOn EndAtNul (BACKSLASH ++ " x"))).
  vm_compute; reflexivity.
Defined.

(** Blanks, a block comment and a name: the three trivia and the name spell
    the first eleven bytes. *)
Lemma lex_is_lossless_witness :
  let st := lexerOn EndAtNul "  /* c */ x1 + y" in
  exists t st',
    @lex exampleExternals 32%nat st = Returned t st' /\
    (triviaText (trivia t) ++ lexeme st')%string
    = String.substring (sourceBuffer st) (sourceBuffer st' - sourceBuffer st)
        (source st) /\
    (sourceBuffer st <= marker st' < sourceBuffer st')%nat.
Proof.
  cbv zeta. eexists; eexists. split; [vm_compute; reflexivity|].
  eapply (@lex_is_lossless exampleExternals 32%nat
           (lexerOn EndAtNul "  /* c */ x1 + y")).
  vm_compute; reflexivity.
Defined.

(** The include directive of the example table. *)
Lemma lex_token_is_well_formed_witness :
  let st := lexerOn EndAtNul "`include x" in
  exists t st',
    @lex exampleExternals 16%nat st = Returned t st' /\
    @wellFormedToken exampleExternals (kind t) (data t) st'.
Proof.
  cbv zeta. eexists; eexists. split; [vm_compute; reflexivity|].
  eapply (@lex_token_is_well_formed exampleExternals 16%nat
           (lexerOn EndAtNul "`include x")).
  vm_compute; reflexivity.
Defined.

(** After [`define] the lexer is in Directive mode. *)
Lemma lex_mode_changes_witness :
  let st := lexerOn EndAtNul "`define X" in
  exists t st',
    @lex exampleExternals 16%nat st = Returned t st' /\
    kind t = TokenKind.Directive /\
    (mode st' = LexingMode.Directive \/ mode st' = LexingMode.Include).
Proof.
  cbv zeta. eexists; eexists. split; [vm_compute; reflexivity|].
  split; [reflexivity|].
  apply (@lex_mode_changes exampleExternals 16%nat
           (lexerOn EndAtNul "`define X")
           {| kind := TokenKind.Directive;
              data := Some (DirectiveInfo "`define" TriviaKind.OtherDirective);
              trivia := [] |}).
  vm_compute; reflexivity.
Defined.

(** A line comment, a newline and blanks before a name. *)
Lemma lex_normal_token_starts_after_trivia_witness :
  let st := lexerOn EndAtNul ("// c" ++ LF ++ "  x") in
  exists t st',
    @lex exampleExternals 16%nat st = Returned t st' /\
    isWhitespace (peek 0 (set_sourceBuffer (marker st') st')) = false /\
    (peek 0 (set_sourceBuffer (marker st') st') = "/" ->
     peek 1 (set_sourceBuffer (marker st') st') <> "/" /\
     peek 1 (set_sourceBuffer (marker st') st') <> "*").
Proof.
  cbv zeta. eexists; eexists. split; [vm_compute; reflexivity|].
  eapply (@lex_normal_token_starts_after_trivia exampleExternals 16%nat
           (lexerOn EndAtNul ("// c" ++ LF ++ "  x"))).
  - reflexivity.
  - vm_compute; reflexivity.
Defined.

(** An unterminated string literal on a tame buffer still comes back. *)
Lemma lex_returns_on_tame_buffer_witness :
  exists t st',
    @lex exampleExternals 8%nat (lexerOn EndAtNul (QUOTE ++ "abc"))
    = Returned t st'.
Proof.
  apply (@lex_returns_on_tame_buffer exampleExternals 8%nat
           (lexerOn EndAtNul (QUOTE ++ "abc"))).
  - split; [|split; [|split; [|split]]].
    + vm_compute; reflexivity.
    + vm_compute; reflexivity.
    + vm_compute; reflexivity.
    + split; [vm_compute; discriminate|].
      vm_compute; intros [A _]; discriminate A.
    + intros i L; destruct i as [|[|[|[|i]]]];
        try (vm_compute; discriminate).
      vm_compute in L; lia.
  - simpl; lia.
  - reflexivity.
Defined.

(** Five calls are enough for the five bytes of [a + b]. *)
Lemma lexMany_consumes_tame_buffer_witness :
  reallyAtEnd
    (snd (@lexMany exampleExternals 8%nat 5%nat (lexerOn EndAtNul "a + b")))
  = true.
Proof.
  apply (@lexMany_consumes_tame_buffer exampleExternals 8%nat 5%nat
           (lexerOn EndAtNul "a + b")).
  - split; [|split; [|split; [|split]]].
    + vm_compute; reflexivity.
    + vm_compute; reflexivity.
    + vm_compute; reflexivity.
    + split; [vm_compute; discriminate|].
      vm_compute; intros [A _]; discriminate A.
    + intros i L; destruct i as [|[|[|[|[|i]]]]];
        try (vm_compute; discriminate).
      vm_compute in L; lia.
  - simpl; lia.
  - simpl; lia.
Defined.


(** One thousand, written with an underscore. *)
Lemma scanUnsignedNumber_reads_decimal_witness :
  exists r,
    scanUnsignedNumber 8%nat "1" 0 0 (lexerOn EndAtNul "1_000;") = Some r /\
    sn_unsignedVal r = 1000 /\ sn_digits r = 4 /\
    sn_lexer r = advance 5 (lexerOn EndAtNul "1_000;").
Proof.
  apply (scanUnsignedNumber_reads_decimal 8%nat "1_000"
           (lexerOn EndAtNul "1_000;")).
  - reflexivity.
  - reflexivity.
  - vm_compute; discriminate.
  - reflexivity.
  - simpl; lia.
Defined.

(** The literal [hello], read from after its opening quote. *)
Lemma lexStringLiteral_plain_round_trip_witness :
  let st := advance 1 (lexerOn EndAtNul (QUOTE ++ "hello" ++ QUOTE)) in
  exists st',
    lexStringLiteral 8%nat st
    = Some (StringLiteralInfo (lexeme st') (list_ascii_of_string "hello"),
            st') /\
    diagnostics st' = diagnostics st /\
    sourceBuffer st' = (sourceBuffer st + 6)%nat.
Proof.
  cbv zeta.
  apply (lexStringLiteral_plain_round_trip 8%nat "hello"
           (advance 1 (lexerOn EndAtNul (QUOTE ++ "hello" ++ QUOTE)))).
  - reflexivity.
  - reflexivity.
  - simpl; lia.
Defined.

(** The two bytes of a comment before a line feed. *)
Lemma scanLineComment_takes_the_line_witness :
  let st := advance 2 (mark (lexerOn EndAtNul ("// c" ++ LF ++ "x"))) in
  scanLineComment 8%nat st
  = Some (addTrivia TriviaKind.LineComment (advance 2 st)).
Proof.
  cbv zeta.
  apply (scanLineComment_takes_the_line 8%nat " c"
           (advance 2 (mark (lexerOn EndAtNul ("// c" ++ LF ++ "x"))))).
  - reflexivity.
  - reflexivity.
  - left; reflexivity.
  - simpl; lia.
Defined.

(** The text [a + b]. *)
Lemma lexing_a_text_terminates_witness :
  reallyAtEnd
    (snd (@lexMany exampleExternals 8%nat (String.length "a + b")
            (lexerOn EndAtNul "a + b")))
  = true.
Proof.
  apply (@lexing_a_text_terminates exampleExternals "a + b" 8%nat).
  - reflexivity.
  - simpl; lia.
Defined.

(** A backquote alone. *)
Lemma lex_unknown_token_is_diagnosed_witness :
  let st := lexerOn EndAtNul "` x" in
  exists t st',
    @lex exampleExternals 8%nat st = Returned t st' /\
    kind t = TokenKind.Unknown /\
    (List.length (diagnostics st) < List.length (diagnostics st'))%nat /\
    data t = Some (IdentifierInfo (lexeme st') IdentifierType.Unknown).
Proof.
  cbv zeta. eexists; eexists. split; [vm_compute; reflexivity|].
  split; [reflexivity|].
  eapply (@lex_unknown_token_is_diagnosed exampleExternals 8%nat
           (lexerOn EndAtNul "` x")).
  - vm_compute; reflexivity.
  - reflexivity.
Defined.

(** ** Plain integer literals, identifiers and the whitespace lookahead *)

Lemma lookingAt_app a : forall b k st,
  lookingAt (a ++ b) k st
  = lookingAt a k st && lookingAt b (k + String.length a) st.
Proof.
  induction a as [|c a IH]; intros b k st; simpl.
  - now rewrite Nat.add_0_r.
  - rewrite IH, andb_assoc. do 2 f_equal. lia.
Qed.

Lemma lookingAt_shift s : forall k n st,
  lookingAt s (n + k) st = lookingAt s k (advance n st).
Proof.
  induction s as [|c s IH]; intros k n st; simpl; [reflexivity|].
  rewrite peek_advance. f_equal.
  rewrite <- IH. f_equal. lia.
Qed.

Lemma skipZeros_run zeros : forall fuel st,
  lookingAt zeros 0 st = true ->
  allZeros zeros = true ->
  peek (String.length zeros) st <> "0" ->
  (String.length zeros < fuel)%nat ->
  skipZeros fuel st = Some (advance (String.length zeros) st).
Proof.
  unfold skipZeros.
  induction zeros as [|c zeros IH]; intros fuel st L Z P F.
  - destruct fuel as [|fuel]; [simpl in F; lia|]. simpl in *.
    unfold skipZeros_body.
    destruct (Ascii.eqb_spec (peek 0 st) "0") as [Q|Q]; [contradiction|].
    now rewrite advance_0.
  - destruct fuel as [|fuel]; [simpl in F; lia|].
    simpl in L, Z, P, F.
    apply andb_true_iff in L. destruct L as [L0 L].
    apply Ascii.eqb_eq in L0.
    apply andb_true_iff in Z. destruct Z as [Z0 Z].
    apply Ascii.eqb_eq in Z0. rewrite Z0 in L0.
    rewrite lookingAt_advance in L.
    simpl. unfold skipZeros_body at 1. rewrite L0. simpl.
    rewrite (IH fuel (advance 1 st) L Z); [|now rewrite peek_advance|lia].
    now rewrite advance_advance.
Qed.

Lemma parsedDecimal_zeros zeros text :
  allZeros zeros = true ->
  parsedDecimal (zeros ++ text) = parsedDecimal text.
Proof.
  unfold parsedDecimal.
  induction zeros as [|c zeros IH]; intros Z; [reflexivity|].
  simpl in Z. apply andb_true_iff in Z. destruct Z as [Z0 Z].
  apply Ascii.eqb_eq in Z0. subst c.
  change (list_ascii_of_string (String "0" zeros ++ text))
    with ("0" :: list_ascii_of_string (zeros ++ text)).
  cbn [fold_left].
  change (if isDecimalDigit "0" then 0 * 10 + (code "0" - 48) else 0) with 0.
  now apply IH.
Qed.

Lemma findNextNonWhitespace_none fuel st :
  isHorizontalWhitespace (peek 0 st) = false ->
  findNextNonWhitespace (Datatypes.S fuel) st = Some 0%nat.
Proof.
  intros W. unfold findNextNonWhitespace; simpl.
  unfold findNextNonWhitespace_body. now rewrite W.
Qed.








(** ** How string literals and block comments end *)

Lemma plain_run body : forall fuel st,
  lookingAt body 0 st = true ->
  plainChars body = true ->
  loop lexStringLiteral_body (String.length body + fuel) st
  = loop lexStringLiteral_body fuel
      (set_stringBuffer (stringBuffer st ++ list_ascii_of_string body)
         (advance (String.length body) st)).
Proof.
  induction body as [|c body IH]; intros fuel st L P.
  - simpl. rewrite app_nil_r, advance_0. destruct st; reflexivity.
  - simpl in L, P.
    apply andb_true_iff in L. destruct L as [L0 L].
    apply Ascii.eqb_eq in L0.
    rewrite lookingAt_advance in L.
    repeat (apply andb_true_iff in P; destruct P as [P ?]).
    cbn [String.length Nat.add loop]. unfold lexStringLiteral_body at 1.
    rewrite L0.
    repeat match goal with
           | N : negb ?x = true |- _ =>
               apply negb_true_iff in N; rewrite N
           end.
    rewrite (IH fuel (stringBuffer_append c (advance 1 st)));
      [|rewrite <- L; apply lookingAt_same; reflexivity | assumption].
    f_equal. destruct st; unfold stringBuffer_append, advance,
      set_stringBuffer, set_sourceBuffer; simpl.
    rewrite <- app_assoc. simpl. f_equal. lia.
Qed.

Lemma string_stuck fuel s :
  peek 0 s = NUL -> reallyAtEnd s = false ->
  loop lexStringLiteral_body fuel s = None.
Proof.
  intros Z A.
  apply (loop_diverges lexStringLiteral_body
           (fun x => peek 0 x = NUL /\ reallyAtEnd x = false));
    [|now split].
  intros x [Zx Ax]. exists (addError DiagCode.EmbeddedNull x).
  split; [|now split].
  unfold lexStringLiteral_body. rewrite Zx, Ax. reflexivity.
Qed.

(** X19. How a string literal ends. Let the bytes after the opening quote
    be [body], free of backslash, quote, newline and NUL, and let [c] be the
    byte after them. If [c] is a quote the scanner stops after it and
    nothing is diagnosed; if [c] is a carriage return or a line feed the
    scanner stops on it and diagnoses NewlineInStringLiteral; if [c] is the
    NUL at the end of the buffer it stops on it and diagnoses
    UnterminatedStringLiteral. In the three cases the decoded text is
    [body] and the raw text the lexeme up to where the scanner stopped. If
    [c] is a NUL before the end of the buffer the loop diagnoses
    EmbeddedNull without moving and never ends. *)
Theorem lexStringLiteral_ends fuel body st :
  lookingAt body 0 st = true ->
  plainChars body = true ->
  (String.length body < fuel)%nat ->
  let n := String.length body in
  let text := list_ascii_of_string body in
  let stop := set_stringBuffer text (advance n st) in
  let finish s := Some (StringLiteralInfo (lexeme s) text, s) in
  (peek n st = "034" ->
   lexStringLiteral fuel st = finish (advance 1 stop)) /\
  (isNewline (peek n st) = true ->
   lexStringLiteral fuel st
   = finish (addError DiagCode.NewlineInStringLiteral stop)) /\
  (peek n st = NUL -> (sourceEnd st <= sourceBuffer st + n)%nat ->
   lexStringLiteral fuel st
   = finish (addError DiagCode.UnterminatedStringLiteral stop)) /\
  (peek n st = NUL -> (sourceBuffer st + n < sourceEnd st)%nat ->
   lexStringLiteral fuel st = None).
Proof.
  intros L P F n text stop finish.
  assert (R : loop lexStringLiteral_body fuel (set_stringBuffer [] st)
              = loop lexStringLiteral_body (fuel - n) stop).
  { replace fuel with (n + (fuel - n))%nat at 1 by lia.
    unfold n. rewrite plain_run; [reflexivity | | exact P].
    rewrite <- L. apply lookingAt_same; reflexivity. }
  assert (K : peek 0 stop = peek n st).
  { unfold stop, peek, advance; simpl. now rewrite Nat.add_0_r. }
  unfold lexStringLiteral. rewrite R.
  destruct (fuel - n)%nat as [|f] eqn:Ef; [lia|].
  repeat split.
  - intros Q. cbn [loop]. unfold lexStringLiteral_body. rewrite K, Q.
    reflexivity.
  - intros N. cbn [loop]. unfold lexStringLiteral_body. rewrite K.
    destruct (peek n st) as [[] [] [] [] [] [] [] []]; try discriminate N;
      reflexivity.
  - intros Z E. cbn [loop]. unfold lexStringLiteral_body. rewrite K, Z.
    assert (A : reallyAtEnd stop = true)
      by (unfold reallyAtEnd, stop; simpl; apply Nat.leb_le; lia).
    rewrite A. reflexivity.
  - intros Z E. rewrite string_stuck; [reflexivity | now rewrite K |].
    unfold reallyAtEnd, stop; simpl. apply Nat.leb_gt. lia.
Qed.

Lemma quiet_run body : forall fuel st,
  mode st = LexingMode.Normal ->
  lookingAt body 0 st = true ->
  quietComment body (peek (String.length body) st) = true ->
  loop scanBlockComment_body (String.length body + fuel) (false, st)
  = loop scanBlockComment_body fuel (false, advance (String.length body) st).
Proof.
  induction body as [|c body IH]; intros fuel st M L Q.
  - simpl. now rewrite advance_0.
  - simpl in L.
    apply andb_true_iff in L. destruct L as [L0 L].
    apply Ascii.eqb_eq in L0.
    rewrite lookingAt_advance in L.
    cbn [quietComment] in Q.
    assert (Nx : peek 1 st
                 = match body with
                   | EmptyString => peek (String.length (String c body)) st
                   | String d _ => d
                   end).
    { destruct body as [|d body]; [reflexivity|].
      simpl in L. apply andb_true_iff in L. destruct L as [L1 _].
      apply Ascii.eqb_eq in L1. rewrite peek_advance in L1. exact L1. }
    rewrite <- Nx in Q.
    repeat (apply andb_true_iff in Q; destruct Q as [Q ?]).
    repeat match goal with
           | N : negb ?x = true |- _ => apply negb_true_iff in N
           end.
    cbn [String.length Nat.add loop]. unfold scanBlockComment_body at 1.
    rewrite L0.
    repeat match goal with
           | N : _ = false |- _ => rewrite N
           end.
    cbv zeta.
    replace (mode (advance 1 st)) with LexingMode.Normal by now rewrite <- M.
    cbn [LexingMode.isNormal negb andb].
    rewrite (IH fuel (advance 1 st)); [| exact M | exact L |].
    + now rewrite advance_advance.
    + rewrite peek_advance.
      replace (1 + String.length body)%nat
        with (String.length (String c body)) by reflexivity.
      assumption.
Qed.

Lemma comment_stuck fuel eod s :
  peek 0 s = NUL -> reallyAtEnd s = false ->
  loop scanBlockComment_body fuel (eod, s) = None.
Proof.
  intros Z A.
  apply (loop_diverges scanBlockComment_body
           (fun x => peek 0 (snd x) = NUL /\ reallyAtEnd (snd x) = false));
    [|now split].
  intros [e x] [Zx Ax]. simpl in Zx, Ax.
  exists (e, addError DiagCode.EmbeddedNull x).
  split; [|now split].
  unfold scanBlockComment_body. rewrite Zx, Ax. reflexivity.
Qed.

(** X20. How a block comment ends. In Normal mode, let the bytes after the
    opening slash and star be [body], in which no byte is NUL and no two
    bytes in a row, the byte after [body] included, are a star and a slash
    or a slash and a star. If a star and a slash follow, the scanner stops
    after them and nothing is diagnosed: the comment ends at the first star
    and slash. If the NUL at the end of the buffer follows, the scanner
    stops on it and diagnoses UnterminatedBlockComment. In both cases it
    records one BlockComment trivia whose text is the lexeme up to there
    and reports no end of directive. If a NUL before the end of the buffer
    follows, the loop diagnoses EmbeddedNull without moving and never
    ends. *)
Theorem scanBlockComment_ends fuel body st :
  mode st = LexingMode.Normal ->
  lookingAt body 0 st = true ->
  quietComment body (peek (String.length body) st) = true ->
  (String.length body < fuel)%nat ->
  let n := String.length body in
  (peek n st = "*" -> peek (n + 1) st = "/" ->
   scanBlockComment fuel st
   = Some (false, addTrivia TriviaKind.BlockComment (advance (n + 2) st))) /\
  (peek n st = NUL -> (sourceEnd st <= sourceBuffer st + n)%nat ->
   scanBlockComment fuel st
   = Some (false,
           addTrivia TriviaKind.BlockComment
             (addError DiagCode.UnterminatedBlockComment (advance n st)))) /\
  (peek n st = NUL -> (sourceBuffer st + n < sourceEnd st)%nat ->
   scanBlockComment fuel st = None).
Proof.
  intros M L Q F n.
  assert (R : loop scanBlockComment_body fuel (false, st)
              = loop scanBlockComment_body (fuel - n)
                  (false, advance n st)).
  { replace fuel with (n + (fuel - n))%nat at 1 by lia.
    unfold n. now rewrite quiet_run. }
  assert (K0 : peek 0 (advance n st) = peek n st)
    by (rewrite peek_advance; f_equal; lia).
  assert (K1 : peek 1 (advance n st) = peek (n + 1) st)
    by (rewrite peek_advance; reflexivity).
  unfold scanBlockComment. rewrite R.
  destruct (fuel - n)%nat as [|f] eqn:Ef; [lia|].
  repeat split.
  - intros S1 S2. cbn [loop]. unfold scanBlockComment_body.
    rewrite K0, K1, S1, S2. simpl. now rewrite advance_advance.
  - intros Z E. cbn [loop]. unfold scanBlockComment_body. rewrite K0, Z.
    assert (A : reallyAtEnd (advance n st) = true)
      by (unfold reallyAtEnd; simpl; apply Nat.leb_le; lia).
    rewrite A. reflexivity.
  - intros Z E. rewrite comment_stuck; [reflexivity | now rewrite K0 |].
    unfold reallyAtEnd; simpl. apply Nat.leb_gt. lia.
Qed.

(** The literal [ab] cut short by a line feed. *)
Lemma lexStringLiteral_ends_witness :
  let st := advance 1 (lexerOn EndAtNul (QUOTE ++ "ab" ++ LF)) in
  let stop := set_stringBuffer ["a"; "b"] (advance 2 st) in
  lexStringLiteral 8%nat st
  = Some (StringLiteralInfo
            (lexeme (addError DiagCode.NewlineInStringLiteral stop))
            ["a"; "b"],
          addError DiagCode.NewlineInStringLiteral stop).
Proof.
  cbv zeta.
  apply (lexStringLiteral_ends 8%nat "ab"
           (advance 1 (lexerOn EndAtNul (QUOTE ++ "ab" ++ LF)))).
  - reflexivity.
  - reflexivity.
  - simpl; lia.
  - reflexivity.
Defined.

(** A comment closed by the first star and slash; another follows. *)
Lemma scanBlockComment_ends_witness :
  let st := advance 2 (mark (lexerOn EndAtNul "/* c */ */")) in
  scanBlockComment 8%nat st
  = Some (false, addTrivia TriviaKind.BlockComment (advance 5 st)).
Proof.
  cbv zeta.
  apply (scanBlockComment_ends 8%nat " c "
           (advance 2 (mark (lexerOn EndAtNul "/* c */ */")))).
  - reflexivity.
  - reflexivity.
  - reflexivity.
  - simpl; lia.
  - reflexivity.
  - reflexivity.
Defined.

(** ** The value of a real literal *)

Lemma scaleFrom_high d : forall i e acc,
  (forall j, Z.of_nat i <= j -> Z.testbit e j = false) ->
  scaleFrom d i e acc = acc.
Proof.
  induction d as [|p d IH]; intros i e acc Hb; simpl; [reflexivity|].
  rewrite (Hb (Z.of_nat i)) by lia.
  apply IH. intros j Hj. apply Hb. lia.
Qed.

Lemma land_one x : (Z.land x 1 =? 0) = negb (Z.odd x).
Proof.
  change 1 with (Z.ones 1). rewrite Z.land_ones by lia.
  change (2 ^ 1) with 2. rewrite Zmod_odd.
  destruct (Z.odd x); reflexivity.
Qed.

Lemma composeLoop_bits d : forall i e acc,
  0 <= e < 2 ^ Z.of_nat (i + List.length d) ->
  composeLoop d (Z.shiftr e (Z.of_nat i)) acc = Some (scaleFrom d i e acc).
Proof.
  induction d as [|p d IH]; intros i e acc R.
  - cbn [List.length] in R. rewrite Nat.add_0_r in R.
    rewrite Z.shiftr_div_pow2, Z.div_small by lia. reflexivity.
  - cbn [composeLoop scaleFrom].
    destruct (Z.eqb_spec (Z.shiftr e (Z.of_nat i)) 0) as [E|E].
    + rewrite (scaleFrom_high d); [|intros j Hj].
      * replace (Z.testbit e (Z.of_nat i)) with false; [reflexivity|].
        rewrite Z.testbit_odd, E. reflexivity.
      * replace j with (j - Z.of_nat i + Z.of_nat i) by lia.
        rewrite <- Z.shiftr_spec by lia. rewrite E. apply Z.bits_0.
    + rewrite Z.shiftr_shiftr by lia.
      replace (Z.of_nat i + 1) with (Z.of_nat (Datatypes.S i)) by lia.
      rewrite land_one, <- Z.testbit_odd.
      rewrite IH.
      * destruct (Z.testbit e (Z.of_nat i)); reflexivity.
      * cbn [List.length] in R.
        replace (Datatypes.S i + List.length d)%nat
          with (i + Datatypes.S (List.length d))%nat by lia.
        exact R.
Qed.

Lemma composeDouble_scaled fraction exp :
  - 2 ^ 31 < exp < 2 ^ 31 ->
  composeDouble fraction exp
  = Some (PrimFloat.is_finite (scaled fraction exp), scaled fraction exp).
Proof.
  intros R. unfold composeDouble, scaled, scaleBits. cbv zeta.
  set (e := if (if exp <? 0 then toInt32 (- exp) else exp) >? MaxExponent
            then MaxExponent
            else if exp <? 0 then toInt32 (- exp) else exp).
  assert (E : e = Z.min (Z.abs exp) MaxExponent).
  { unfold e, MaxExponent, toInt32.
    change (2 ^ 31) with 2147483648 in *.
    change (2 ^ 32) with 4294967296.
    destruct (Z.ltb_spec exp 0).
    - rewrite Z.mod_small by lia.
      destruct (Z.gtb_spec (- exp + 2147483648 - 2147483648) 511); lia.
    - destruct (Z.gtb_spec exp 511); lia. }
  rewrite E.
  set (m := Z.min (Z.abs exp) MaxExponent).
  assert (M : 0 <= m < 2 ^ Z.of_nat (0 + List.length powersOf10)).
  { unfold m, MaxExponent. change (2 ^ _) with 512. lia. }
  pose proof (composeLoop_bits powersOf10 0 m 1%float M) as L.
  change (Z.of_nat 0) with 0 in L. rewrite Z.shiftr_0_r in L.
  rewrite L. reflexivity.
Qed.

Lemma scaleBits_exact e : 0 <= e <= 18 -> scaleBits e = toDouble (10 ^ e).
Proof.
  intros R.
  assert (C : e = 0 \/ e = 1 \/ e = 2 \/ e = 3 \/ e = 4 \/ e = 5 \/ e = 6 \/
              e = 7 \/ e = 8 \/ e = 9 \/ e = 10 \/ e = 11 \/ e = 12 \/
              e = 13 \/ e = 14 \/ e = 15 \/ e = 16 \/ e = 17 \/ e = 18)
    by lia.
  repeat (destruct C as [->|C]; [vm_compute; reflexivity|]).
  subst e. vm_compute; reflexivity.
Qed.

Lemma digit_is_no_sign c :
  isDecimalDigit c = true ->
  Ascii.eqb c "+" = false /\ Ascii.eqb c "-" = false.
Proof.
  destruct c as [[] [] [] [] [] [] [] []]; intros D;
    try discriminate D; split; reflexivity.
Qed.

Lemma parsedDecimal_bound text :
  numberChars text = true -> digitCount text <= 9 ->
  0 <= parsedDecimal text < 10 ^ 9.
Proof.
  intros C D. unfold parsedDecimal.
  assert (G : forall s v n,
             numberChars s = true -> 0 <= n -> 0 <= v < 10 ^ n ->
             0 <= fold_left
                    (fun acc c =>
                       if isDecimalDigit c then acc * 10 + (code c - 48)
                       else acc) (list_ascii_of_string s) v
             < 10 ^ (n + digitCount s)).
  { clear. induction s as [|c s IH]; intros v n C N V; simpl.
    - now rewrite Z.add_0_r.
    - simpl in C. apply andb_true_iff in C. destruct C as [_ C].
      destruct (isDecimalDigit c) eqn:Dc.
      + pose proof (decimal_digit_value _ Dc) as Rg.
        rewrite (decimal_digit_code _ Dc) in Rg.
        replace (n + (1 + digitCount s)) with ((n + 1) + digitCount s)
          by lia.
        apply IH; [exact C | lia |].
        rewrite Z.pow_add_r by lia. change (10 ^ 1) with 10. lia.
      + rewrite Z.add_0_l. now apply IH. }
  specialize (G text 0 0 C (Z.le_refl 0)).
  destruct G as [G1 G2]; [simpl; lia|].
  split; [exact G1|].
  eapply Z.lt_le_trans; [exact G2|].
  apply Z.pow_le_mono_r; [lia|].
  assert (0 <= digitCount text).
  { clear. induction text as [|x t IHt]; simpl; [lia|].
    destruct (isDecimalDigit x); lia. }
  lia.
Qed.

(** X14. The value of a real literal, for a mantissa below 2^63. Without an
    exponent part the literal is the mantissa times ten to the power
    [decPoint] minus the number of mantissa digits used, at most eighteen.
    With an exponent part, an e, an optional sign and [text], which is made
    of one to nine digits and of underscores and does not leave a zero just
    after the e, the value written in [text], added or, after a minus sign,
    subtracted, is part of that power, and the scanner stops after [text]. The power of ten is the
    product of the table entries at the set bits of the exponent, limited
    to 511, by which the mantissa is multiplied, or divided when the
    exponent is negative; up to eighteen it is the exact power. The literal
    is diagnosed RealExponentTooLarge exactly when this value is not
    finite. At the least [int] the walk through the table never ends inside
    the table. *)
Theorem lexRealLiteral_value :
  (forall fuel value decPoint digits st,
     0 <= value < 2 ^ 63 ->
     0 <= decPoint <= digits -> digits < 2 ^ 31 ->
     lexRealLiteral fuel value decPoint digits false st
     = Some (realLiteral value
               (decPoint - Z.min digits MaxMantissaDigits) st)) /\
  (forall fuel value decPoint digits sign text st,
     0 <= value < 2 ^ 63 ->
     0 <= decPoint <= digits -> digits < 2 ^ 30 ->
     sign = EmptyString \/ sign = "+"%string \/ sign = "-"%string ->
     lookingAt (sign ++ text) 1 st = true ->
     peek 1 st <> "0" ->
     numberChars text = true ->
     isDecimalDigit (peek (1 + String.length sign) st) = true ->
     digitCount text <= 9 ->
     numberChar (peek (1 + String.length sign + String.length text) st)
     = false ->
     (String.length text < fuel)%nat ->
     lexRealLiteral fuel value decPoint digits true st
     = Some (realLiteral value
               (decPoint - Z.min digits MaxMantissaDigits
                + (if String.eqb sign "-" then - parsedDecimal text
                   else parsedDecimal text))
               (advance (1 + String.length sign + String.length text) st))) /\
  (forall e, 0 <= e <= 18 -> scaleBits e = toDouble (10 ^ e)) /\
  (forall fraction, composeDouble fraction (- 2 ^ 31) = None).
Proof.
  split; [|split; [|split]].
  - intros fuel value decPoint digits st _ R D.
    unfold lexRealLiteral. cbv zeta.
    assert (F : toInt32 (decPoint - Z.min digits MaxMantissaDigits)
                = decPoint - Z.min digits MaxMantissaDigits).
    { unfold toInt32, MaxMantissaDigits.
      change (2 ^ 31) with 2147483648 in *.
      change (2 ^ 32) with 4294967296.
      rewrite Z.mod_small by lia. lia. }
    change (toInt32 0) with 0. rewrite F, Z.add_0_r, F.
    rewrite composeDouble_scaled; [reflexivity|].
    unfold MaxMantissaDigits. change (2 ^ 31) with 2147483648 in *. lia.
  - intros fuel value decPoint digits sign text st _ R D Sg L Z C D0 Dn Stop
      F.
    unfold lexRealLiteral. cbv zeta.
    destruct fuel as [|fuel]; [lia|].
    unfold skipZeros. cbn [loop]. unfold skipZeros_body.
    rewrite peek_advance. cbn [Nat.add].
    destruct (Ascii.eqb_spec (peek 1 st) "0") as [Q|_]; [contradiction|].
    rewrite peek_advance. cbn [Nat.add].
    rewrite lookingAt_app in L. apply andb_true_iff in L.
    destruct L as [Ls Lt].
    pose proof (parsedDecimal_bound text C Dn) as B.
    change (10 ^ 9) with 1000000000 in B.
    assert (Fr : toInt32 (decPoint - Z.min digits MaxMantissaDigits)
                 = decPoint - Z.min digits MaxMantissaDigits).
    { unfold toInt32, MaxMantissaDigits.
      change (2 ^ 30) with 1073741824 in *.
      change (2 ^ 31) with 2147483648 in *.
      change (2 ^ 32) with 4294967296.
      rewrite Z.mod_small by lia. lia. }
    assert (Scan : forall s1,
               s1 = advance (1 + String.length sign) st ->
               exists r,
                 scanUnsignedNumber (Datatypes.S fuel) (peek 0 s1) 0 0 s1
                 = Some r /\
                 sn_unsignedVal r = parsedDecimal text /\
                 sn_lexer r
                 = advance (1 + String.length sign + String.length text) st).
    { intros s1 ->.
      destruct (scan_digits text (Datatypes.S fuel) 0 0
                  (advance (1 + String.length sign) st))
        as (r & R1 & R2 & _ & R4 & _).
      - rewrite <- lookingAt_shift. rewrite Nat.add_0_r. exact Lt.
      - exact C.
      - unfold mantissa; simpl; lia.
      - unfold MaxMantissaDigits. lia.
      - rewrite peek_advance. exact Stop.
      - lia.
      - exists r. split; [exact R1|]. split; [exact R2|].
        rewrite R4, advance_advance. reflexivity. }
    assert (Fe : toInt32 (parsedDecimal text) = parsedDecimal text)
      by (apply toInt32_small; unfold INT32_MAX; lia).
    assert (Range : forall x, x = parsedDecimal text \/ x = - parsedDecimal text ->
               toInt32 (decPoint - Z.min digits MaxMantissaDigits + x)
               = decPoint - Z.min digits MaxMantissaDigits + x /\
               - 2 ^ 31 < decPoint - Z.min digits MaxMantissaDigits + x
                 < 2 ^ 31).
    { intros x Hx. unfold toInt32, MaxMantissaDigits.
      change (2 ^ 30) with 1073741824 in *.
      change (2 ^ 31) with 2147483648 in *.
      change (2 ^ 32) with 4294967296.
      rewrite Z.mod_small by lia. lia. }
    destruct Sg as [-> | [-> | ->]].
    + cbn [String.length Nat.add] in *. cbn [String.eqb].
      destruct (digit_is_no_sign _ D0) as [P M].
      rewrite P, M. cbv beta iota.
      rewrite peek_advance. cbn [Nat.add]. rewrite D0. cbn [negb].
      destruct (Scan (advance 1 st) eq_refl) as (r & R1 & R2 & R3).
      rewrite peek_advance in R1. cbn [Nat.add] in R1.
      rewrite R1, R2, R3, Fr, Fe.
      destruct (Range (parsedDecimal text) (or_introl eq_refl)) as [T1 T2].
      rewrite T1, composeDouble_scaled by exact T2. reflexivity.
    + cbn [String.length Nat.add] in *.
      simpl in Ls. rewrite andb_true_r in Ls. apply Ascii.eqb_eq in Ls.
      rewrite Ls.
      change (Ascii.eqb "+" "+") with true. cbv beta iota.
      rewrite advance_advance, peek_advance. cbn [Nat.add].
      rewrite D0. cbn [negb].
      destruct (Scan (advance 2 st) eq_refl) as (r & R1 & R2 & R3).
      rewrite peek_advance in R1. cbn [Nat.add] in R1.
      rewrite R1, R2, R3, Fr, Fe.
      destruct (Range (parsedDecimal text) (or_introl eq_refl)) as [T1 T2].
      change (String.eqb "+" "-") with false. cbv iota.
      rewrite T1, composeDouble_scaled by exact T2. reflexivity.
    + cbn [String.length Nat.add] in *.
      simpl in Ls. rewrite andb_true_r in Ls. apply Ascii.eqb_eq in Ls.
      rewrite Ls.
      change (Ascii.eqb "-" "+") with false.
      change (Ascii.eqb "-" "-") with true. cbv beta iota.
      rewrite advance_advance, peek_advance. cbn [Nat.add].
      rewrite D0. cbn [negb].
      destruct (Scan (advance 2 st) eq_refl) as (r & R1 & R2 & R3).
      rewrite peek_advance in R1. cbn [Nat.add] in R1.
      rewrite R1, R2, R3, Fr, Fe.
      destruct (Range (- parsedDecimal text) (or_intror eq_refl))
        as [T1 T2].
      change (String.eqb "-" "-") with true. cbv iota.
      replace (decPoint - Z.min digits MaxMantissaDigits
               - parsedDecimal text)
        with (decPoint - Z.min digits MaxMantissaDigits
              + - parsedDecimal text) by lia.
      rewrite T1, composeDouble_scaled by exact T2. reflexivity.
  - exact scaleBits_exact.
  - intros fraction. unfold composeDouble. cbv zeta.
    change (- 2 ^ 31 <? 0) with true. cbv iota.
    replace (toInt32 (- - 2 ^ 31)) with (- 2 ^ 31) by reflexivity.
    change (- 2 ^ 31 >? MaxExponent) with false. cbv iota.
    rewrite composeLoop_negative; [reflexivity|].
    change (2 ^ 31) with 2147483648. lia.
Qed.

(** The exponent part of [15e-3], after a mantissa of two digits with the
    point after the first: 15 times ten to the power -4. *)
Lemma lexRealLiteral_value_witness :
  let st := advance 2 (lexerOn EndAtNul "15e-3;") in
  lexRealLiteral 8%nat 15 1 2 true st
  = Some (realLiteral 15 (1 - Z.min 2 MaxMantissaDigits
                          + (if String.eqb "-" "-" then - parsedDecimal "3"
                             else parsedDecimal "3"))
            (advance (1 + String.length "-" + String.length "3") st)).
Proof.
  cbv zeta.
  apply (proj1 (proj2 lexRealLiteral_value) 8%nat 15 1 2 "-"%string
           "3"%string (advance 2 (lexerOn EndAtNul "15e-3;"))).
  - vm_compute; split; [discriminate | reflexivity].
  - lia.
  - vm_compute; reflexivity.
  - right; right; reflexivity.
  - reflexivity.
  - vm_compute; discriminate.
  - reflexivity.
  - reflexivity.
  - vm_compute; discriminate.
  - reflexivity.
  - simpl; lia.
Defined.

(** ** Sized vector literals, from the size to the last digit *)

Lemma appendDigits_nil st : appendDigits [] st = st.
Proof.
  destruct st as [a b c d e f g h [v1 v2 v3 v4]].
  unfold appendDigits, set_vectorBuilder; simpl. now rewrite app_nil_r.
Qed.

Lemma appendDigits_app d ds n st :
  appendDigits ds (advance n (appendDigits d (advance 1 st)))
  = appendDigits (d ++ ds) (advance (Datatypes.S n) st).
Proof.
  unfold appendDigits, advance, set_vectorBuilder, set_sourceBuffer; simpl.
  rewrite <- app_assoc.
  now replace (sourceBuffer st + 1 + n)%nat
    with (sourceBuffer st + Datatypes.S n)%nat by lia.
Qed.

Lemma vectorChar_body b c st :
  peek 0 st = c ->
  lexVectorDigits_body (basePredicate b) (baseValue b) st
  = match vectorChar b c with
    | Some [] => Continue (advance 1 st)
    | Some (d :: _) =>
        Continue
          (advance 1 (set_vectorBuilder (vb_addDigit d (vectorBuilder st)) st))
    | None => Break (NumericVector (lexeme st) (vectorBuilder st), st)
    end.
Proof.
  intros E. unfold lexVectorDigits_body. rewrite E.
  destruct b; destruct c as [[] [] [] [] [] [] [] []]; reflexivity.
Qed.

Lemma vectorChar_one b c d :
  vectorChar b c = Some d -> d = [] \/ exists x, d = [x].
Proof.
  unfold vectorChar.
  destruct (Ascii.eqb c "_"); [intros E; inversion E; now left|].
  destruct (_ || _); [intros E; inversion E; right; eexists; reflexivity|].
  destruct (_ || _); [intros E; inversion E; right; eexists; reflexivity|].
  destruct (lookupDigit _ _); simpl; intros E; inversion E.
  right; eexists; reflexivity.
Qed.

Lemma vectorChar_first b c d :
  vectorChar b c = Some d -> Ascii.eqb c "_" = false ->
  isHorizontalWhitespace c = false /\
  negb (basePredicate b c) && negb (isLogicDigit c) = false.
Proof.
  destruct b; destruct c as [[] [] [] [] [] [] [] []]; intros E U;
    try discriminate E; try discriminate U; split; reflexivity.
Qed.

Lemma vector_run b body : forall fuel st ds,
  lookingAt body 0 st = true ->
  vectorDigits b body = Some ds ->
  loop (lexVectorDigits_body (basePredicate b) (baseValue b))
    (String.length body + fuel) st
  = loop (lexVectorDigits_body (basePredicate b) (baseValue b)) fuel
      (appendDigits ds (advance (String.length body) st)).
Proof.
  induction body as [|c body IH]; intros fuel st ds L V.
  - simpl in V. inversion V; subst.
    simpl. now rewrite advance_0, appendDigits_nil.
  - simpl in L, V.
    apply andb_true_iff in L. destruct L as [L0 L].
    apply Ascii.eqb_eq in L0.
    rewrite lookingAt_advance in L.
    destruct (vectorChar b c) as [d|] eqn:Vc; [|discriminate V].
    destruct (vectorDigits b body) as [ds'|] eqn:Vs; [|discriminate V].
    inversion V; subst ds; clear V.
    cbn [String.length Nat.add loop].
    rewrite (vectorChar_body b c st L0), Vc.
    destruct (vectorChar_one _ _ _ Vc) as [->|[x ->]].
    + rewrite (IH fuel (advance 1 st) ds' L eq_refl).
      now rewrite advance_advance.
    + change (advance 1 (set_vectorBuilder (vb_addDigit x (vectorBuilder st))
                           st))
        with (appendDigits [x] (advance 1 st)).
      rewrite (IH fuel (appendDigits [x] (advance 1 st)) ds');
        [|rewrite <- L; apply lookingAt_same; reflexivity | reflexivity].
      now rewrite appendDigits_app.
Qed.

Lemma lexVectorDigitsIn_digits b fuel body ds st :
  lookingAt body 0 st = true ->
  vectorDigits b body = Some ds ->
  startsWithDigit body = true ->
  vectorChar b (peek (String.length body) st) = None ->
  (String.length body < fuel)%nat ->
  let st' := appendDigits ds (advance (String.length body) st) in
  lexVectorDigitsIn b fuel st
  = Some (NumericVector (lexeme st') (vectorBuilder st'), st').
Proof.
  intros L V S E F st'.
  rewrite lexVectorDigitsIn_eq. unfold lexVectorDigits.
  destruct body as [|c body]; [discriminate S|].
  simpl in S. apply negb_true_iff in S.
  pose proof L as L'. simpl in L'.
  apply andb_true_iff in L'. destruct L' as [L0 _].
  apply Ascii.eqb_eq in L0.
  assert (Vc : exists d, vectorChar b c = Some d).
  { simpl in V. destruct (vectorChar b c) as [d|]; [|discriminate V].
    now exists d. }
  destruct Vc as [d Vc].
  destruct (vectorChar_first b c d Vc S) as [W G].
  destruct fuel as [|fuel]; [lia|].
  rewrite findNextNonWhitespace_none by (now rewrite L0).
  cbv zeta. rewrite L0, G. rewrite advance_0.
  replace (Datatypes.S fuel)
    with (String.length (String c body)
          + (Datatypes.S fuel - String.length (String c body)))%nat by lia.
  rewrite (vector_run b (String c body) _ st ds L V).
  fold st'.
  destruct (Datatypes.S fuel - String.length (String c body))%nat
    as [|f] eqn:Ef; [lia|].
  cbn [loop].
  assert (K : peek 0 st' = peek (String.length (String c body)) st).
  { unfold st', appendDigits, peek, advance; simpl.
    now rewrite Nat.add_0_r. }
  rewrite (vectorChar_body b _ st' K), E. reflexivity.
Qed.

Lemma base_letter_is_no_sign letter b :
  In (letter, b) baseLetters ->
  Ascii.eqb letter "s" || Ascii.eqb letter "S" = false /\
  baseOfChar letter = Some b.
Proof.
  simpl. intros I.
  repeat (destruct I as [I|I]; [inversion I; split; reflexivity|]).
  contradiction.
Qed.

Lemma set_diagnostics_same st : set_diagnostics (diagnostics st ++ []) st = st.
Proof. destruct st; unfold set_diagnostics; simpl. now rewrite app_nil_r. Qed.

(** The sized literal from after its apostrophe: [size64] is the size the
    numeric scanner hands over. *)
Lemma lexVectorLiteral_digits fuel size64 sgn letter b body ds st :
  0 <= size64 < 2 ^ 64 ->
  sgn = EmptyString \/ sgn = "s"%string \/ sgn = "S"%string ->
  In (letter, b) baseLetters ->
  lookingAt (sgn ++ String letter body) 0 st = true ->
  vectorDigits b body = Some ds ->
  startsWithDigit body = true ->
  vectorChar b
    (peek (String.length sgn + Datatypes.S (String.length body)) st) = None ->
  (String.length body < fuel)%nat ->
  let V := sizedVector size64 (negb (String.eqb sgn EmptyString)) ds in
  let st' :=
    set_vectorBuilder V
      (advance (String.length sgn + Datatypes.S (String.length body))
         (set_diagnostics (diagnostics st ++ sizeDiagnostics size64) st)) in
  lexVectorLiteral fuel size64 st = Some (NumericVector (lexeme st') V, st').
Proof.
  intros R Sg I L V S E F.
  destruct (base_letter_is_no_sign letter b I) as [NS B].
  unfold lexVectorLiteral.
  set (st0 := set_diagnostics (diagnostics st ++ sizeDiagnostics size64) st).
  assert (Sz : (if size64 =? 0
                then (0, addError DiagCode.IntegerSizeZero st)
                else
                  let '(size64', s) :=
                    if size64 >? UINT32_MAX
                    then (UINT32_MAX,
                          addError DiagCode.IntegerSizeTooLarge st)
                    else (size64, st) in
                  (size64' mod 2 ^ 32, s))
               = ((if size64 =? 0 then 0 else Z.min size64 UINT32_MAX), st0)).
  { unfold st0, sizeDiagnostics, UINT32_MAX in *.
    change (2 ^ 64) with 18446744073709551616 in R.
    change (2 ^ 32) with 4294967296.
    destruct (Z.eqb_spec size64 0); [reflexivity|].
    destruct (Z.gtb_spec size64 4294967295).
    - rewrite Z.min_r by lia. reflexivity.
    - rewrite Z.min_l by lia. rewrite Z.mod_small by lia.
      now rewrite set_diagnostics_same. }
  rewrite Sz. clear Sz. cbv beta iota zeta.
  assert (Pk : forall k, peek k st0 = peek k st) by reflexivity.
  assert (L0 : lookingAt (sgn ++ String letter body) 0 st0 = true)
    by (rewrite <- L; apply lookingAt_same; reflexivity).
  rewrite lookingAt_app in L0. apply andb_true_iff in L0.
  destruct L0 as [Ls Lb]. cbn [Nat.add] in Lb.
  cbn [lookingAt] in Lb. apply andb_true_iff in Lb. destruct Lb as [Ll Lb].
  apply Ascii.eqb_eq in Ll.
  assert (Fin : forall isSigned s1,
             s1 = advance (String.length sgn) st0 ->
             lexVectorDigitsIn b fuel
               (advance 1
                  (set_vectorBuilder
                     (vb_start
                        (if size64 =? 0 then 0
                         else Z.min size64 UINT32_MAX) isSigned) s1))
             = Some
                 (NumericVector
                    (lexeme
                       (set_vectorBuilder (sizedVector size64 isSigned ds)
                          (advance
                             (String.length sgn
                              + Datatypes.S (String.length body)) st0)))
                    (sizedVector size64 isSigned ds),
                  set_vectorBuilder (sizedVector size64 isSigned ds)
                    (advance
                       (String.length sgn + Datatypes.S (String.length body))
                       st0))).
  { intros isSigned s1 ->.
    rewrite (lexVectorDigitsIn_digits b fuel body ds); try assumption.
    - cbv zeta. unfold appendDigits, sizedVector, vb_start, advance,
        set_vectorBuilder, set_sourceBuffer, lexeme, lexemeLength; simpl.
      replace (sourceBuffer st + String.length sgn + 1
               + String.length body)%nat
        with (sourceBuffer st
              + (String.length sgn + Datatypes.S (String.length body)))%nat
        by lia.
      reflexivity.
    - rewrite <- Lb.
      replace (Datatypes.S (String.length sgn))
        with (String.length sgn + 1 + 0)%nat by lia.
      rewrite (lookingAt_shift body 0 (String.length sgn + 1) st0).
      apply lookingAt_same; simpl; [reflexivity | lia].
    - match goal with
      | |- vectorChar b ?p = None =>
          replace p
            with (peek (String.length sgn + Datatypes.S (String.length body))
                    st); [exact E|]
      end.
      unfold peek, advance; simpl.
      now replace (sourceBuffer st + String.length sgn + 1
                   + String.length body)%nat
        with (sourceBuffer st
              + (String.length sgn + Datatypes.S (String.length body)))%nat
        by lia. }
  destruct Sg as [-> | [-> | ->]].
  - cbn [String.length Nat.add] in *.
    rewrite Ll, NS. cbv beta iota zeta. rewrite B.
    rewrite (Fin false st0 (eq_sym (advance_0 st0))). reflexivity.
  - cbn [String.length Nat.add] in *.
    simpl in Ls. rewrite andb_true_r in Ls. apply Ascii.eqb_eq in Ls.
    rewrite Ls. change (Ascii.eqb "s" "s") with true.
    cbn [orb]. cbv beta iota zeta. rewrite peek_advance. cbn [Nat.add].
    rewrite Ll, B.
    rewrite (Fin true (advance 1 st0) eq_refl). reflexivity.
  - cbn [String.length Nat.add] in *.
    simpl in Ls. rewrite andb_true_r in Ls. apply Ascii.eqb_eq in Ls.
    rewrite Ls. change (Ascii.eqb "S" "s") with false.
    change (Ascii.eqb "S" "S") with true.
    cbn [orb]. cbv beta iota zeta. rewrite peek_advance. cbn [Nat.add].
    rewrite Ll, B.
    rewrite (Fin true (advance 1 st0) eq_refl). reflexivity.
Qed.

(** The sized literal from its first byte: the size is the number written
    before the apostrophe, when it has at most eighteen digits. *)
Lemma lexNumericLiteral_sized fuel zeros text sgn letter b body ds st :
  lookingAt (zeros ++ text ++ String "'" (sgn ++ String letter body)) 0 st
  = true ->
  allZeros zeros = true ->
  peek (String.length zeros) st <> "0" ->
  numberChars text = true ->
  digitCount text <= MaxMantissaDigits ->
  sgn = EmptyString \/ sgn = "s"%string \/ sgn = "S"%string ->
  In (letter, b) baseLetters ->
  vectorDigits b body = Some ds ->
  startsWithDigit body = true ->
  let n :=
    String.length (zeros ++ text ++ String "'" (sgn ++ String letter body)) in
  vectorChar b (peek n st) = None ->
  (n < fuel)%nat ->
  let size := parsedDecimal (zeros ++ text) in
  let V := sizedVector size (negb (String.eqb sgn EmptyString)) ds in
  let st' :=
    set_vectorBuilder V
      (advance n
         (set_diagnostics (diagnostics st ++ sizeDiagnostics size) st)) in
  lexNumericLiteral fuel st
  = Some (TokenKind.IntegerLiteral, Some (NumericVector (lexeme st') V), st').
Proof.
  intros L Z P C D Sg I V S n E F size V0 st'.
  assert (N : n = (String.length zeros + String.length text + 1
                   + (String.length sgn + Datatypes.S (String.length body)))%nat).
  { unfold n. rewrite !string_length_app. cbn [String.length].
    rewrite string_length_app. cbn [String.length]. lia. }
  rewrite lookingAt_app in L. apply andb_true_iff in L. destruct L as [L1 L2].
  rewrite lookingAt_app in L2. apply andb_true_iff in L2.
  destruct L2 as [L2 L3]. cbn [Nat.add] in L2, L3.
  cbn [lookingAt] in L3. apply andb_true_iff in L3. destruct L3 as [L3 L4].
  apply Ascii.eqb_eq in L3.
  rewrite <- (Nat.add_0_r (String.length zeros)) in L2.
  rewrite lookingAt_shift in L2.
  unfold lexNumericLiteral.
  rewrite (skipZeros_run zeros fuel st L1 Z P) by lia.
  destruct (scan_digits text fuel 0 0
              (advance (String.length zeros) st) L2 C mantissa_start)
    as (r & R1 & R2 & R3 & R4 & _);
    [lia | rewrite peek_advance, L3; reflexivity | lia |].
  fold (parsedDecimal text) in R2.
  rewrite R1. rewrite R4, advance_advance.
  set (st2 := advance (String.length zeros + String.length text) st).
  assert (P0 : peek 0 st2 = "'")
    by (unfold st2; rewrite peek_advance, Nat.add_0_r; exact L3).
  destruct fuel as [|fuel]; [lia|].
  rewrite findNextNonWhitespace_none by (rewrite P0; reflexivity).
  simpl andb. cbv iota. rewrite P0. cbv iota.
  pose proof (scanUnsignedNumber_mantissa _ _ _ _ _ _ mantissa_start R1)
    as (_ & Vb0 & Vb).
  rewrite R2 in *.
  assert (R64 : 0 <= parsedDecimal text < 2 ^ 64).
  { split; [lia|]. eapply Z.lt_le_trans; [apply Vb|].
    eapply Z.le_trans;
      [apply Z.pow_le_mono_r; [lia | apply Z.le_min_r]|].
    unfold MaxMantissaDigits. vm_compute. discriminate. }
  rewrite (lexVectorLiteral_digits (Datatypes.S fuel) (parsedDecimal text)
             sgn letter b body ds (advance 1 st2) R64 Sg I).
  - cbv zeta. unfold st', V0, size.
    rewrite parsedDecimal_zeros by exact Z.
    replace (set_vectorBuilder
               (sizedVector (parsedDecimal text)
                  (negb (String.eqb sgn EmptyString)) ds)
               (advance
                  (String.length sgn + Datatypes.S (String.length body))
                  (set_diagnostics
                     (diagnostics (advance 1 st2)
                      ++ sizeDiagnostics (parsedDecimal text))
                     (advance 1 st2))))
      with (set_vectorBuilder
              (sizedVector (parsedDecimal text)
                 (negb (String.eqb sgn EmptyString)) ds)
              (advance n
                 (set_diagnostics
                    (diagnostics st ++ sizeDiagnostics (parsedDecimal text))
                    st))); [reflexivity|].
    unfold st2, advance, set_vectorBuilder, set_diagnostics,
      set_sourceBuffer; simpl.
    now replace (sourceBuffer st + n)%nat
      with (sourceBuffer st
            + (String.length zeros + String.length text) + 1
            + (String.length sgn + Datatypes.S (String.length body)))%nat
      by lia.
  - rewrite <- L4. unfold st2.
    rewrite advance_advance.
    replace (Datatypes.S (String.length zeros + String.length text))
      with (String.length zeros + String.length text + 1 + 0)%nat by lia.
    rewrite (lookingAt_shift _ 0). reflexivity.
  - exact V.
  - exact S.
  - rewrite <- E. unfold st2. rewrite advance_advance, peek_advance.
    do 2 f_equal. lia.
  - lia.
Qed.

(** C6, with its failing input. With the cursor after the apostrophe of a
    sized vector literal and enough fuel, [lexVectorLiteral] returns;
    IntegerSizeZero is recorded exactly for size 0 and IntegerSizeTooLarge
    exactly for a size above 2^32-1; the builder is started with the size,
    clamped to UINT32_MAX, and with the signed flag set exactly when s or S
    comes first; a missing base letter is diagnosed MissingVectorBase.
    From the first byte of the literal: when the size is written with at
    most eighteen digits, the size of the vector is the number written,
    clamped; the letter, one of d D o O h H b B, selects the base in which
    the digits are read; the digits stored are the digits written, each
    with its value in that base, x and z for the logic digits, underscores
    left out; the literal ends at the first byte that is no digit of the
    base; only the size is diagnosed. The input 4'sb10xz is lexed as the
    signed binary vector of size 4 with the digits 1, 0, x, z. The size is
    not the number written when the leading-zero loop has stopped at an
    underscore and eighteen zeros follow: the size 9999999999 of the last
    input is above 2^32-1 and is stored as 0 with IntegerSizeZero instead of
    UINT32_MAX with IntegerSizeTooLarge. *)
Theorem sized_vector_literal `{Externals} :
  (forall (fuel : nat) (size64 : Z) (st : Lexer),
      0 <= size64 < 2 ^ 64 ->
      (String.length (source st) < fuel)%nat ->
      let isSigned :=
        Ascii.eqb (peek 0 st) "s" || Ascii.eqb (peek 0 st) "S" in
      let c := if isSigned then peek 1 st else peek 0 st in
      exists info st',
        lexVectorLiteral fuel size64 st = Some (info, st') /\
        let new := diagnosedSince st st' in
        (diagnosed DiagCode.IntegerSizeZero new = true <-> size64 = 0) /\
        (diagnosed DiagCode.IntegerSizeTooLarge new = true
         <-> UINT32_MAX < size64) /\
        lv_size (vectorBuilder st')
        = (if size64 =? 0 then 0 else Z.min size64 UINT32_MAX) /\
        lv_signed (vectorBuilder st') = isSigned /\
        (diagnosed DiagCode.MissingVectorBase new = true
         <-> baseOfChar c = None) /\
        (baseOfChar c = None -> info = NumericInt (lexeme st') 0) /\
        (forall b, baseOfChar c = Some b ->
           Forall (digitBelow (radix b)) (lv_digits (vectorBuilder st')))) /\
  (forall (fuel : nat) (zeros text sgn : string) (letter : ascii)
          (b : VectorBase) (body : string) (ds : list logic_t) (st : Lexer),
      lookingAt (zeros ++ text ++ String "'" (sgn ++ String letter body)) 0 st
      = true ->
      allZeros zeros = true ->
      peek (String.length zeros) st <> "0" ->
      numberChars text = true ->
      digitCount text <= MaxMantissaDigits ->
      sgn = EmptyString \/ sgn = "s"%string \/ sgn = "S"%string ->
      In (letter, b) baseLetters ->
      vectorDigits b body = Some ds ->
      startsWithDigit body = true ->
      let n :=
        String.length
          (zeros ++ text ++ String "'" (sgn ++ String letter body)) in
      vectorChar b (peek n st) = None ->
      (n < fuel)%nat ->
      let size := parsedDecimal (zeros ++ text) in
      let V := sizedVector size (negb (String.eqb sgn EmptyString)) ds in
      let st' :=
        set_vectorBuilder V
          (advance n
             (set_diagnostics (diagnostics st ++ sizeDiagnostics size) st)) in
      lexNumericLiteral fuel st
      = Some (TokenKind.IntegerLiteral,
              Some (NumericVector (lexeme st') V), st')) /\
  (forall c b, baseOfChar c = Some b <-> In (c, b) baseLetters) /\
  lexesTo "4'sb10xz" TokenKind.IntegerLiteral
    (Some (NumericVector "4'sb10xz"
             {| lv_sized := true; lv_size := 4; lv_signed := true;
                lv_digits := [logic_val 1; logic_val 0; logic_x; logic_z] |}))
    [] /\
  lexesTo "8'hFf" TokenKind.IntegerLiteral
    (Some (NumericVector "8'hFf"
             {| lv_sized := true; lv_size := 8; lv_signed := false;
                lv_digits := [logic_val 15; logic_val 15] |}))
    [] /\
  lexesTo "6'O17" TokenKind.IntegerLiteral
    (Some (NumericVector "6'O17"
             {| lv_sized := true; lv_size := 6; lv_signed := false;
                lv_digits := [logic_val 1; logic_val 7] |}))
    [] /\
  lexesTo "12'SD9_5" TokenKind.IntegerLiteral
    (Some (NumericVector "12'SD9_5"
             {| lv_sized := true; lv_size := 12; lv_signed := true;
                lv_digits := [logic_val 9; logic_val 5] |}))
    [] /\
  lexesTo "0'd1" TokenKind.IntegerLiteral
    (Some (NumericVector "0'd1"
             {| lv_sized := true; lv_size := 0; lv_signed := false;
                lv_digits := [logic_val 1] |}))
    [DiagCode.IntegerSizeZero] /\
  lexesTo "4294967296'd1" TokenKind.IntegerLiteral
    (Some (NumericVector "4294967296'd1"
             {| lv_sized := true; lv_size := UINT32_MAX; lv_signed := false;
                lv_digits := [logic_val 1] |}))
    [DiagCode.IntegerSizeTooLarge] /\
  lexesTo "4's" TokenKind.IntegerLiteral (Some (NumericInt "4's" 0))
    [DiagCode.MissingVectorBase] /\
  parsedDecimal zeroPaddedLarge = 9999999999 /\
  sizedVector (parsedDecimal zeroPaddedLarge) false [logic_val 1]
  = {| lv_sized := true; lv_size := UINT32_MAX; lv_signed := false;
       lv_digits := [logic_val 1] |} /\
  sizeDiagnostics (parsedDecimal zeroPaddedLarge)
  = [DiagCode.IntegerSizeTooLarge] /\
  lexesTo zeroPaddedSize TokenKind.IntegerLiteral
    (Some (NumericVector zeroPaddedSize
             {| lv_sized := true; lv_size := 0; lv_signed := false;
                lv_digits := [logic_val 1] |}))
    [DiagCode.IntegerSizeZero].
Proof.
  split.
  { intros fuel size64 st R F isSigned c.
    destruct (lexVectorLiteral_returns fuel size64 st R F)
      as (info & st' & rest & L & Dg & Sz & Sn & B).
    fold isSigned in Sn, B. fold c in B.
    exists info, st'. split; [exact L|]. cbv zeta.
    rewrite (diagnosedSince_app _ _ _ Dg). unfold sizeDiagnostics.
    split; [|split; [|split; [exact Sz|split; [exact Sn|]]]].
    - destruct (baseOfChar c); destruct B as [B1 B2];
        [destruct B1 as [-> | ->] | subst rest];
        destruct (Z.eqb_spec size64 0);
        try destruct (Z.gtb_spec size64 UINT32_MAX);
        simpl; split; intros; try discriminate; try reflexivity;
        try contradiction; unfold UINT32_MAX in *; lia.
    - destruct (baseOfChar c); destruct B as [B1 B2];
        [destruct B1 as [-> | ->] | subst rest];
        destruct (Z.eqb_spec size64 0);
        try destruct (Z.gtb_spec size64 UINT32_MAX);
        simpl; split; intros; try discriminate; try reflexivity;
        try contradiction; unfold UINT32_MAX in *; lia.
    - destruct (baseOfChar c); destruct B as [B1 B2].
      + split; [|split; [discriminate|]].
        * destruct B1 as [-> | ->];
            destruct (Z.eqb_spec size64 0);
            try destruct (Z.gtb_spec size64 UINT32_MAX);
            simpl; split; intros; discriminate.
        * intros b E; inversion E; subst; exact B2.
      + subst rest. split; [|split; [intros _; exact B2 | discriminate]].
        destruct (Z.eqb_spec size64 0);
          try destruct (Z.gtb_spec size64 UINT32_MAX);
          simpl; split; reflexivity. }
  split.
  { intros fuel zeros text sgn letter b body ds st L Z P C D Sg I V S n E F.
    apply (lexNumericLiteral_sized fuel zeros text sgn letter b body ds st);
      assumption. }
  split; [exact baseOfChar_letters|].
  do 7 (split; [lexes_to|]).
  split; [reflexivity|]. split; [reflexivity|]. split; [reflexivity|].
  lexes_to.
Qed.

(** The literal [8'shFf]: size 8, signed, the hexadecimal digits 15 and
    15. *)
Lemma sized_vector_literal_witness :
  let st := lexerOn EndAtNul "8'shFf;" in
  let V := sizedVector 8 true [logic_val 15; logic_val 15] in
  let st' :=
    set_vectorBuilder V
      (advance 6 (set_diagnostics (diagnostics st ++ []) st)) in
  lexNumericLiteral 8%nat st
  = Some (TokenKind.IntegerLiteral, Some (NumericVector (lexeme st') V), st').
Proof.
  cbv zeta.
  apply (proj1 (proj2 (@sized_vector_literal exampleExternals)) 8%nat
           EmptyString "8"%string "s"%string "h" HexBase "Ff"%string
           [logic_val 15; logic_val 15] (lexerOn EndAtNul "8'shFf;")).
  - reflexivity.
  - reflexivity.
  - vm_compute; discriminate.
  - reflexivity.
  - vm_compute; discriminate.
  - right; left; reflexivity.
  - simpl; tauto.
  - reflexivity.
  - reflexivity.
  - reflexivity.
  - simpl; lia.
Defined.
